(** * The incremental chat-message parser (common/chat-parser.cpp)

    A shallow embedding of the parser's cursor primitives, healed-JSON
    consumer, argument dumper, message builder and Qwen3-Coder XML tool-call
    extractor, together with the properties the specification states about
    them.

    Conventions.
    - [std::string] and [std::string_view] are [string] (a sequence of 8-bit
      characters); offsets of type [size_t] are [nat], and [std::string::npos]
      is [None].
    - Code that throws returns an [outcome]; member functions of the parser are
      state transformers over the [parser] record.
    - Collaborators whose code lives outside this file (the JSON library, the
      partial-JSON parser, the C library number readers) are the fields of the
      class [External]; a regex is a value that carries its search function.
    - [j.is_string()], [j.is_object()] and [j.is_array()] are matches on the
      constructors of [json].
    - Logging ([LOG_DBG]) is left out.
    - Line numbers are those of chat-parser.cpp. *)

From Stdlib Require Import List Bool Arith Lia NArith ZArith DecimalString Ascii String.
Import ListNotations.

Local Open Scope string_scope.
Local Open Scope nat_scope.

Set Warnings "-register-all".

(** ** C++ string operations *)

Module Str.

(** [std::isspace] in the "C" locale: space, \t, \n, \v, \f, \r. *)
Definition isspace (c : ascii) : bool :=
  let n := nat_of_ascii c in
  ((9 <=? n) && (n <=? 13)) || (n =? 32).

(** The double-quote character, and the string made of it. *)
Definition dquote : ascii := "034"%char.
Definition dq : string := String dquote "".

(** [s.find(pat, pos)] *)
Definition find (s pat : string) (pos : nat) : option nat := index pos pat s.

(** [s.find(c, pos)] *)
Definition find_char (s : string) (c : ascii) (pos : nat) : option nat :=
  index pos (String c EmptyString) s.

(** [s[i]]; every use in the source is guarded by [i < s.size()]. *)
Definition at_ (s : string) (i : nat) : ascii :=
  match get i s with
  | Some c => c
  | None => zero
  end.

(** [std::to_string] on an unsigned value. *)
Definition to_string (n : nat) : string := NilZero.string_of_uint (Nat.to_uint n).
Definition to_string_N (n : N) : string := NilZero.string_of_uint (N.to_uint n).
Definition to_string_Z (z : Z) : string := NilZero.string_of_int (Z.to_int z).

(** [s.find_first_not_of(" \t\n\r")] *)
Definition is_trim_char (c : ascii) : bool :=
  match nat_of_ascii c with
  | 32 | 9 | 10 | 13 => true
  | _ => false
  end.

Fixpoint find_first_not_of (pred : ascii -> bool) (s : string) : option nat :=
  match s with
  | EmptyString => None
  | String c s' =>
      if pred c then option_map S (find_first_not_of pred s') else Some 0
  end.

(** [s.find_last_not_of(...)]: the last offset whose character is outside the set. *)
Fixpoint find_last_not_of (pred : ascii -> bool) (s : string) : option nat :=
  match s with
  | EmptyString => None
  | String c s' =>
      match find_last_not_of pred s' with
      | Some i => Some (S i)
      | None => if pred c then None else Some 0
      end
  end.

End Str.

(** ** The XML tool-call extractor: data *)

(** DoS-protection constants (lines 392-395). *)
Definition MAX_INPUT_SIZE : N := (1024 * 1024)%N.
Definition MAX_PARAMETER_COUNT : nat := 100.
Definition MAX_TAG_NAME_LENGTH : nat := 256.
Definition MAX_ATTRIBUTE_LENGTH : nat := 1024.

(** Modelled from the spec: the error record of chat-parser.h, which is not
    among the sources.  The spec lists its fields and its ten error types;
    [NONE] is the state the source's [error.clear()] restores and
    [error.has_error()] tests for. *)
Inductive XmlParseErrorType :=
| NONE
| INPUT_TOO_LARGE
| TAG_NAME_TOO_LONG
| ATTRIBUTE_TOO_LONG
| TOO_MANY_PARAMETERS
| TOO_MANY_TOOLS
| INVALID_XML_STRUCTURE
| INVALID_FUNCTION_NAME
| FUNCTION_NOT_FOUND
| PARAMETER_CONVERSION_FAILED
| JSON_SERIALIZATION_FAILED.

Record XmlParseError := mkError {
  type : XmlParseErrorType;
  position : nat;
  context : string;
  message : string
}.

Definition no_error : XmlParseError := mkError NONE 0 "" "".

Definition has_error (e : XmlParseError) : bool :=
  match type e with
  | NONE => false
  | _ => true
  end.

(** [set_error] (lines 398-407) overwrites the four fields. *)
Definition set_error (_ : XmlParseError) (t : XmlParseErrorType) (position : nat)
    (context message : string) : XmlParseError :=
  mkError t position context message.

(** Callers hand [find_xml_tag] a pointer to the error slot; [None] is the
    null pointer, through which nothing is written. *)
Definition error_ptr := option XmlParseError.

Definition set_error_ptr (e : error_ptr) (t : XmlParseErrorType) (position : nat)
    (context message : string) : error_ptr :=
  match e with
  | Some e' => Some (set_error e' t position context message)
  | None => None
  end.

Module Tag.
Record XmlTag := mk {
  name : string;
  attribute : string;
  content : string;
  start_pos : nat;
  end_pos : nat
}.
End Tag.
Definition XmlTag : Type := Tag.XmlTag.

(** ** find_xml_tag (lines 419-558) *)

Definition is_quote (c : ascii) : bool :=
  (Ascii.eqb c Str.dquote) || (Ascii.eqb c "'"%char).

(** The character that may follow [<name] in a genuine opening tag (line 465). *)
Definition tag_delimiter (c : ascii) : bool :=
  (Ascii.eqb c ">"%char) || (Ascii.eqb c "="%char) || Str.isspace c.

(** [while (attr_start < open_end && isspace(text[attr_start])) attr_start++]
    with [n = open_end - attr_start] iterations left. *)
Fixpoint skip_spaces (n : nat) (text : string) (attr_start : nat) : nat :=
  match n with
  | 0 => attr_start
  | S n' =>
      if Str.isspace (Str.at_ text attr_start)
      then skip_spaces n' text (S attr_start)
      else attr_start
  end.

(** [while (attr_end > attr_start && isspace(text[attr_end - 1])) attr_end--]
    with [n = attr_end - attr_start] iterations left; returns the final
    [attr_end]. *)
Fixpoint trim_trailing (n : nat) (text : string) (attr_start : nat) : nat :=
  match n with
  | 0 => attr_start
  | S n' =>
      if Str.isspace (Str.at_ text (attr_start + n'))
      then trim_trailing n' text attr_start
      else attr_start + n
  end.

(** The bounds [attr_start, attr_end) of the attribute value once its first
    character is known to lie before [open_end] (lines 496-516). *)
Definition attribute_bounds (text : string) (attr_start open_end : nat) : nat * nat :=
  if is_quote (Str.at_ text attr_start) then
    let quote_char := Str.at_ text attr_start in
    match Str.find_char text quote_char (S attr_start) with
    | Some quote_end =>
        if quote_end <? open_end
        then (S attr_start, quote_end)
        else (attr_start, open_end)      (* no closing quote: back on the quote *)
    | None => (attr_start, open_end)
    end
  else (attr_start, trim_trailing (open_end - attr_start) text attr_start).

(** Lines 484-535: [inl attribute], or [inr attr_view] when the attribute is
    longer than [MAX_ATTRIBUTE_LENGTH]. *)
Definition extract_attribute (text tag_name : string) (open_pos open_end : nat)
    : string + string :=
  let tag_content_start := open_pos + 1 + length tag_name in
  if tag_content_start <? open_end then
    match Str.find_char text "="%char tag_content_start with
    | Some eq_pos =>
        if eq_pos <? open_end then
          let attr_start := skip_spaces (open_end - S eq_pos) text (S eq_pos) in
          if attr_start <? open_end then
            let '(attr_start, attr_end) := attribute_bounds text attr_start open_end in
            if attr_start <? attr_end then
              let attr_view := substring attr_start (attr_end - attr_start) text in
              if length attr_view <=? MAX_ATTRIBUTE_LENGTH
              then inl attr_view
              else inr attr_view
            else inl ""
          else inl ""
        else inl ""
    | None => inl ""
    end
  else inl "".

(** One opening-tag candidate at [open_pos], already validated (lines 473-554). *)
Definition read_tag (text tag_name close_tag : string) (open_pos : nat)
    (error : error_ptr) : option XmlTag * error_ptr :=
  match Str.find_char text ">"%char open_pos with
  | None => (None, error)
  | Some open_end =>
      match extract_attribute text tag_name open_pos open_end with
      | inr attr_view =>
          (None,
           set_error_ptr error ATTRIBUTE_TOO_LONG open_pos (substring 0 100 attr_view)
             ("Attribute exceeds maximum length of "
                ++ Str.to_string MAX_ATTRIBUTE_LENGTH ++ " characters"))
      | inl attr =>
          match Str.find text close_tag (open_end + 1) with
          | None => (None, error)
          | Some close_pos =>
              let content_start := open_end + 1 in
              let content_length := close_pos - content_start in
              (Some (Tag.mk tag_name attr
                       (substring content_start content_length text)
                       open_pos (close_pos + length close_tag)),
               error)
          end
      end
  end.

(** The search loop [while (search_pos < text.size())] (lines 452-557).  Each
    turn either returns or resumes strictly after [search_pos], so
    [text.size()] turns are enough; see [find_loop_fuel]. *)
Fixpoint find_loop (fuel : nat) (text tag_name : string) (search_pos : nat)
    (error : error_ptr) : option XmlTag * error_ptr :=
  match fuel with
  | 0 => (None, error)
  | S fuel' =>
      if search_pos <? length text then
        let open_tag_start := "<" ++ tag_name in
        let close_tag := "</" ++ tag_name ++ ">" in
        match Str.find text open_tag_start search_pos with
        | None => (None, error)
        | Some open_pos =>
            let check_pos := open_pos + length open_tag_start in
            if (check_pos <? length text)
               && negb (tag_delimiter (Str.at_ text check_pos))
            then find_loop fuel' text tag_name (open_pos + 1) error
            else read_tag text tag_name close_tag open_pos error
        end
      else (None, error)
  end.

Definition find_xml_tag (text tag_name : string) (start_pos : nat) (error : error_ptr)
    : option XmlTag * error_ptr :=
  if (MAX_INPUT_SIZE <? N.of_nat (length text))%N then
    (None,
     set_error_ptr error INPUT_TOO_LARGE 0
       (substring 0 (Nat.min (length text) 100) text)
       ("XML input exceeds maximum size limit of "
          ++ Str.to_string_N MAX_INPUT_SIZE ++ " bytes"))
  else if MAX_TAG_NAME_LENGTH <? length tag_name then
    (None,
     set_error_ptr error TAG_NAME_TOO_LONG 0 tag_name
       ("Tag name exceeds maximum length of "
          ++ Str.to_string MAX_TAG_NAME_LENGTH ++ " characters"))
  else if length text <=? start_pos then (None, error)
  else find_loop (length text) text tag_name start_pos error.

(** ** find_all_xml_tags (lines 561-587) *)

(** [while (pos < text.length() && tag_count < MAX_PARAMETER_COUNT)]; the
    counter grows each turn, so [MAX_PARAMETER_COUNT] turns are enough. *)
Fixpoint find_all_loop (fuel : nat) (text tag_name : string) (pos tag_count : nat)
    (tags : list XmlTag) (error : error_ptr)
    : list XmlTag * nat * nat * error_ptr :=
  match fuel with
  | 0 => (tags, pos, tag_count, error)
  | S fuel' =>
      if (pos <? length text) && (tag_count <? MAX_PARAMETER_COUNT) then
        match find_xml_tag text tag_name pos error with
        | (None, error') => (tags, pos, tag_count, error')
        | (Some tag, error') =>
            find_all_loop fuel' text tag_name (Tag.end_pos tag) (S tag_count)
              (tags ++ [tag])%list error'
        end
      else (tags, pos, tag_count, error)
  end.

Definition find_all_xml_tags (text tag_name : string) (error : error_ptr)
    : list XmlTag * error_ptr :=
  let '(tags, pos, tag_count, error) :=
    find_all_loop MAX_PARAMETER_COUNT text tag_name 0 0 [] error in
  if MAX_PARAMETER_COUNT <=? tag_count then
    (tags,
     set_error_ptr error TOO_MANY_PARAMETERS pos
       (substring pos (Nat.min (length text - pos) 100) text)
       ("Too many " ++ tag_name ++ " tags found (max: "
          ++ Str.to_string MAX_PARAMETER_COUNT ++ ")"))
  else (tags, error).

(** [trim_whitespace] (lines 590-597). *)
Definition trim_whitespace (str : string) : string :=
  match Str.find_first_not_of Str.is_trim_char str with
  | None => ""
  | Some start =>
      match Str.find_last_not_of Str.is_trim_char str with
      | Some e => substring start (e - start + 1) str
      | None => ""
      end
  end.

(** ** Exceptions and results *)

(** The exceptions the code throws or catches; [what] is [e.what()]. *)
Inductive exn :=
| partial_exception (what : string)   (* common_chat_msg_partial_exception *)
| runtime_error (what : string)       (* std::runtime_error *)
| out_of_range (what : string)        (* std::out_of_range, from substr *)
| json_exception (what : string)      (* nlohmann::json::exception *)
| invalid_argument (what : string).   (* std::invalid_argument, from stoll / stod *)

Definition what (e : exn) : string :=
  match e with
  | partial_exception w | runtime_error w | out_of_range w
  | json_exception w | invalid_argument w => w
  end.

Inductive outcome (A : Type) :=
| Ret (a : A)
| Throw (e : exn).
Arguments Ret {A} a.
Arguments Throw {A} e.

(** [s.substr(pos, count)]: throws [std::out_of_range] when [pos > s.size()].
    The text of [what()] is the C++ library's own; the one given here is
    libstdc++'s, and no property below depends on it. *)
Definition substr (s : string) (pos count : nat) : outcome string :=
  if length s <? pos then
    Throw (out_of_range
             ("basic_string::substr: __pos (which is " ++ Str.to_string pos
                ++ ") > this->size() (which is " ++ Str.to_string (length s) ++ ")"))
  else Ret (substring pos count s).

(** [b - a] on [size_t]: when [b < a] the difference wraps to a value above
    every string length, and [substr] then takes the rest of the string. *)
Definition size_diff (len b a : nat) : nat :=
  if b <? a then len else b - a.

(** ** JSON values (nlohmann::ordered_json) *)

Inductive json :=
| JNull
| JBool (b : bool)
| JInt (z : Z)
| JFloat (lexeme : string)       (* a floating-point number, kept as a token *)
| JString (s : string)
| JArray (items : list json)
| JObject (members : list (string * json)).   (* in insertion order *)

Module Json.

Fixpoint lookup (key : string) (members : list (string * json)) : option json :=
  match members with
  | [] => None
  | (k, v) :: rest => if String.eqb k key then Some v else lookup key rest
  end.

(** [j.contains(key)]: false on anything that is not an object. *)
Definition contains (j : json) (key : string) : bool :=
  match j with
  | JObject members =>
      match lookup key members with Some _ => true | None => false end
  | _ => false
  end.

(** [j.type_name()] *)
Definition type_name (j : json) : string :=
  match j with
  | JNull => "null"
  | JBool _ => "boolean"
  | JInt _ | JFloat _ => "number"
  | JString _ => "string"
  | JArray _ => "array"
  | JObject _ => "object"
  end.

(** [j.at(key)], and const [j[key]] where [contains] has succeeded. *)
Definition at_ (j : json) (key : string) : outcome json :=
  match j with
  | JObject members =>
      match lookup key members with
      | Some v => Ret v
      | None =>
          Throw (json_exception
                   ("[json.exception.out_of_range.403] key '" ++ key ++ "' not found"))
      end
  | _ =>
      Throw (json_exception
               ("[json.exception.type_error.304] cannot use at() with " ++ type_name j))
  end.

(** The implicit conversion of a value to [std::string]. *)
Definition get_string (j : json) : outcome string :=
  match j with
  | JString s => Ret s
  | _ =>
      Throw (json_exception
               ("[json.exception.type_error.302] type must be string, but is "
                  ++ type_name j))
  end.

(** [obj[key] = v] on an ordered object: an existing key keeps its place. *)
Fixpoint set_member (key : string) (v : json) (members : list (string * json))
    : list (string * json) :=
  match members with
  | [] => [(key, v)]
  | (k, v') :: rest =>
      if String.eqb k key then (k, v) :: rest
      else (k, v') :: set_member key v rest
  end.

(** The elements a range-for visits: the elements of an array, the values of
    an object, nothing for null, the value itself otherwise. *)
Definition elements (j : json) : list json :=
  match j with
  | JArray items => items
  | JObject members => map snd members
  | JNull => []
  | _ => [j]
  end.

End Json.

(** ** Collaborators outside this file *)

(** The healing token of the partial-JSON parser. *)
Record common_healing_marker := mkHealing {
  marker : string;
  json_dump_marker : string
}.

Record common_json := mkCommonJson {
  json_value : json;                          (* the field [json] *)
  healing_marker : common_healing_marker
}.

(** What the file takes from its collaborators.
    - [json_dump j] is [j.dump()] and [json_parse s] is [json::parse(s)]; both
      can throw.
    - [common_json_parse input pos healing_marker] is the partial-JSON parser
      run on [input] from offset [pos]: [None] when it returns false,
      otherwise the offset it stopped at and the (possibly healed) value.
    - [string_find_partial_stop input literal] is the offset at which a
      suffix of [input] that is a prefix of [literal] begins, if there is one.
    - [stoll] and [stod] are the C++ library number readers; [fp] stands for
      [double], [fp_in_float_range x] for
      [!(x > FLT_MAX || x < FLT_LOWEST)], and [fp_to_string x] for
      [std::to_string(static_cast<float>(x))]. *)
Class External := {
  json_dump : json -> outcome string;
  json_parse : string -> outcome json;
  common_json_parse : string -> nat -> string -> option (nat * common_json);
  string_find_partial_stop : string -> string -> option nat;
  stoll : string -> outcome Z;
  fp : Type;
  stod : string -> outcome fp;
  fp_in_float_range : fp -> bool;
  fp_to_string : fp -> string
}.

(** Modelled from the spec: [string_strip] of common.cpp, which is not among
    the sources; it removes the whitespace at both ends. *)
Definition string_strip (str : string) : string :=
  match Str.find_first_not_of Str.isspace str with
  | None => ""
  | Some start =>
      match Str.find_last_not_of Str.isspace str with
      | Some e => substring start (e - start + 1) str
      | None => ""
      end
  end.

(** The regex engine: a compiled regex answers [search(input, pos)] with the
    kind of match and its groups. *)
Inductive common_regex_match_type :=
| COMMON_REGEX_MATCH_TYPE_NONE
| COMMON_REGEX_MATCH_TYPE_PARTIAL
| COMMON_REGEX_MATCH_TYPE_FULL.

Record common_string_range := mkRange {
  range_begin : nat;     (* the field [begin] *)
  range_end : nat        (* the field [end] *)
}.

Record common_regex_match := mkMatch {
  match_type : common_regex_match_type;     (* the field [type] *)
  groups : list common_string_range
}.

Record common_regex := mkRegex {
  regex_str : string;                                   (* [regex.str()] *)
  search : string -> nat -> common_regex_match
}.

(** [m.groups[0]]; a match other than NONE has its whole-match group. *)
Definition group0 (m : common_regex_match) : common_string_range :=
  hd (mkRange 0 0) (groups m).

(** ** The message under construction and the parser *)

Module ToolCall.
Record common_chat_tool_call := mk {
  name : string;
  arguments : string;
  id : string
}.
End ToolCall.
Definition common_chat_tool_call : Type := ToolCall.common_chat_tool_call.

Module Tool.
Record common_chat_tool := mk {
  name : string;
  description : string;
  parameters : string
}.
End Tool.
Definition common_chat_tool : Type := Tool.common_chat_tool.

Module Msg.
Record common_chat_msg := mk {
  role : string;
  content : string;
  reasoning_content : string;
  tool_calls : list common_chat_tool_call
}.
End Msg.
Definition common_chat_msg : Type := Msg.common_chat_msg.

(** Modelled from the spec: the reasoning formats and the syntax record of
    chat.h, which are not among the sources. *)
Inductive common_reasoning_format :=
| COMMON_REASONING_FORMAT_NONE
| COMMON_REASONING_FORMAT_DEEPSEEK
| COMMON_REASONING_FORMAT_GENERIC.

Record common_chat_syntax := mkSyntax {
  reasoning_format : common_reasoning_format;
  reasoning_in_content : bool;
  thinking_forced_open : bool
}.

Record find_regex_result := mkFind {
  prelude : string;
  find_groups : list common_string_range     (* the field [groups] *)
}.

Record parser := mkParser {
  input_ : string;
  is_partial_ : bool;
  syntax_ : common_chat_syntax;
  pos_ : nat;
  healing_marker_ : string;
  result_ : common_chat_msg;
  last_xml_error_ : XmlParseError
}.

(** The constructor (lines 15-27) draws identifiers from [std::rand] until
    one does not occur in the input; [ids] is the sequence of draws, and the
    result is None when every draw of the sequence occurs in the input. *)
Fixpoint pick_healing_marker (input : string) (ids : list string) : option string :=
  match ids with
  | [] => None
  | id :: ids' =>
      match Str.find input id 0 with
      | None => Some id
      | Some _ => pick_healing_marker input ids'
      end
  end.

(** The parser the constructor builds once [healing_marker] is chosen. *)
Definition new_parser (input : string) (is_partial : bool) (syntax : common_chat_syntax)
    (healing_marker : string) : parser :=
  {| input_ := input;
     is_partial_ := is_partial;
     syntax_ := syntax;
     pos_ := 0;
     healing_marker_ := healing_marker;
     result_ := Msg.mk "assistant" "" "" [];
     last_xml_error_ := no_error |}.

Definition construct (input : string) (is_partial : bool) (syntax : common_chat_syntax)
    (ids : list string) : option parser :=
  option_map (new_parser input is_partial syntax) (pick_healing_marker input ids).

(** Lines 29-32.  [GGML_ASSERT] aborts the process when the range is
    reversed: None; otherwise the outcome of [substr]. *)
Definition str (rng : common_string_range) (p : parser) : option (outcome string) :=
  if range_begin rng <=? range_end rng
  then Some (substr (input_ p) (range_begin rng) (range_end rng - range_begin rng))
  else None.

(** ** Member functions as state transformers *)

Definition M (A : Type) : Type := parser -> outcome A * parser.

Definition ret {A} (a : A) : M A := fun p => (Ret a, p).
Definition throw {A} (e : exn) : M A := fun p => (Throw e, p).

Definition bind {A B} (m : M A) (k : A -> M B) : M B :=
  fun p =>
    match m p with
    | (Ret a, p') => k a p'
    | (Throw e, p') => (Throw e, p')
    end.

Notation "x <- m ;; k" := (bind m (fun x => k))
  (at level 61, m at next level, right associativity).
Notation "m ;;; k" := (bind m (fun _ => k))
  (at level 61, right associativity).

Definition lift {A} (o : outcome A) : M A := fun p => (o, p).
Definition gets {A} (f : parser -> A) : M A := fun p => (Ret (f p), p).
Definition modify (f : parser -> parser) : M unit := fun p => (Ret tt, f p).

Definition set_pos (pos : nat) (p : parser) : parser :=
  {| input_ := input_ p; is_partial_ := is_partial_ p; syntax_ := syntax_ p;
     pos_ := pos; healing_marker_ := healing_marker_ p; result_ := result_ p;
     last_xml_error_ := last_xml_error_ p |}.

Definition set_result (r : common_chat_msg) (p : parser) : parser :=
  {| input_ := input_ p; is_partial_ := is_partial_ p; syntax_ := syntax_ p;
     pos_ := pos_ p; healing_marker_ := healing_marker_ p; result_ := r;
     last_xml_error_ := last_xml_error_ p |}.

Definition set_last_xml_error (e : XmlParseError) (p : parser) : parser :=
  {| input_ := input_ p; is_partial_ := is_partial_ p; syntax_ := syntax_ p;
     pos_ := pos_ p; healing_marker_ := healing_marker_ p; result_ := result_ p;
     last_xml_error_ := e |}.

Definition set_tool_calls (l : list common_chat_tool_call) (r : common_chat_msg)
    : common_chat_msg :=
  Msg.mk (Msg.role r) (Msg.content r) (Msg.reasoning_content r) l.

Definition tool_calls_of (p : parser) : list common_chat_tool_call :=
  Msg.tool_calls (result_ p).

(** Lines 34-40. *)
Definition add_content (content : string) : M unit :=
  modify (fun p =>
    let r := result_ p in
    set_result (Msg.mk (Msg.role r) (Msg.content r ++ content)
                  (Msg.reasoning_content r) (Msg.tool_calls r)) p).

Definition add_reasoning_content (reasoning_content : string) : M unit :=
  modify (fun p =>
    let r := result_ p in
    set_result (Msg.mk (Msg.role r) (Msg.content r)
                  (Msg.reasoning_content r ++ reasoning_content) (Msg.tool_calls r)) p).

(** Lines 42-56. *)
Definition add_tool_call (name id arguments : string) : M bool :=
  if String.eqb name "" then ret false
  else
    let tool_call := ToolCall.mk name arguments id in
    modify (fun p =>
      set_result (set_tool_calls (tool_calls_of p ++ [tool_call])%list (result_ p)) p) ;;;
    ret true.

(** [tool_call.contains(key) ? tool_call.at(key) : ""], converted to a string. *)
Definition string_field (tool_call : json) (key : string) : outcome string :=
  if Json.contains tool_call key then
    match Json.at_ tool_call key with
    | Ret v => Json.get_string v
    | Throw e => Throw e
    end
  else Ret "".

(** Lines 57-62. *)
Definition add_tool_call_json (tool_call : json) : M bool :=
  name <- lift (string_field tool_call "name") ;;
  id <- lift (string_field tool_call "id") ;;
  arguments <- lift (string_field tool_call "arguments") ;;
  add_tool_call name id arguments.

(** Lines 64-71. *)
Fixpoint add_tool_calls_items (items : list json) : M bool :=
  match items with
  | [] => ret true
  | item :: rest =>
      ok <- add_tool_call_json item ;;
      if ok then add_tool_calls_items rest else ret false
  end.

Definition add_tool_calls (arr : json) : M bool :=
  add_tool_calls_items (Json.elements arr).

(** Lines 385-387. *)
Definition clear_tools : M unit :=
  modify (fun p => set_result (set_tool_calls [] (result_ p)) p).

(** Lines 72-76. *)
Definition finish : M unit :=
  fun p =>
    if negb (is_partial_ p) && negb (pos_ p =? length (input_ p))
    then (Throw (runtime_error "Unexpected content at end of input"), p)
    else (Ret tt, p).

(** ** The cursor *)

(** [move_to] of chat-parser.h.  Modelled from the spec: the header is not
    among the sources; the cursor is placed at the given offset, which at
    both call sites is at most [input_.size()]. *)
Definition move_to (pos : nat) : M unit := modify (set_pos pos).

(** Lines 78-86, with [fuel = input_.size() - pos_] turns. *)
Fixpoint consume_spaces_loop (fuel : nat) (input : string) (pos : nat) (consumed : bool)
    : nat * bool :=
  match fuel with
  | 0 => (pos, consumed)
  | S fuel' =>
      if (pos <? length input) && Str.isspace (Str.at_ input pos)
      then consume_spaces_loop fuel' input (S pos) true
      else (pos, consumed)
  end.

Definition consume_spaces : M bool :=
  fun p =>
    let '(pos, consumed) :=
      consume_spaces_loop (length (input_ p) - pos_ p) (input_ p) (pos_ p) false in
    (Ret consumed, set_pos pos p).

(** Lines 89-98: the local [pos] after matching [literal], if it matches. *)
Fixpoint match_literal (input literal : string) (pos : nat) : option nat :=
  match literal with
  | EmptyString => Some pos
  | String c literal' =>
      if length input <=? pos then None
      else if negb (Ascii.eqb (Str.at_ input pos) c) then None
      else match_literal input literal' (S pos)
  end.

(** Lines 88-101. *)
Definition try_consume_literal (literal : string) : M bool :=
  fun p =>
    match match_literal (input_ p) literal (pos_ p) with
    | None => (Ret false, p)
    | Some pos => (Ret true, set_pos pos p)
    end.

(** Lines 127-131. *)
Definition consume_literal (literal : string) : M unit :=
  ok <- try_consume_literal literal ;;
  if ok then ret tt else throw (partial_exception literal).

(** Lines 170-174. *)
Definition consume_rest : M string :=
  fun p =>
    match substr (input_ p) (pos_ p) (length (input_ p) - pos_ p) with
    | Ret rest => (Ret rest, set_pos (length (input_ p)) p)
    | Throw e => (Throw e, p)
    end.

Section Parser.

Context {E : External}.

(** Lines 103-125. *)
Definition try_find_literal (literal : string) : M (option find_regex_result) :=
  fun p =>
    let input := input_ p in
    match Str.find input literal (pos_ p) with
    | Some idx =>
        (prelude <- lift (substr input (pos_ p) (idx - pos_ p)) ;;
         let end_ := idx + length literal in
         move_to end_ ;;;
         ret (Some (mkFind prelude [mkRange idx end_]))) p
    | None =>
        if is_partial_ p then
          match string_find_partial_stop input literal with
          | Some idx =>
              if pos_ p <=? idx then
                (prelude <- lift (substr input (pos_ p) (idx - pos_ p)) ;;
                 let end_ := length input in
                 move_to end_ ;;;
                 ret (Some (mkFind prelude [mkRange idx end_]))) p
              else (Ret None, p)
          | None => (Ret None, p)
          end
        else (Ret None, p)
    end.

(** The lambda [handle_reasoning] (lines 134-148). *)
Definition handle_reasoning (start_think end_think reasoning : string) (closed : bool)
    : M unit :=
  let stripped_reasoning := string_strip reasoning in
  if String.eqb stripped_reasoning "" then ret tt
  else
    syntax <- gets syntax_ ;;
    let deepseek :=
      match reasoning_format syntax with
      | COMMON_REASONING_FORMAT_DEEPSEEK => true
      | _ => false
      end in
    if reasoning_in_content syntax then
      add_content (if deepseek then "<think>" else start_think) ;;;
      add_content stripped_reasoning ;;;
      if closed
      then add_content (if deepseek then "</think>" else end_think)
      else ret tt
    else add_reasoning_content stripped_reasoning.

(** Lines 133-168. *)
Definition try_parse_reasoning (start_think end_think : string) : M bool :=
  syntax <- gets syntax_ ;;
  match reasoning_format syntax with
  | COMMON_REASONING_FORMAT_NONE => ret false
  | _ =>
      inside <- (if thinking_forced_open syntax then ret true
                 else try_consume_literal start_think) ;;
      if inside then
        res <- try_find_literal end_think ;;
        match res with
        | Some res =>
            handle_reasoning start_think end_think (prelude res) true ;;;
            consume_spaces ;;;
            ret true
        | None =>
            rest <- consume_rest ;;
            partial <- gets is_partial_ ;;
            (if String.eqb rest "" then ret tt
             else handle_reasoning start_think end_think rest (negb partial)) ;;;
            ret true
        end
      else ret false
  end.

(** Lines 177-195; [from = None] is [std::string::npos]. *)
Definition try_find_regex (regex : common_regex) (from : option nat)
    (add_prelude_to_content : bool) : M (option find_regex_result) :=
  fun p =>
    let input := input_ p in
    let m := search regex input (match from with None => pos_ p | Some f => f end) in
    match match_type m with
    | COMMON_REGEX_MATCH_TYPE_NONE => (Ret None, p)
    | _ =>
        (prelude <- lift (substr input (pos_ p)
                            (size_diff (length input) (range_begin (group0 m)) (pos_ p))) ;;
         modify (set_pos (range_end (group0 m))) ;;;
         (if add_prelude_to_content then add_content prelude else ret tt) ;;;
         match match_type m with
         | COMMON_REGEX_MATCH_TYPE_PARTIAL =>
             partial <- gets is_partial_ ;;
             if partial then throw (partial_exception (regex_str regex))
             else ret None
         | _ => ret (Some (mkFind prelude (groups m)))
         end) p
    end.

(** Lines 204-225. *)
Definition try_consume_regex (regex : common_regex) : M (option find_regex_result) :=
  fun p =>
    let m := search regex (input_ p) (pos_ p) in
    match match_type m with
    | COMMON_REGEX_MATCH_TYPE_NONE => (Ret None, p)
    | COMMON_REGEX_MATCH_TYPE_PARTIAL =>
        if is_partial_ p then (Throw (partial_exception (regex_str regex)), p)
        else (Ret None, p)
    | COMMON_REGEX_MATCH_TYPE_FULL =>
        if negb (range_begin (group0 m) =? pos_ p) then (Ret None, p)
        else (Ret (Some (mkFind "" (groups m))), set_pos (range_end (group0 m)) p)
    end.

(** Lines 197-202. *)
Definition consume_regex (regex : common_regex) : M find_regex_result :=
  result <- try_consume_regex regex ;;
  match result with
  | Some r => ret r
  | None => throw (partial_exception (regex_str regex))
  end.

(** ** The healed-JSON consumer (lines 227-250) *)

Definition try_consume_json : M (option common_json) :=
  fun p =>
    match common_json_parse (input_ p) (pos_ p) (healing_marker_ p) with
    | None => (Ret None, p)
    | Some (pos, result) =>
        let p' := set_pos pos p in
        if String.eqb (marker (healing_marker result)) "" then (Ret (Some result), p')
        else if negb (is_partial_ p') then (Throw (partial_exception "JSON"), p')
        else (Ret (Some result), p')
    end.

Definition consume_json : M common_json :=
  result <- try_consume_json ;;
  match result with
  | Some r => ret r
  | None => throw (partial_exception "JSON")
  end.

(** ** The argument/content dumper (lines 262-383) *)

Record consume_json_result := mkConsumed {
  value : json;
  is_partial : bool
}.

Definition json_path := list string.

Definition path_eqb (a b : json_path) : bool :=
  if list_eq_dec string_dec a b then true else false.

Definition is_path_in (paths : list json_path) (path : json_path) : bool :=
  existsb (path_eqb path) paths.

Definition contains_str (s pat : string) : bool :=
  match Str.find s pat 0 with Some _ => true | None => false end.

(** The variables the lambda captures by reference. *)
Record dump_state := mkDump {
  path : json_path;
  found_healing_marker : bool
}.

Definition push_back (key : string) (st : dump_state) : dump_state :=
  mkDump (path st ++ [key])%list (found_healing_marker st).
Definition pop_back (st : dump_state) : dump_state :=
  mkDump (removelast (path st)) (found_healing_marker st).
Definition mark_found (st : dump_state) : dump_state :=
  mkDump (path st) true.

Section Dump.

Variable args_paths content_paths : list json_path.
Variable parser_is_partial : bool.          (* [is_partial()] *)
Variable parser_healing_marker : string.    (* [healing_marker_] *)
Variable partial : common_json.             (* [*partial] *)

Definition is_arguments_path := is_path_in args_paths.
Definition is_content_path := is_path_in content_paths.

(** Lines 300-312: the text emitted for a subtree on an argument path. *)
Definition dump_arguments (j : json) (st : dump_state) : outcome (json * dump_state) :=
  match json_dump j with
  | Throw e => Throw e
  | Ret arguments =>
      if parser_is_partial && negb (String.eqb (marker (healing_marker partial)) "") then
        let '(arguments, st) :=
          match Str.find arguments (json_dump_marker (healing_marker partial)) 0 with
          | Some idx => (substring 0 idx arguments, mark_found st)
          | None => (arguments, st)
          end in
        let arguments :=
          if String.eqb arguments Str.dq then "" else arguments in
        Ret (JString arguments, st)
      else Ret (JString arguments, st)
  end.

(** Lines 315-324: a string on a content path, cut at the raw marker. *)
Definition dump_content (j : json) (st : dump_state) : outcome (json * dump_state) :=
  match j with
  | JString str =>
      match Str.find str (marker (healing_marker partial)) 0 with
      | Some idx => Ret (JString (substring 0 idx str), mark_found st)
      | None => Ret (JString str, st)
      end
  | _ => Throw (runtime_error "Content path must be a string")
  end.

(** The loop over the members of an object (lines 328-355); [walk] is the
    lambda itself.  Leaving the loop by [break] returns what has been built
    and leaves [path] as it is at that point. *)
Fixpoint members_loop (walk : json -> dump_state -> outcome (json * dump_state))
    (ms : list (string * json)) (obj : list (string * json)) (st : dump_state)
    {struct ms} : outcome (json * dump_state) :=
  match ms with
  | [] => Ret (JObject obj, st)
  | (key, value) :: ms' =>
      if contains_str key parser_healing_marker then
        Ret (JObject obj, mark_found st)
      else
        let st := push_back key st in
        match value with
        | JString value_str =>
            if contains_str value_str parser_healing_marker then
              let st := mark_found st in
              if is_content_path (path st)
                 && String.eqb (marker (healing_marker partial))
                      (json_dump_marker (healing_marker partial))
              then
                match walk value st with
                | Ret (v, st) => Ret (JObject (Json.set_member key v obj), st)
                | Throw e => Throw e
                end
              else Ret (JObject obj, st)
            else members_loop walk ms' (Json.set_member key value obj) (pop_back st)
        | _ =>
            match walk value st with
            | Ret (v, st) => members_loop walk ms' (Json.set_member key v obj) (pop_back st)
            | Throw e => Throw e
            end
        end
  end.

(** The loop over the elements of an array (lines 360-371). *)
Fixpoint items_loop (walk : json -> dump_state -> outcome (json * dump_state))
    (vs : list json) (arr : list json) (st : dump_state)
    {struct vs} : outcome (json * dump_state) :=
  match vs with
  | [] => Ret (JArray arr, st)
  | value :: vs' =>
      let stop :=
        match value with
        | JString str => contains_str str parser_healing_marker
        | _ => false
        end in
      if stop then Ret (JArray arr, mark_found st)
      else
        match walk value st with
        | Ret (v, st) => items_loop walk vs' (arr ++ [v])%list st
        | Throw e => Throw e
        end
  end.

(** The lambda [remove_unsupported_healings_and_dump_args] (lines 298-375). *)
Fixpoint remove_unsupported_healings_and_dump_args (j : json) (st : dump_state)
    {struct j} : outcome (json * dump_state) :=
  if is_arguments_path (path st) then dump_arguments j st
  else if is_content_path (path st) then dump_content j st
  else
    match j with
    | JObject members =>
        members_loop remove_unsupported_healings_and_dump_args members [] st
    | JArray items =>
        items_loop remove_unsupported_healings_and_dump_args items [] st
    | _ => Ret (j, st)
    end.

(** Lines 277-382, once [try_consume_json] has produced [partial]. *)
Definition dump_args_of_partial : outcome consume_json_result :=
  let healed := negb (String.eqb (marker (healing_marker partial)) "") in
  if negb healed && match args_paths with [] => true | _ => false end then
    Ret (mkConsumed (json_value partial) false)
  else if negb healed && is_arguments_path [] then
    match json_dump (json_value partial) with
    | Ret text => Ret (mkConsumed (JString text) false)
    | Throw e => Throw e
    end
  else
    match remove_unsupported_healings_and_dump_args (json_value partial)
            (mkDump [] false) with
    | Ret (cleaned, st) => Ret (mkConsumed cleaned (found_healing_marker st))
    | Throw e => Throw e
    end.

End Dump.

(** Lines 262-383. *)
Definition try_consume_json_with_dumped_args (args_paths content_paths : list json_path)
    : M (option consume_json_result) :=
  partial <- try_consume_json ;;
  match partial with
  | None => ret None
  | Some partial =>
      fun p =>
        match dump_args_of_partial args_paths content_paths (is_partial_ p)
                (healing_marker_ p) partial with
        | Ret r => (Ret (Some r), p)
        | Throw e => (Throw e, p)
        end
  end.

(** Lines 252-260. *)
Definition consume_json_with_dumped_args (args_paths content_paths : list json_path)
    : M consume_json_result :=
  result <- try_consume_json_with_dumped_args args_paths content_paths ;;
  match result with
  | Some r => ret r
  | None => throw (partial_exception "JSON")
  end.

End Parser.

(** ** The XML tool-call extractor: value coercion and the parser *)

Section Xml.

Context {E : External}.

Definition INT_MAX : Z := 2147483647.
Definition INT_MIN : Z := -2147483648.

(** Lines 600-613. *)
Definition safe_parse_int (str : string) : option Z :=
  match stoll str with
  | Ret temp =>
      if ((temp >? INT_MAX) || (temp <? INT_MIN))%Z then None else Some temp
  | Throw _ => None
  end.

(** Lines 616-628. *)
Definition safe_parse_float (str : string) : option fp :=
  match stod str with
  | Ret temp => if fp_in_float_range temp then Some temp else None
  | Throw _ => None
  end.

(** [json(s).dump()] *)
Definition dump_string (s : string) : outcome string := json_dump (JString s).

(** [try { return json::parse(s).dump(); } catch (...) { }]: the text
    returned from inside the [try], if it gets that far. *)
Definition parse_and_dump (s : string) : option string :=
  match json_parse s with
  | Ret parsed =>
      match json_dump parsed with
      | Ret text => Some text
      | Throw _ => None
      end
  | Throw _ => None
  end.

Definition is_bool_literal (s : string) : bool :=
  String.eqb s "true" || String.eqb s "false".

(** Lines 685-711: no usable schema entry, the type is inferred. *)
Definition infer_param_value (trimmed_value : string) : outcome string :=
  match parse_and_dump trimmed_value with
  | Some text => Ret text
  | None =>
      match safe_parse_int trimmed_value with
      | Some int_val => Ret (Str.to_string_Z int_val)
      | None =>
          match safe_parse_float trimmed_value with
          | Some float_val => Ret (fp_to_string float_val)
          | None =>
              if is_bool_literal trimmed_value then Ret trimmed_value
              else dump_string trimmed_value
          end
      end
  end.

(** Lines 644-647: the declared type, ["string"] when the entry has none. *)
Definition declared_type (param_config : json) (param_name : string) : outcome string :=
  match Json.at_ param_config param_name with
  | Throw e => Throw e
  | Ret entry =>
      if Json.contains entry "type" then
        match Json.at_ entry "type" with
        | Ret t => Json.get_string t
        | Throw e => Throw e
        end
      else Ret "string"
  end.

Definition one_of (s a b : string) : bool := String.eqb s a || String.eqb s b.

(** Lines 631-712. *)
Definition convert_qwen3_param_value (param_value param_name : string)
    (param_config : json) (func_name : string) : outcome string :=
  let trimmed_value := trim_whitespace param_value in
  if String.eqb trimmed_value "null" then Ret "null"
  else if Json.contains param_config param_name then
    match declared_type param_config param_name with
    | Throw e => Throw e
    | Ret param_type =>
        if one_of param_type "string" "str" || String.eqb param_type "text" then
          dump_string trimmed_value
        else if one_of param_type "integer" "int" then
          match safe_parse_int trimmed_value with
          | Some int_val => Ret (Str.to_string_Z int_val)
          | None => dump_string trimmed_value
          end
        else if one_of param_type "number" "float" then
          match safe_parse_float trimmed_value with
          | Some float_val => Ret (fp_to_string float_val)
          | None => dump_string trimmed_value
          end
        else if one_of param_type "boolean" "bool" then
          if is_bool_literal trimmed_value then Ret trimmed_value else Ret "false"
        else if one_of param_type "object" "array" then
          match parse_and_dump trimmed_value with
          | Some text => Ret text
          | None => dump_string trimmed_value
          end
        else infer_param_value trimmed_value
    end
  else infer_param_value trimmed_value.

(** Lines 715-731. *)
Fixpoint get_param_config (func_name : string) (tools : list common_chat_tool) : json :=
  match tools with
  | [] => JObject []
  | tool :: rest =>
      if String.eqb (Tool.name tool) func_name then
        match json_parse (Tool.parameters tool) with
        | Ret params =>
            if Json.contains params "properties" then
              match Json.at_ params "properties" with
              | Ret props => props
              | Throw _ => JObject []
              end
            else params
        | Throw _ => JObject []
        end
      else get_param_config func_name rest
  end.

(** [find_xml_tag(..., &error)] and [find_all_xml_tags(..., &error)] on a
    slot passed by address. *)
Definition deref (e : error_ptr) (old : XmlParseError) : XmlParseError :=
  match e with Some e' => e' | None => old end.

Definition find_xml_tag_at (text tag_name : string) (start_pos : nat)
    (error : XmlParseError) : option XmlTag * XmlParseError :=
  let '(tag, e) := find_xml_tag text tag_name start_pos (Some error) in
  (tag, deref e error).

Definition find_all_xml_tags_at (text tag_name : string) (error : XmlParseError)
    : list XmlTag * XmlParseError :=
  let '(tags, e) := find_all_xml_tags text tag_name (Some error) in
  (tags, deref e error).

(** The [try] block of lines 874-882: the value stored for the parameter. *)
Definition convert_parameter (param_value param_name : string) (param_config : json)
    (function_name : string) : outcome json :=
  match convert_qwen3_param_value param_value param_name param_config function_name with
  | Ret converted_value => json_parse converted_value
  | Throw e => Throw e
  end.

(** The loop over [parameter_tags] (lines 846-893).  [base] is
    [tool_call_tag->start_pos + function_tag->start_pos]. *)
Fixpoint parameters_loop (parameter_tags : list XmlTag) (function_name : string)
    (param_config : json) (base : nat) (arguments : list (string * json))
    (param_count : nat) (error : XmlParseError)
    : list (string * json) * XmlParseError :=
  match parameter_tags with
  | [] => (arguments, error)
  | param_tag :: rest =>
      if MAX_PARAMETER_COUNT <=? param_count then
        (arguments,
         set_error error TOO_MANY_PARAMETERS base function_name
           ("Too many parameters for function '" ++ function_name ++ "': "
              ++ Str.to_string param_count ++ " (max: "
              ++ Str.to_string MAX_PARAMETER_COUNT ++ ")"))
      else if String.eqb (Tag.attribute param_tag) "" then
        parameters_loop rest function_name param_config base arguments param_count error
      else
        let param_name := trim_whitespace (Tag.attribute param_tag) in
        let param_value := Tag.content param_tag in
        if String.eqb param_name "" || (MAX_TAG_NAME_LENGTH <? length param_name) then
          parameters_loop rest function_name param_config base arguments param_count error
        else
          match convert_parameter param_value param_name param_config function_name with
          | Ret v =>
              parameters_loop rest function_name param_config base
                (Json.set_member param_name v arguments) (S param_count) error
          | Throw e =>
              parameters_loop rest function_name param_config base
                (Json.set_member param_name (JString (trim_whitespace param_value))
                   arguments)
                (S param_count)
                (set_error error PARAMETER_CONVERSION_FAILED
                   (base + Tag.start_pos param_tag)
                   (param_name ++ "=" ++ param_value)
                   ("Failed to convert parameter '" ++ param_name ++ "': " ++ what e))
          end
  end.

Definition first100 (s : string) : string :=
  substring 0 (Nat.min (length s) 100) s.

(** Lines 787-794: the text before the tool call goes to the content. *)
Definition add_content_before (content : string) (tool_call_tag : XmlTag) : M unit :=
  if (0 <? Tag.start_pos tool_call_tag) && (Tag.start_pos tool_call_tag <=? length content)
  then
    let content_before := substring 0 (Tag.start_pos tool_call_tag) content in
    if String.eqb content_before "" then ret tt else add_content content_before
  else ret tt.

(** Lines 742-907: the overload that writes the caller's error slot. *)
Definition parse_qwen3_xml_tool_call_error (content : string)
    (tools : list common_chat_tool) (error : XmlParseError) : M (bool * XmlParseError) :=
  let error := no_error in                                     (* error.clear() *)
  if (MAX_INPUT_SIZE <? N.of_nat (length content))%N then
    ret (false,
         set_error error INPUT_TOO_LARGE 0 (first100 content)
           ("XML content exceeds maximum size limit of "
              ++ Str.to_string_N MAX_INPUT_SIZE ++ " bytes"))
  else if MAX_PARAMETER_COUNT <? List.length tools then
    ret (false,
         set_error error TOO_MANY_TOOLS 0 ""
           ("Too many tools provided: " ++ Str.to_string (List.length tools)
              ++ " (max: " ++ Str.to_string MAX_PARAMETER_COUNT ++ ")"))
  else
    let valid_functions := map Tool.name tools in
    match find_xml_tag_at content "tool_call" 0 error with
    | (None, error) =>
        ret (false,
             if has_error error then error
             else set_error error INVALID_XML_STRUCTURE 0 (first100 content)
                    "No valid <tool_call> tag found in content")
    | (Some tool_call_tag, error) =>
        add_content_before content tool_call_tag ;;;
        match find_xml_tag_at (Tag.content tool_call_tag) "function" 0 error with
        | (function_tag, error) =>
            let missing_function : M (bool * XmlParseError) :=
              ret (false,
                   if has_error error then error
                   else set_error error INVALID_XML_STRUCTURE (Tag.start_pos tool_call_tag)
                          (first100 (Tag.content tool_call_tag))
                          "Invalid or missing <function> tag with attribute in <tool_call>") in
            match function_tag with
            | None => missing_function
            | Some function_tag' =>
                if String.eqb (Tag.attribute function_tag') "" then missing_function
                else
                  let function_name := trim_whitespace (Tag.attribute function_tag') in
                  let base := Tag.start_pos tool_call_tag + Tag.start_pos function_tag' in
                  if String.eqb function_name ""
                     || (MAX_TAG_NAME_LENGTH <? length function_name) then
                    ret (false,
                         set_error error INVALID_FUNCTION_NAME base function_name
                           ("Invalid function name: '" ++ function_name ++ "' (length: "
                              ++ Str.to_string (length function_name) ++ ", max: "
                              ++ Str.to_string MAX_TAG_NAME_LENGTH ++ ")"))
                  else if negb (match tools with [] => true | _ => false end)
                          && negb (existsb (String.eqb function_name) valid_functions) then
                    ret (false,
                         set_error error FUNCTION_NOT_FOUND base function_name
                           ("Function '" ++ function_name
                              ++ "' not found in available tools"))
                  else
                    let param_config := get_param_config function_name tools in
                    let '(parameter_tags, error) :=
                      find_all_xml_tags_at (Tag.content function_tag') "parameter" error in
                    if has_error error then ret (false, error)
                    else
                      let '(arguments, error) :=
                        parameters_loop parameter_tags function_name param_config base
                          [] 0 error in
                      match json_dump (JObject arguments) with
                      | Ret args_json =>
                          ok <- add_tool_call function_name "" args_json ;;
                          ret (ok, error)
                      | Throw e =>
                          ret (false,
                               set_error error JSON_SERIALIZATION_FAILED
                                 (Tag.start_pos tool_call_tag) function_name
                                 ("Failed to serialize arguments for function '"
                                    ++ function_name ++ "': " ++ what e))
                      end
            end
        end
    end.

(** Lines 734-740: the overload that keeps the error in [last_xml_error_]. *)
Definition parse_qwen3_xml_tool_call (content : string) (tools : list common_chat_tool)
    : M bool :=
  r <- parse_qwen3_xml_tool_call_error content tools no_error ;;
  modify (set_last_xml_error (snd r)) ;;;
  ret (fst r).

End Xml.

(** ** A reference instance of the collaborators

    A JSON encoder and decoder for [json], the integer reader, and a scripted
    stand-in for the partial-JSON parser.  The examples and the
    counterexamples below run the parser against this instance.

    Modelled from the spec: the JSON library, json-partial.cpp and common.cpp
    are not among the sources.  The encoder writes compact JSON, escapes
    strings, and throws on a string that is not UTF-8 (the library's strict
    error handler); the decoder accepts RFC 8259 texts.  The instance has no
    floating-point numbers: a number with a fraction or an exponent is kept as
    its lexeme, and [stod] reports no conversion. *)

Module Reference.

Definition byte (c : ascii) : N := N_of_ascii c.

Definition between (lo hi : N) (c : ascii) : bool :=
  ((lo <=? byte c) && (byte c <=? hi))%N.

Definition cont (c : ascii) : bool := between 128 191 c.

Definition second3 (c1 c2 : ascii) : bool :=
  if (byte c1 =? 224)%N then between 160 191 c2
  else if (byte c1 =? 237)%N then between 128 159 c2
  else cont c2.

Definition second4 (c1 c2 : ascii) : bool :=
  if (byte c1 =? 240)%N then between 144 191 c2
  else if (byte c1 =? 244)%N then between 128 143 c2
  else cont c2.

(** Well-formed UTF-8 (Unicode Table 3-7). *)
Fixpoint utf8_valid (s : string) : bool :=
  match s with
  | EmptyString => true
  | String c1 r1 =>
      if (byte c1 <? 128)%N then utf8_valid r1
      else
        match r1 with
        | EmptyString => false
        | String c2 r2 =>
            if between 194 223 c1 then cont c2 && utf8_valid r2
            else
              match r2 with
              | EmptyString => false
              | String c3 r3 =>
                  if between 224 239 c1 then second3 c1 c2 && cont c3 && utf8_valid r3
                  else
                    match r3 with
                    | EmptyString => false
                    | String c4 r4 =>
                        between 240 244 c1 && second4 c1 c2 && cont c3 && cont c4
                        && utf8_valid r4
                    end
              end
        end
  end.

Definition hex_digit (n : N) : ascii :=
  ascii_of_N (if (n <? 10)%N then 48 + n else 87 + n).

Definition escape_char (c : ascii) : string :=
  match byte c with
  | 8%N => "\b"
  | 9%N => "\t"
  | 10%N => "\n"
  | 12%N => "\f"
  | 13%N => "\r"
  | 34%N => "\" ++ Str.dq
  | 92%N => "\\"
  | n =>
      if (n <? 32)%N
      then "\u00" ++ String (hex_digit (n / 16)) (String (hex_digit (n mod 16)) "")
      else String c ""
  end.

Fixpoint escape (s : string) : string :=
  match s with
  | EmptyString => ""
  | String c r => escape_char c ++ escape r
  end.

Definition encode_string (s : string) : outcome string :=
  if utf8_valid s then Ret (Str.dq ++ escape s ++ Str.dq)
  else Throw (json_exception "invalid UTF-8 byte").

Fixpoint encode_items (enc : json -> outcome string) (items : list json) : outcome string :=
  match items with
  | [] => Ret ""
  | [v] => enc v
  | v :: rest =>
      match enc v, encode_items enc rest with
      | Ret a, Ret b => Ret (a ++ "," ++ b)
      | Throw e, _ => Throw e
      | _, Throw e => Throw e
      end
  end.

Fixpoint encode_members (enc : json -> outcome string) (ms : list (string * json))
    : outcome string :=
  match ms with
  | [] => Ret ""
  | (k, v) :: rest =>
      match encode_string k, enc v with
      | Ret a, Ret b =>
          match rest with
          | [] => Ret (a ++ ":" ++ b)
          | _ =>
              match encode_members enc rest with
              | Ret c => Ret (a ++ ":" ++ b ++ "," ++ c)
              | Throw e => Throw e
              end
          end
      | Throw e, _ => Throw e
      | _, Throw e => Throw e
      end
  end.

(** [j.dump()] *)
Fixpoint dump (j : json) : outcome string :=
  match j with
  | JNull => Ret "null"
  | JBool b => Ret (if b then "true" else "false")
  | JInt z => Ret (Str.to_string_Z z)
  | JFloat lexeme => Ret lexeme
  | JString s => encode_string s
  | JArray items =>
      match encode_items dump items with
      | Ret body => Ret ("[" ++ body ++ "]")
      | Throw e => Throw e
      end
  | JObject members =>
      match encode_members dump members with
      | Ret body => Ret ("{" ++ body ++ "}")
      | Throw e => Throw e
      end
  end.

(** *** The decoder *)

Definition is_ws (c : ascii) : bool :=
  match byte c with
  | 32%N | 9%N | 10%N | 13%N => true
  | _ => false
  end.

Fixpoint skip_ws (s : string) : string :=
  match s with
  | String c r => if is_ws c then skip_ws r else s
  | EmptyString => s
  end.

Definition is_digit (c : ascii) : bool := between 48 57 c.

Definition hex_value (c : ascii) : option N :=
  if between 48 57 c then Some (byte c - 48)%N
  else if between 97 102 c then Some (byte c - 87)%N
  else if between 65 70 c then Some (byte c - 55)%N
  else None.

Definition hex4 (a b c d : ascii) : option N :=
  match hex_value a, hex_value b, hex_value c, hex_value d with
  | Some x, Some y, Some z, Some w => Some (((x * 16 + y) * 16 + z) * 16 + w)%N
  | _, _, _, _ => None
  end.

(** The UTF-8 encoding of a code point. *)
Definition utf8_encode (cp : N) : string :=
  let b (n : N) := ascii_of_N n in
  (if cp <? 128 then String (b cp) ""
   else if cp <? 2048 then
     String (b (192 + cp / 64)) (String (b (128 + cp mod 64)) "")
   else if cp <? 65536 then
     String (b (224 + cp / 4096))
       (String (b (128 + (cp / 64) mod 64)) (String (b (128 + cp mod 64)) ""))
   else
     String (b (240 + cp / 262144))
       (String (b (128 + (cp / 4096) mod 64))
          (String (b (128 + (cp / 64) mod 64)) (String (b (128 + cp mod 64)) ""))))%N.

Definition push (s : string) (r : option (string * string)) : option (string * string) :=
  match r with
  | Some (decoded, rest) => Some (s ++ decoded, rest)
  | None => None
  end.

(** The body of a string literal, after its opening quote: the decoded
    string and what follows the closing quote. *)
Fixpoint scan_string (s : string) : option (string * string) :=
  match s with
  | EmptyString => None
  | String c1 r1 =>
      if (byte c1 =? 34)%N then Some ("", r1)
      else if (byte c1 =? 92)%N then
        match r1 with
        | String e r2 =>
            match byte e with
            | 34%N => push Str.dq (scan_string r2)
            | 92%N => push "\" (scan_string r2)
            | 47%N => push "/" (scan_string r2)
            | 98%N => push (String (ascii_of_N 8) "") (scan_string r2)
            | 102%N => push (String (ascii_of_N 12) "") (scan_string r2)
            | 110%N => push (String (ascii_of_N 10) "") (scan_string r2)
            | 114%N => push (String (ascii_of_N 13) "") (scan_string r2)
            | 116%N => push (String (ascii_of_N 9) "") (scan_string r2)
            | 117%N =>
                match r2 with
                | String h1 (String h2 (String h3 (String h4 r6))) =>
                    match hex4 h1 h2 h3 h4 with
                    | None => None
                    | Some hi =>
                        if ((55296 <=? hi) && (hi <=? 56319))%N then
                          match r6 with
                          | String b (String u (String l1 (String l2 (String l3 (String l4 r12))))) =>
                              if ((byte b =? 92) && (byte u =? 117))%N then
                                match hex4 l1 l2 l3 l4 with
                                | Some lo =>
                                    if ((56320 <=? lo) && (lo <=? 57343))%N then
                                      push (utf8_encode
                                              (65536 + (hi - 55296) * 1024 + (lo - 56320))%N)
                                        (scan_string r12)
                                    else None
                                | None => None
                                end
                              else None
                          | _ => None
                          end
                        else if ((56320 <=? hi) && (hi <=? 57343))%N then None
                        else push (utf8_encode hi) (scan_string r6)
                    end
                | _ => None
                end
            | _ => None
            end
        | EmptyString => None
        end
      else if (byte c1 <? 32)%N then None
      else if (byte c1 <? 128)%N then push (String c1 "") (scan_string r1)
      else
        match r1 with
        | EmptyString => None
        | String c2 r2 =>
            if between 194 223 c1 then
              if cont c2 then push (String c1 (String c2 "")) (scan_string r2) else None
            else
              match r2 with
              | EmptyString => None
              | String c3 r3 =>
                  if between 224 239 c1 then
                    if second3 c1 c2 && cont c3
                    then push (String c1 (String c2 (String c3 ""))) (scan_string r3)
                    else None
                  else
                    match r3 with
                    | EmptyString => None
                    | String c4 r4 =>
                        if between 240 244 c1 && second4 c1 c2 && cont c3 && cont c4
                        then push (String c1 (String c2 (String c3 (String c4 ""))))
                               (scan_string r4)
                        else None
                    end
              end
        end
  end.

Fixpoint span_digits (s : string) : string * string :=
  match s with
  | String c r =>
      if is_digit c then let '(d, rest) := span_digits r in (String c d, rest)
      else ("", s)
  | EmptyString => ("", s)
  end.

Fixpoint digits_value (acc : Z) (s : string) : Z :=
  match s with
  | String c r => digits_value (10 * acc + Z.of_N (byte c - 48))%Z r
  | EmptyString => acc
  end.

(** A number: [-]? int frac? exp?; an integer when it has neither fraction
    nor exponent. *)
Definition scan_number (s : string) : option (json * string) :=
  let '(neg, s1) :=
    match s with
    | String c r => if (byte c =? 45)%N then (true, r) else (false, s)
    | EmptyString => (false, s)
    end in
  let '(int_part, s2) := span_digits s1 in
  let leading_zero :=
    match int_part with
    | String c (String _ _) => (byte c =? 48)%N
    | _ => false
    end in
  if String.eqb int_part "" || leading_zero then None
  else
    let sign := if neg then "-" else "" in
    let frac :=
      match s2 with
      | String c r =>
          if (byte c =? 46)%N then
            let '(d, rest) := span_digits r in
            if String.eqb d "" then None else Some ("." ++ d, rest)
          else Some ("", s2)
      | EmptyString => Some ("", s2)
      end in
    match frac with
    | None => None
    | Some (frac_part, s3) =>
        let expo :=
          match s3 with
          | String c r =>
              if ((byte c =? 101) || (byte c =? 69))%N then
                let '(esign, r') :=
                  match r with
                  | String c' r'' =>
                      if ((byte c' =? 43) || (byte c' =? 45))%N
                      then (String c' "", r'') else ("", r)
                  | EmptyString => ("", r)
                  end in
                let '(d, rest) := span_digits r' in
                if String.eqb d "" then None
                else Some (String c "" ++ esign ++ d, rest)
              else Some ("", s3)
          | EmptyString => Some ("", s3)
          end in
        match expo with
        | None => None
        | Some (exp_part, s4) =>
            if String.eqb frac_part "" && String.eqb exp_part "" then
              let v := digits_value 0 int_part in
              Some (JInt (if neg then - v else v)%Z, s4)
            else Some (JFloat (sign ++ int_part ++ frac_part ++ exp_part), s4)
        end
    end.

Definition strip_prefix (pre s : string) : option string :=
  if prefix pre s then Some (substring (length pre) (length s - length pre) s)
  else None.

(** One JSON value at the head of [s] (leading whitespace allowed), and the
    rest.  [fuel] bounds the nesting depth and the number of elements. *)
Fixpoint parse_value (fuel : nat) (s : string) : option (json * string) :=
  match fuel with
  | 0 => None
  | S fuel' =>
      let parse_elements :=
        fix parse_elements (n : nat) (s : string) (acc : list json)
            : option (json * string) :=
          match n with
          | 0 => None
          | S n' =>
              match parse_value fuel' s with
              | None => None
              | Some (v, rest) =>
                  match skip_ws rest with
                  | String c r =>
                      if (byte c =? 44)%N then parse_elements n' r (acc ++ [v])%list
                      else if (byte c =? 93)%N then Some (JArray (acc ++ [v])%list, r)
                      else None
                  | EmptyString => None
                  end
              end
          end in
      let parse_members :=
        fix parse_members (n : nat) (s : string) (acc : list (string * json))
            : option (json * string) :=
          match n with
          | 0 => None
          | S n' =>
              match skip_ws s with
              | String q r =>
                  if (byte q =? 34)%N then
                    match scan_string r with
                    | None => None
                    | Some (key, rest) =>
                        match skip_ws rest with
                        | String colon r' =>
                            if (byte colon =? 58)%N then
                              match parse_value fuel' r' with
                              | None => None
                              | Some (v, rest') =>
                                  match skip_ws rest' with
                                  | String c r'' =>
                                      if (byte c =? 44)%N
                                      then parse_members n' r'' (Json.set_member key v acc)
                                      else if (byte c =? 125)%N
                                      then Some (JObject (Json.set_member key v acc), r'')
                                      else None
                                  | EmptyString => None
                                  end
                              end
                            else None
                        | EmptyString => None
                        end
                    end
                  else None
              | EmptyString => None
              end
          end in
      match skip_ws s with
      | EmptyString => None
      | String c r =>
          match byte c with
          | 34%N =>
              match scan_string r with
              | Some (str, rest) => Some (JString str, rest)
              | None => None
              end
          | 91%N =>
              match skip_ws r with
              | String c' r' =>
                  if (byte c' =? 93)%N then Some (JArray [], r')
                  else parse_elements (length r) r []
              | EmptyString => None
              end
          | 123%N =>
              match skip_ws r with
              | String c' r' =>
                  if (byte c' =? 125)%N then Some (JObject [], r')
                  else parse_members (length r) r []
              | EmptyString => None
              end
          | 110%N => option_map (pair JNull) (strip_prefix "null" (String c r))
          | 116%N => option_map (pair (JBool true)) (strip_prefix "true" (String c r))
          | 102%N => option_map (pair (JBool false)) (strip_prefix "false" (String c r))
          | _ => scan_number (String c r)
          end
      end
  end.

(** [json::parse(s)] *)
Definition parse (s : string) : outcome json :=
  match parse_value (S (length s)) s with
  | Some (v, rest) =>
      if String.eqb (skip_ws rest) "" then Ret v
      else Throw (json_exception "parse error: unexpected trailing input")
  | None => Throw (json_exception "parse error")
  end.

(** [std::stoll]: leading whitespace, an optional sign, decimal digits. *)
Fixpoint skip_spaces_str (s : string) : string :=
  match s with
  | String c r => if Str.isspace c then skip_spaces_str r else s
  | EmptyString => s
  end.

Definition read_stoll (s : string) : outcome Z :=
  let s0 := skip_spaces_str s in
  let '(neg, s1) :=
    match s0 with
    | String c r =>
        if (byte c =? 45)%N then (true, r)
        else if (byte c =? 43)%N then (false, r)
        else (false, s0)
    | EmptyString => (false, s0)
    end in
  let '(d, _) := span_digits s1 in
  if String.eqb d "" then Throw (invalid_argument "stoll")
  else
    let v := digits_value 0 d in
    let v := (if neg then - v else v)%Z in
    if ((v <? - 9223372036854775808) || (9223372036854775807 <? v))%Z
    then Throw (out_of_range "stoll")
    else Ret v.

(** [string_find_partial_stop]: the longest proper prefix of [stop] that ends
    [str], tried from the longest down. *)
Fixpoint partial_stop_from (k : nat) (str stop : string) : option nat :=
  match k with
  | 0 => None
  | S k' =>
      if (k <=? length str)
         && String.eqb (substring (length str - k) k str) (substring 0 k stop)
      then Some (length str - k)
      else partial_stop_from k' str stop
  end.

Definition partial_stop (str stop : string) : option nat :=
  partial_stop_from (length stop) str stop.

(** The partial-JSON parser replayed from a script: the answers it gives at
    the given inputs and offsets. *)
Definition script := list (string * nat * (nat * common_json)).

Fixpoint scripted_json_parse (sc : script) (input : string) (pos : nat)
    (healing_marker : string) : option (nat * common_json) :=
  match sc with
  | [] => None
  | (i, p, answer) :: rest =>
      if String.eqb i input && (p =? pos) then Some answer
      else scripted_json_parse rest input pos healing_marker
  end.

Definition external (sc : script) : External :=
  {| json_dump := dump;
     json_parse := parse;
     common_json_parse := scripted_json_parse sc;
     string_find_partial_stop := partial_stop;
     stoll := read_stoll;
     fp := unit;
     stod := fun _ => Throw (invalid_argument "stod");
     fp_in_float_range := fun _ => true;
     fp_to_string := fun _ => "" |}.

End Reference.

(** ** Vocabulary of the properties *)

(** [s] holds a genuine opening tag for [tag_name]: an occurrence of
    [<tag_name] that is followed by '>', '=' or whitespace. *)
Fixpoint has_tag_start (tag_name : string) (s : string) : bool :=
  match s with
  | EmptyString => false
  | String _ s' =>
      (prefix ("<" ++ tag_name) s
       && match get (length ("<" ++ tag_name)) s with
          | Some d => tag_delimiter d
          | None => false
          end)
      || has_tag_start tag_name s'
  end.

Fixpoint repeat_string (n : nat) (s : string) : string :=
  match n with
  | 0 => ""
  | S n' => s ++ repeat_string n' s
  end.

(** A tool call for function [f] with [n] well-formed parameter tags. *)
Definition tool_call_with (n : nat) : string :=
  "<tool_call><function=f>" ++ repeat_string n "<parameter=k>v</parameter>"
    ++ "</function></tool_call>".

(** The error types the tag scanner can write. *)
Definition scan_error (t : XmlParseErrorType) : Prop :=
  t = INPUT_TOO_LARGE \/ t = TAG_NAME_TOO_LONG \/ t = ATTRIBUTE_TOO_LONG
  \/ t = TOO_MANY_PARAMETERS.

Definition with_tool_calls (l : list common_chat_tool_call) (p : parser) : parser :=
  set_result (set_tool_calls l (result_ p)) p.

(** [p'] is [p] with one more tool call, of a non-empty name and empty id. *)
Definition appended_call (p p' : parser) : Prop :=
  exists function_name args_json,
    function_name <> "" /\
    tool_calls_of p' = (tool_calls_of p ++ [ToolCall.mk function_name args_json ""])%list.

(** The three fields [add_tool_call(const json &)] reads from an element. *)
Definition decodes_to (item : json) (call : common_chat_tool_call) : Prop :=
  string_field item "name" = Ret (ToolCall.name call) /\
  string_field item "id" = Ret (ToolCall.id call) /\
  string_field item "arguments" = Ret (ToolCall.arguments call).

Definition names_nonempty (l : list common_chat_tool_call) : Prop :=
  Forall (fun c => ToolCall.name c <> "") l.

(** The member functions defined in chat-parser.cpp that act on the parser,
    as operations a caller can apply. *)
Inductive operation :=
| op_add_content (content : string)
| op_add_reasoning_content (reasoning_content : string)
| op_add_tool_call (name id arguments : string)
| op_add_tool_call_json (tool_call : json)
| op_add_tool_calls (arr : json)
| op_clear_tools
| op_finish
| op_consume_spaces
| op_try_consume_literal (literal : string)
| op_try_find_literal (literal : string)
| op_consume_literal (literal : string)
| op_try_parse_reasoning (start_think end_think : string)
| op_consume_rest
| op_try_find_regex (regex : common_regex) (from : option nat) (add_prelude_to_content : bool)
| op_consume_regex (regex : common_regex)
| op_try_consume_regex (regex : common_regex)
| op_try_consume_json
| op_consume_json
| op_consume_json_with_dumped_args (args_paths content_paths : list json_path)
| op_try_consume_json_with_dumped_args (args_paths content_paths : list json_path)
| op_parse_qwen3_xml_tool_call (content : string) (tools : list common_chat_tool)
| op_parse_qwen3_xml_tool_call_error (content : string) (tools : list common_chat_tool)
    (error : XmlParseError).

(** The parser after a call, whether it returned or threw. *)
Definition after {A} (m : M A) (p : parser) : parser := snd (m p).

Definition exec {E : External} (op : operation) (p : parser) : parser :=
  match op with
  | op_add_content c => after (add_content c) p
  | op_add_reasoning_content c => after (add_reasoning_content c) p
  | op_add_tool_call n i a => after (add_tool_call n i a) p
  | op_add_tool_call_json j => after (add_tool_call_json j) p
  | op_add_tool_calls arr => after (add_tool_calls arr) p
  | op_clear_tools => after clear_tools p
  | op_finish => after finish p
  | op_consume_spaces => after consume_spaces p
  | op_try_consume_literal l => after (try_consume_literal l) p
  | op_try_find_literal l => after (try_find_literal l) p
  | op_consume_literal l => after (consume_literal l) p
  | op_try_parse_reasoning s e => after (try_parse_reasoning s e) p
  | op_consume_rest => after consume_rest p
  | op_try_find_regex r f a => after (try_find_regex r f a) p
  | op_consume_regex r => after (consume_regex r) p
  | op_try_consume_regex r => after (try_consume_regex r) p
  | op_try_consume_json => after try_consume_json p
  | op_consume_json => after consume_json p
  | op_consume_json_with_dumped_args a c => after (consume_json_with_dumped_args a c) p
  | op_try_consume_json_with_dumped_args a c =>
      after (try_consume_json_with_dumped_args a c) p
  | op_parse_qwen3_xml_tool_call c t => after (parse_qwen3_xml_tool_call c t) p
  | op_parse_qwen3_xml_tool_call_error c t e =>
      after (parse_qwen3_xml_tool_call_error c t e) p
  end.

Definition run {E : External} (ops : list operation) (p : parser) : parser :=
  fold_left (fun p op => exec op p) ops p.

(** A call that leaves the tool-call list as it is, and one that keeps every
    name in it non-empty. *)
Definition keeps_calls {A} (m : M A) : Prop :=
  forall p, tool_calls_of (after m p) = tool_calls_of p.

Definition keeps_names {A} (m : M A) : Prop :=
  forall p, names_nonempty (tool_calls_of p) -> names_nonempty (tool_calls_of (after m p)).

(** A regex for a literal pattern: a full match where the literal occurs, a
    partial match where the input ends inside it. *)
Definition literal_regex (literal : string) : common_regex :=
  mkRegex literal
    (fun input pos =>
       match Str.find input literal pos with
       | Some idx => mkMatch COMMON_REGEX_MATCH_TYPE_FULL [mkRange idx (idx + length literal)]
       | None =>
           match Reference.partial_stop input literal with
           | Some idx =>
               if pos <=? idx
               then mkMatch COMMON_REGEX_MATCH_TYPE_PARTIAL [mkRange idx (length input)]
               else mkMatch COMMON_REGEX_MATCH_TYPE_NONE []
           | None => mkMatch COMMON_REGEX_MATCH_TYPE_NONE []
           end
       end).

Definition plain_syntax : common_chat_syntax :=
  mkSyntax COMMON_REASONING_FORMAT_NONE false false.

(** The argument text the specification describes for a subtree whose
    serialisation is [text]. *)
Section Emitted.

Variable parser_is_partial : bool.
Variable partial : common_json.

(** Healing matters when the parse is partial and a marker was inserted. *)
Definition healed : bool :=
  parser_is_partial && negb (String.eqb (marker (healing_marker partial)) "").

(** Where the text is cut: at the first occurrence of [json_dump_marker]. *)
Definition cut_of (text : string) : option nat :=
  if healed then Str.find text (json_dump_marker (healing_marker partial)) 0 else None.

Definition truncated_of (text : string) : string :=
  match cut_of text with
  | Some idx => substring 0 idx text
  | None => text
  end.

(** A lone double quote is emitted as the empty string. *)
Definition emitted_of (text : string) : string :=
  if healed && String.eqb (truncated_of text) Str.dq then "" else truncated_of text.

End Emitted.

(** The tags of a scan, one after the other: each starts at or after [pos],
    the end of the one before, is not empty, ends inside [text] and bears the
    name asked for. *)
Fixpoint tags_in_order (pos : nat) (text tag_name : string) (tags : list XmlTag) : Prop :=
  match tags with
  | [] => True
  | tag :: rest =>
      pos <= Tag.start_pos tag /\
      Tag.start_pos tag < Tag.end_pos tag /\
      Tag.end_pos tag <= length text /\
      Tag.name tag = tag_name /\
      tags_in_order (Tag.end_pos tag) text tag_name rest
  end.

(** What a call may do to the parser and its message: the input, the
    partial flag, the syntax, the healing marker and the role stay; the
    content, the reasoning content and the tool calls grow at their end. *)
Definition advances (p p' : parser) : Prop :=
  input_ p' = input_ p /\
  is_partial_ p' = is_partial_ p /\
  syntax_ p' = syntax_ p /\
  healing_marker_ p' = healing_marker_ p /\
  Msg.role (result_ p') = Msg.role (result_ p) /\
  (exists c, Msg.content (result_ p') = Msg.content (result_ p) ++ c) /\
  (exists r, Msg.reasoning_content (result_ p') = Msg.reasoning_content (result_ p) ++ r) /\
  (exists l, tool_calls_of p' = (tool_calls_of p ++ l)%list).

(** The cursor moves forward and stays inside the input, if it was inside. *)
Definition forward (p p' : parser) : Prop :=
  input_ p' = input_ p /\
  (pos_ p <= length (input_ p) -> pos_ p <= pos_ p' /\ pos_ p' <= length (input_ p)).

(** The operations that place the cursor themselves; the others take its new
    place from the regex engine or the partial-JSON parser. *)
Definition places_cursor (op : operation) : bool :=
  match op with
  | op_try_find_regex _ _ _ | op_consume_regex _ | op_try_consume_regex _
  | op_try_consume_json | op_consume_json
  | op_consume_json_with_dumped_args _ _ | op_try_consume_json_with_dumped_args _ _ => false
  | _ => true
  end.

(** A call whose effect on the parser is within a relation [R], whether it
    returns or throws. *)
Definition respects (R : parser -> parser -> Prop) {A} (m : M A) : Prop :=
  forall p, R p (after m p).

(** The reasoning text goes to one field of the message: with
    [reasoning_in_content] unset the content stays as it is, with it set the
    reasoning content does. *)
Definition routed (p p' : parser) : Prop :=
  syntax_ p' = syntax_ p /\
  (reasoning_in_content (syntax_ p) = false ->
   Msg.content (result_ p') = Msg.content (result_ p)) /\
  (reasoning_in_content (syntax_ p) = true ->
   Msg.reasoning_content (result_ p') = Msg.reasoning_content (result_ p)).

(** No key and no string of [j] holds [marker]. *)
Fixpoint marker_free (marker : string) (j : json) : bool :=
  match j with
  | JString s => negb (contains_str s marker)
  | JArray items => forallb (marker_free marker) items
  | JObject members =>
      forallb (fun kv => let '(k, v) := kv in
                         negb (contains_str k marker) && marker_free marker v) members
  | _ => true
  end.

(** The keys of an object are distinct, as the JSON library keeps them. *)
Fixpoint distinct_keys (members : list (string * json)) : bool :=
  match members with
  | [] => true
  | (k, _) :: rest =>
      negb (existsb (fun kv => String.eqb (fst kv) k) rest) && distinct_keys rest
  end.

Fixpoint well_keyed (j : json) : bool :=
  match j with
  | JArray items => forallb well_keyed items
  | JObject members =>
      distinct_keys members
      && forallb (fun kv => let '(_, v) := kv in well_keyed v) members
  | _ => true
  end.

(** Neither [paths] nor anything below [path] in it. *)
Definition clear_below (paths : list json_path) (path : json_path) : Prop :=
  forall suffix, is_path_in paths (path ++ suffix)%list = false.

(** The parser with [c] added to its content and [calls] to its tool calls. *)
Definition extended (c : string) (calls : list common_chat_tool_call) (p : parser) : parser :=
  set_result
    (Msg.mk (Msg.role (result_ p)) (Msg.content (result_ p) ++ c)
       (Msg.reasoning_content (result_ p)) (tool_calls_of p ++ calls)%list) p.

(** The text in front of the first [tool_call] tag of [content], when the
    size checks of lines 749 and 758 pass and there is such a tag. *)
Definition text_before_tool_call (content : string) (tools : list common_chat_tool) : string :=
  if (MAX_INPUT_SIZE <? N.of_nat (length content))%N
     || (MAX_PARAMETER_COUNT <? List.length tools)
  then ""
  else
    match fst (find_xml_tag content "tool_call" 0 (Some no_error)) with
    | Some tool_call_tag => substring 0 (Tag.start_pos tool_call_tag) content
    | None => ""
    end.

(** [c] does not occur in [s]. *)
Fixpoint lacks (c : ascii) (s : string) : bool :=
  match s with
  | EmptyString => true
  | String x s' => negb (Ascii.eqb x c) && lacks c s'
  end.

(** An attribute value written without quotes: not empty, without '>', not
    opening with whitespace or a quote, not ending with whitespace. *)
Definition plain_attribute (a : string) : bool :=
  match a with
  | EmptyString => false
  | String first _ =>
      negb (Str.isspace first) && negb (is_quote first)
      && negb (Str.isspace (Str.at_ a (length a - 1)))
      && lacks ">"%char a
  end.

(** [body] can stand between an opening tag and [close]: the first
    occurrence of [close] in [body ++ close] is the one that follows [body]. *)
Definition closed_by (close body : string) : bool :=
  match Str.find (body ++ close) close 0 with
  | Some m => m =? length body
  | None => false
  end.

(** What follows the name in an opening tag: nothing, or '=' and the
    attribute value. *)
Definition opening_of (attr : string) : string :=
  match attr with
  | EmptyString => ""
  | _ => "=" ++ attr
  end.

(** The text of a parameter with its value, of the parameters of a call one
    after the other, of a function with its parameters, and of a tool call. *)
Definition parameter_text (kv : string * string) : string :=
  "<parameter=" ++ fst kv ++ ">" ++ snd kv ++ "</parameter>".

Fixpoint parameters_text (params : list (string * string)) : string :=
  match params with
  | [] => ""
  | kv :: rest => parameter_text kv ++ parameters_text rest
  end.

Definition function_text (function_name : string) (params : list (string * string))
    : string :=
  "<function=" ++ function_name ++ ">" ++ parameters_text params ++ "</function>".

Definition tool_call_text (function_name : string) (params : list (string * string))
    : string :=
  "<tool_call>" ++ function_text function_name params ++ "</tool_call>".

(** The tags of the parameters written from offset [pos] on. *)
Fixpoint parameter_tags (pos : nat) (params : list (string * string)) : list XmlTag :=
  match params with
  | [] => []
  | kv :: rest =>
      Tag.mk "parameter" (fst kv) (snd kv) pos (pos + length (parameter_text kv))
      :: parameter_tags (pos + length (parameter_text kv)) rest
  end.

(** A parameter whose name is a plain attribute of at most
    [MAX_TAG_NAME_LENGTH] characters and whose value holds no closing
    [parameter] tag. *)
Definition plain_parameter (kv : string * string) : bool :=
  plain_attribute (fst kv) && (length (fst kv) <=? MAX_TAG_NAME_LENGTH)
  && closed_by "</parameter>" (snd kv).

(** A tool call written by [tool_call_text] in the plain form: the function
    name is a plain attribute of at most [MAX_TAG_NAME_LENGTH] characters and
    one of the tools (if there are tools), there are fewer than
    [MAX_PARAMETER_COUNT] parameters, all plain, no closing [function] tag
    in the parameters and no closing [tool_call] tag in the function, and the
    sizes are within the limits of lines 749 and 758. *)
Definition plain_call (function_name : string) (params : list (string * string))
    (tools : list common_chat_tool) : bool :=
  plain_attribute function_name
  && (length function_name <=? MAX_TAG_NAME_LENGTH)
  && forallb plain_parameter params
  && (List.length params <? MAX_PARAMETER_COUNT)
  && closed_by "</function>" (parameters_text params)
  && closed_by "</tool_call>" (function_text function_name params)
  && (N.of_nat (length (tool_call_text function_name params)) <=? MAX_INPUT_SIZE)%N
  && (List.length tools <=? MAX_PARAMETER_COUNT)
  && match tools with
     | [] => true
     | _ => existsb (String.eqb function_name) (map Tool.name tools)
     end.

(** Text made of the characters [trim_whitespace] removes (space, tab, line
    feed, carriage return), and text that has none of them at either end. *)
Fixpoint only_trim_chars (s : string) : bool :=
  match s with
  | EmptyString => true
  | String c s' => Str.is_trim_char c && only_trim_chars s'
  end.

Definition clean_ended (s : string) : bool :=
  match s with
  | EmptyString => true
  | String first _ =>
      negb (Str.is_trim_char first)
      && negb (Str.is_trim_char (Str.at_ s (length s - 1)))
  end.

(** A member the walk of an object at [path] copies as it is: the healing
    marker is in none of its keys and strings, the keys of its objects are
    distinct, and neither its path nor a path below it is an argument path or
    a content path. *)
Definition passes_through (marker : string) (args_paths content_paths : list json_path)
    (path : json_path) (kv : string * json) : Prop :=
  contains_str (fst kv) marker = false /\
  marker_free marker (snd kv) = true /\
  well_keyed (snd kv) = true /\
  clear_below args_paths (path ++ [fst kv])%list /\
  clear_below content_paths (path ++ [fst kv])%list.

(** The member [key] of an element of a tool-call array, if the element is
    an object that has it. *)
Definition field_value (item : json) (key : string) : option json :=
  match item with
  | JObject members => Json.lookup key members
  | _ => None
  end.

(** The element has [key] and its value is not a string. *)
Definition present_non_string (item : json) (key : string) : Prop :=
  exists v, field_value item key = Some v /\ forall s, v <> JString s.

(** The text of the member [key]: the string it holds, the empty string when
    the element has no such member. *)
Definition field_text (item : json) (key : string) (s : string) : Prop :=
  match field_value item key with
  | Some (JString t) => s = t
  | Some _ => False
  | None => s = ""
  end.

(** The tool call an element stands for: its [name], [id] and [arguments]
    are strings where present. *)
Definition reads_as (item : json) (call : common_chat_tool_call) : Prop :=
  field_text item "name" (ToolCall.name call) /\
  field_text item "id" (ToolCall.id call) /\
  field_text item "arguments" (ToolCall.arguments call).

(** ** Inputs of the worked cases *)

(** A [function] tag whose attribute value opens a double quote before [add];
    the next double quote stands after the '>', around [hi] in the content. *)
Definition unclosed_quote_text : string :=
  "<function=" ++ Str.dq ++ "add >say " ++ Str.dq ++ "hi" ++ Str.dq ++ "</function>".

(** Two elements of a tool-call array: one named [a], one with an empty name. *)
Definition call_a : json := JObject [("name", JString "a"); ("arguments", JString "{}")].
Definition call_unnamed : json := JObject [("name", JString ""); ("arguments", JString "{}")].

(** A parser at the start of [input], with healing marker [797]. *)
Definition parser_on (input : string) (is_partial : bool) : parser :=
  new_parser input is_partial plain_syntax "797".

(** A document that stops after the key [a] and its colon, and the answer of
    the partial-JSON parser on it: the object closed with the marker as the
    string value of [a]. *)
Definition truncated_json : string := "{" ++ Str.dq ++ "a" ++ Str.dq ++ ":".

Definition healed_json : common_json :=
  mkCommonJson (JObject [("a", JString "797")]) (mkHealing "797" (Str.dq ++ "797")).

Definition healing_script : Reference.script := [(truncated_json, 0, (5, healed_json))].

(** The healed value of a tool call of [sum] whose document stops after the
    key [b] of its [arguments] object: the parser closes it with the marker
    as a string.  [sum_arguments] is the [arguments] member. *)
Definition sum_arguments : json := JObject [("a", JInt 1); ("b", JString "797")].

Definition healed_sum_call : common_json :=
  mkCommonJson (JObject [("name", JString "sum"); ("arguments", sum_arguments)])
    (mkHealing "797" (Str.dq ++ "797")).

(** The healed value of a tool call of [f] whose document stops inside the
    string [ab...] that holds its arguments. *)
Definition healed_string_arguments : common_json :=
  mkCommonJson (JObject [("name", JString "f"); ("arguments", JString "ab797")])
    (mkHealing "797" "797").

(** A schema that declares [q] a string, and the tools of a function [f]
    whose schema types [q] by a list rather than a string. *)
Definition string_schema : json := JObject [("q", JObject [("type", JString "string")])].

Definition dump_text (j : json) : string :=
  match Reference.dump j with
  | Ret text => text
  | Throw _ => ""
  end.

Definition list_typed_schema : json :=
  JObject [("properties",
            JObject [("q", JObject [("type", JArray [JString "string"; JString "null"])])])].

Definition list_typed_tools : list common_chat_tool :=
  [Tool.mk "f" "" (dump_text list_typed_schema)].

(** A value with a double quote and a backslash in it, and a byte sequence
    that is not UTF-8. *)
Definition quoted_value : string := "a" ++ Str.dq ++ "b\c".
Definition invalid_utf8 : string := String "255"%char "".

Definition tool_call_of_q (param_value : string) : string :=
  "<tool_call><function=f><parameter=q>" ++ param_value
    ++ "</parameter></function></tool_call>".

(** The tools of scenario 4: a function [add] with an integer [x] and a string
    [q]. *)
Definition add_tools : list common_chat_tool :=
  [Tool.mk "add" ""
     (dump_text
        (JObject [("type", JString "object");
                  ("properties",
                   JObject [("x", JObject [("type", JString "integer")]);
                            ("q", JObject [("type", JString "string")])])]))].

(** A [function] tag with whitespace after the '=' and an attribute value
    that opens a double quote which is not closed before the '>'. *)
Definition spaced_unclosed_quote_text : string :=
  "<function= " ++ Str.dq ++ "add >say hi</function>".

(** An element of a tool-call array whose [arguments] is an object. *)
Definition call_with_object_arguments : json :=
  JObject [("name", JString "b"); ("arguments", JObject [])].

(** * Properties *)

(** ** Facts about [index], [get] and [substring] *)

Lemma prefix_length s1 : forall s2, prefix s1 s2 = true -> length s1 <= length s2.
Proof.
  induction s1 as [|a s1 IH]; intros [|b s2]; simpl; try lia; try discriminate.
  destruct (ascii_dec a b); [|discriminate].
  intros H. apply IH in H. lia.
Qed.

Lemma index_ge s1 s2 : forall n m, index n s1 s2 = Some m -> n <= m.
Proof.
  induction s2 as [|b s2 IH]; intros n m; simpl.
  - destruct n; [destruct s1|]; try discriminate. intros [= <-]. lia.
  - destruct n as [|n].
    + lia.
    + destruct (index n s1 s2) as [k|] eqn:Hk; [|discriminate].
      intros [= <-]. apply IH in Hk. lia.
Qed.

Lemma index_fits s1 s2 : forall n m, index n s1 s2 = Some m -> m + length s1 <= length s2.
Proof.
  induction s2 as [|b s2 IH]; intros n m; cbn [index].
  - destruct n; [destruct s1|]; try discriminate. intros [= <-]. simpl. lia.
  - destruct n as [|n].
    + destruct (prefix s1 (String b s2)) eqn:Hp.
      * intros [= <-]. apply prefix_length in Hp. simpl in *. lia.
      * destruct (index 0 s1 s2) as [k|] eqn:Hk; [|discriminate].
        intros [= <-]. apply IH in Hk. simpl. lia.
    + destruct (index n s1 s2) as [k|] eqn:Hk; [|discriminate].
      intros [= <-]. apply IH in Hk. simpl. lia.
Qed.

Lemma substring_pointwise text p pat i :
  substring p (length pat) text = pat -> i < length pat -> get (p + i) text = get i pat.
Proof.
  intros H Hi. transitivity (get i (substring p (length pat) text)).
  - rewrite substring_correct1 by exact Hi. f_equal. lia.
  - now rewrite H.
Qed.

Lemma find_char_get text c pos m :
  Str.find_char text c pos = Some m -> get m text = Some c.
Proof.
  unfold Str.find_char. intros H. apply index_correct1 in H.
  pose proof (substring_pointwise _ _ _ 0 H) as G. simpl in G.
  rewrite Nat.add_0_r in G. apply G. lia.
Qed.

Lemma get_lt_some s : forall i, i < length s -> exists c, get i s = Some c.
Proof.
  induction s as [|a s IH]; intros i; simpl; [lia|].
  destruct i; [eauto|]. intros H. apply IH. lia.
Qed.

Lemma at_get text i c : get i text = Some c -> Str.at_ text i = c.
Proof. unfold Str.at_. now intros ->. Qed.

Lemma length_append s1 : forall s2, length (s1 ++ s2) = length s1 + length s2.
Proof. induction s1; simpl; intros; [reflexivity|now rewrite IHs1]. Qed.

Lemma length_substring s : forall n m, n + m <= length s -> length (substring n m s) = m.
Proof.
  induction s as [|a s IH]; intros n m; simpl.
  - destruct n, m; simpl; lia || reflexivity.
  - destruct n as [|n].
    + destruct m as [|m]; simpl; [reflexivity|]. intros H. rewrite IH; lia.
    + intros H. apply IH. lia.
Qed.

Lemma substring_all s : substring 0 (length s) s = s.
Proof. induction s; cbn; [reflexivity|now rewrite IHs]. Qed.

Lemma get_append_left s1 s2 i : i < length s1 -> get i (s1 ++ s2) = get i s1.
Proof. intros H. symmetry. now apply append_correct1. Qed.

Lemma get_append_right s1 s2 i : get (length s1 + i) (s1 ++ s2) = get i s2.
Proof. rewrite Nat.add_comm. symmetry. apply append_correct2. Qed.

Lemma prefix_pointwise pat : forall s,
  (forall i, i < length pat -> get i s = get i pat) -> prefix pat s = true.
Proof.
  induction pat as [|a pat IH]; intros s H; [destruct s; reflexivity|].
  destruct s as [|c s].
  - specialize (H 0 (Nat.lt_0_succ _)). discriminate.
  - simpl. pose proof (H 0 (Nat.lt_0_succ _)) as H0. simpl in H0. injection H0 as ->.
    destruct (ascii_dec a a); [|congruence].
    apply IH. intros i Hi. apply (H (S i)). simpl. lia.
Qed.

(** ** The loops have fuel to spare

    Each loop is run with a number of turns it cannot exhaust: with any
    larger number the result is the same. *)

Lemma find_loop_fuel text tag_name error : forall fuel1 fuel2 search_pos,
  length text - search_pos <= fuel1 ->
  length text - search_pos <= fuel2 ->
  find_loop fuel1 text tag_name search_pos error
  = find_loop fuel2 text tag_name search_pos error.
Proof.
  induction fuel1 as [|fuel1 IH]; intros fuel2 search_pos H1 H2.
  - destruct fuel2 as [|fuel2]; [reflexivity|]. cbn [find_loop].
    replace (search_pos <? length text) with false by (symmetry; apply Nat.ltb_ge; lia).
    reflexivity.
  - destruct fuel2 as [|fuel2]; cbn [find_loop].
    + replace (search_pos <? length text) with false by (symmetry; apply Nat.ltb_ge; lia).
      reflexivity.
    + destruct (search_pos <? length text); [|reflexivity].
      destruct (Str.find text ("<" ++ tag_name) search_pos) as [open_pos|] eqn:Hf;
        [|reflexivity].
      apply index_ge in Hf.
      destruct (_ && _); [|reflexivity].
      apply IH; lia.
Qed.

Lemma find_all_loop_fuel text tag_name : forall fuel1 fuel2 pos tag_count tags error,
  MAX_PARAMETER_COUNT - tag_count <= fuel1 ->
  MAX_PARAMETER_COUNT - tag_count <= fuel2 ->
  find_all_loop fuel1 text tag_name pos tag_count tags error
  = find_all_loop fuel2 text tag_name pos tag_count tags error.
Proof.
  induction fuel1 as [|fuel1 IH]; intros fuel2 pos tag_count tags error H1 H2.
  - destruct fuel2 as [|fuel2]; [reflexivity|]. cbn [find_all_loop].
    replace (tag_count <? MAX_PARAMETER_COUNT) with false
      by (symmetry; apply Nat.ltb_ge; lia).
    now rewrite andb_false_r.
  - destruct fuel2 as [|fuel2]; cbn [find_all_loop].
    + replace (tag_count <? MAX_PARAMETER_COUNT) with false
        by (symmetry; apply Nat.ltb_ge; lia).
      now rewrite andb_false_r.
    + destruct (_ && _); [|reflexivity].
      destruct (find_xml_tag _ _ _ _) as [[tag|] e]; [|reflexivity].
      apply IH; lia.
Qed.

Lemma consume_spaces_loop_fuel input : forall fuel1 fuel2 pos consumed,
  length input - pos <= fuel1 ->
  length input - pos <= fuel2 ->
  consume_spaces_loop fuel1 input pos consumed
  = consume_spaces_loop fuel2 input pos consumed.
Proof.
  induction fuel1 as [|fuel1 IH]; intros fuel2 pos consumed H1 H2.
  - destruct fuel2 as [|fuel2]; [reflexivity|]. cbn [consume_spaces_loop].
    replace (pos <? length input) with false by (symmetry; apply Nat.ltb_ge; lia).
    reflexivity.
  - destruct fuel2 as [|fuel2]; cbn [consume_spaces_loop].
    + replace (pos <? length input) with false by (symmetry; apply Nat.ltb_ge; lia).
      reflexivity.
    + destruct (_ && _); [|reflexivity]. apply IH; lia.
Qed.

(** ** find_xml_tag: what a returned tag looks like *)

Lemma read_tag_some text tag_name close_tag open_pos error tag e' :
  read_tag text tag_name close_tag open_pos error = (Some tag, e') ->
  exists open_end attr close_pos,
    Str.find_char text ">"%char open_pos = Some open_end /\
    extract_attribute text tag_name open_pos open_end = inl attr /\
    Str.find text close_tag (open_end + 1) = Some close_pos /\
    tag = Tag.mk tag_name attr
            (substring (open_end + 1) (close_pos - (open_end + 1)) text)
            open_pos (close_pos + length close_tag) /\
    e' = error.
Proof.
  unfold read_tag.
  destruct (Str.find_char text ">"%char open_pos) as [open_end|] eqn:Ho; [|discriminate].
  destruct (extract_attribute text tag_name open_pos open_end) as [attr|v] eqn:Ha;
    [|discriminate].
  destruct (Str.find text close_tag (open_end + 1)) as [close_pos|] eqn:Hc; [|discriminate].
  intros [= <- <-]. exists open_end, attr, close_pos. repeat split; assumption || reflexivity.
Qed.

Lemma find_loop_some fuel text tag_name : forall search_pos error tag e',
  find_loop fuel text tag_name search_pos error = (Some tag, e') ->
  exists open_pos,
    search_pos <= open_pos /\
    substring open_pos (length ("<" ++ tag_name)) text = "<" ++ tag_name /\
    read_tag text tag_name ("</" ++ tag_name ++ ">") open_pos error = (Some tag, e') /\
    (open_pos + length ("<" ++ tag_name) < length text ->
     tag_delimiter (Str.at_ text (open_pos + length ("<" ++ tag_name))) = true).
Proof.
  induction fuel as [|fuel IH]; intros search_pos error tag e'; simpl; [discriminate|].
  destruct (search_pos <? length text); [|discriminate].
  destruct (Str.find text (String "<" tag_name) search_pos) as [open_pos|] eqn:Hf;
    [|discriminate].
  pose proof (index_ge _ _ _ _ Hf) as Hge.
  destruct ((open_pos + S (length tag_name) <? length text)
            && negb (tag_delimiter (Str.at_ text (open_pos + S (length tag_name))))) eqn:Hc.
  - intros H. apply IH in H. destruct H as (op & Hle & H). exists op. split; [lia|exact H].
  - intros H. exists open_pos. split; [exact Hge|]. split.
    + exact (index_correct1 _ _ _ _ Hf).
    + split; [exact H|]. intros Hlt.
      apply Nat.ltb_lt in Hlt. rewrite Hlt in Hc. simpl in Hc.
      now apply negb_false_iff in Hc.
Qed.

Lemma find_xml_tag_some text tag_name start_pos error tag e' :
  find_xml_tag text tag_name start_pos error = (Some tag, e') ->
  exists open_pos,
    start_pos <= open_pos /\
    substring open_pos (length ("<" ++ tag_name)) text = "<" ++ tag_name /\
    read_tag text tag_name ("</" ++ tag_name ++ ">") open_pos error = (Some tag, e') /\
    (open_pos + length ("<" ++ tag_name) < length text ->
     tag_delimiter (Str.at_ text (open_pos + length ("<" ++ tag_name))) = true).
Proof.
  unfold find_xml_tag.
  destruct (MAX_INPUT_SIZE <? N.of_nat (length text))%N; [discriminate|].
  destruct (MAX_TAG_NAME_LENGTH <? length tag_name); [discriminate|].
  destruct (length text <=? start_pos); [discriminate|].
  apply find_loop_some.
Qed.

(** A returned tag starts at a genuine opening tag: [<name] followed by one
    of '>', '=' and whitespace. *)
Lemma find_loop_delimited fuel text tag_name search_pos error tag e' :
  find_loop fuel text tag_name search_pos error = (Some tag, e') ->
  search_pos <= Tag.start_pos tag /\
  substring (Tag.start_pos tag) (length ("<" ++ tag_name)) text = "<" ++ tag_name /\
  exists c,
    get (Tag.start_pos tag + length ("<" ++ tag_name)) text = Some c /\
    tag_delimiter c = true.
Proof.
  intros H. apply find_loop_some in H.
  destruct H as (open_pos & Hle & Hocc & Hread & Hdelim).
  apply read_tag_some in Hread.
  destruct Hread as (open_end & attr & close_pos & Ho & _ & Hc & -> & _).
  cbn [Tag.start_pos]. split; [exact Hle|]. split; [exact Hocc|].
  assert (Hlt : open_pos + length ("<" ++ tag_name) < length text).
  { pose proof (index_ge _ _ _ _ Ho) as G1.
    pose proof (find_char_get _ _ _ _ Ho) as G2.
    pose proof (index_ge _ _ _ _ Hc) as G3.
    pose proof (index_fits _ _ _ _ Hc) as G4.
    assert (open_end <> open_pos).
    { intros ->.
      pose proof (substring_correct1 text open_pos (length ("<" ++ tag_name)) 0) as G5.
      rewrite Hocc in G5. simpl in G5. rewrite G2 in G5.
      specialize (G5 (Nat.lt_0_succ _)). discriminate. }
    simpl in *. rewrite !length_append in G4. simpl in G4. lia. }
  destruct (get_lt_some _ _ Hlt) as [c Hc'].
  exists c. split; [exact Hc'|].
  rewrite <- (at_get _ _ _ Hc'). apply Hdelim, Hlt.
Qed.

Lemma find_xml_tag_delimited text tag_name start_pos error tag e' :
  find_xml_tag text tag_name start_pos error = (Some tag, e') ->
  start_pos <= Tag.start_pos tag /\
  substring (Tag.start_pos tag) (length ("<" ++ tag_name)) text = "<" ++ tag_name /\
  exists c,
    get (Tag.start_pos tag + length ("<" ++ tag_name)) text = Some c /\
    tag_delimiter c = true.
Proof.
  unfold find_xml_tag.
  destruct (MAX_INPUT_SIZE <? N.of_nat (length text))%N; [discriminate|].
  destruct (MAX_TAG_NAME_LENGTH <? length tag_name); [discriminate|].
  destruct (length text <=? start_pos); [discriminate|].
  apply find_loop_delimited.
Qed.

Lemma attribute_bounds_unclosed text attr_start open_end :
  is_quote (Str.at_ text attr_start) = true ->
  (forall q, Str.find_char text (Str.at_ text attr_start) (S attr_start) = Some q ->
             open_end <= q) ->
  attribute_bounds text attr_start open_end = (attr_start, open_end).
Proof.
  intros Hq Hnone. unfold attribute_bounds. rewrite Hq.
  destruct (Str.find_char text (Str.at_ text attr_start) (S attr_start)) as [q|] eqn:Hf;
    [|reflexivity].
  specialize (Hnone q eq_refl).
  destruct (q <? open_end) eqn:Hlt; [|reflexivity].
  apply Nat.ltb_lt in Hlt. lia.
Qed.

(** The fallback of lines 504-509, at the start the scanner computes. *)
Lemma unclosed_quote_attribute_scanned text tag_name start error tag e' open_end eq_pos :
  find_xml_tag text tag_name start error = (Some tag, e') ->
  Str.find_char text ">"%char (Tag.start_pos tag) = Some open_end ->
  Str.find_char text "="%char (Tag.start_pos tag + 1 + length tag_name) = Some eq_pos ->
  eq_pos < open_end ->
  let attr_start := skip_spaces (open_end - S eq_pos) text (S eq_pos) in
  attr_start < open_end ->
  is_quote (Str.at_ text attr_start) = true ->
  (forall q, Str.find_char text (Str.at_ text attr_start) (S attr_start) = Some q ->
             open_end <= q) ->
  Tag.attribute tag = substring attr_start (open_end - attr_start) text /\
  get 0 (Tag.attribute tag) = Some (Str.at_ text attr_start) /\
  length (Tag.attribute tag) = open_end - attr_start.
Proof.
  intros H Ho He Hlt attr_start Hs Hq Hnone.
  apply find_xml_tag_some in H.
  destruct H as (open_pos & _ & _ & Hread & _).
  apply read_tag_some in Hread.
  destruct Hread as (open_end' & attr & close_pos & Ho' & Ha & _ & -> & _).
  cbn [Tag.start_pos Tag.attribute] in *.
  rewrite Ho in Ho'. injection Ho' as <-.
  pose proof (index_ge _ _ _ _ He) as Hge.
  pose proof (index_fits _ _ _ _ Ho) as Hfit. simpl in Hfit.
  unfold extract_attribute in Ha.
  replace (open_pos + 1 + length tag_name <? open_end) with true in Ha
    by (symmetry; apply Nat.ltb_lt; lia).
  rewrite He in Ha.
  replace (eq_pos <? open_end) with true in Ha by (symmetry; apply Nat.ltb_lt; lia).
  fold attr_start in Ha.
  replace (attr_start <? open_end) with true in Ha by (symmetry; apply Nat.ltb_lt; lia).
  rewrite (attribute_bounds_unclosed _ _ _ Hq Hnone) in Ha.
  replace (attr_start <? open_end) with true in Ha by (symmetry; apply Nat.ltb_lt; lia).
  destruct (length (substring attr_start (open_end - attr_start) text)
            <=? MAX_ATTRIBUTE_LENGTH); [|discriminate].
  injection Ha as <-.
  split; [reflexivity|]. split.
  - pose proof (substring_correct1 text attr_start (open_end - attr_start) 0) as G.
    rewrite G by lia. simpl.
    destruct (get_lt_some text attr_start) as [c Hc]; [lia|].
    rewrite Hc. now rewrite (at_get _ _ _ Hc).
  - apply length_substring. lia.
Qed.

(** The loop of lines 491-493 stops on the first character that is not
    whitespace. *)
Lemma skip_spaces_spec text : forall n a b,
  a <= b -> b < a + n ->
  (forall i, a <= i -> i < b -> Str.isspace (Str.at_ text i) = true) ->
  Str.isspace (Str.at_ text b) = false ->
  skip_spaces n text a = b.
Proof.
  induction n as [|n IH]; intros a b Hab Hn Hsp Hb; [lia|].
  cbn [skip_spaces].
  destruct (Nat.eq_dec a b) as [->|Hne].
  - now rewrite Hb.
  - rewrite Hsp by lia. apply IH; [lia|lia| |exact Hb].
    intros i Hi1 Hi2. apply Hsp; lia.
Qed.

Lemma is_quote_not_space c : is_quote c = true -> Str.isspace c = false.
Proof.
  unfold is_quote. intros H. apply orb_prop in H.
  destruct H as [H|H]; apply Ascii.eqb_eq in H; subst; reflexivity.
Qed.

(** C10.  Let the opening tag of the returned tag end at the '>' at
    [open_end] and let its first '=' after the name stand at [eq_pos].  When
    every character between the '=' and [attr_start] is whitespace, the
    character at [attr_start] is a quote character, and that character does
    not occur again before the '>', the attribute of the tag is the text
    from the quote character (included) up to the '>': it begins with the
    quote and has every character up to the '>', trailing whitespace too. *)
Theorem unclosed_quote_attribute text tag_name start error tag e' open_end eq_pos attr_start :
  find_xml_tag text tag_name start error = (Some tag, e') ->
  Str.find_char text ">"%char (Tag.start_pos tag) = Some open_end ->
  Str.find_char text "="%char (Tag.start_pos tag + 1 + length tag_name) = Some eq_pos ->
  eq_pos < attr_start ->
  attr_start < open_end ->
  (forall i, eq_pos < i -> i < attr_start -> Str.isspace (Str.at_ text i) = true) ->
  is_quote (Str.at_ text attr_start) = true ->
  (forall q, attr_start < q -> q < open_end ->
             Str.at_ text q <> Str.at_ text attr_start) ->
  Tag.attribute tag = substring attr_start (open_end - attr_start) text /\
  get 0 (Tag.attribute tag) = Some (Str.at_ text attr_start) /\
  length (Tag.attribute tag) = open_end - attr_start /\
  (forall i, i < open_end - attr_start ->
             get i (Tag.attribute tag) = get (attr_start + i) text).
Proof.
  intros H Ho He Hlt Hs Hspaces Hq Hnone.
  assert (Hskip : skip_spaces (open_end - S eq_pos) text (S eq_pos) = attr_start).
  { apply skip_spaces_spec; [lia|lia| |now apply is_quote_not_space].
    intros i Hi1 Hi2. apply Hspaces; lia. }
  assert (Hclosed : forall q,
            Str.find_char text (Str.at_ text attr_start) (S attr_start) = Some q ->
            open_end <= q).
  { intros q Hf.
    destruct (Nat.le_gt_cases open_end q) as [Hle|Hgt]; [exact Hle|].
    exfalso. apply (Hnone q).
    - apply index_ge in Hf. lia.
    - exact Hgt.
    - apply at_get. exact (find_char_get _ _ _ _ Hf). }
  assert (Heq : eq_pos < open_end) by lia.
  pose proof (unclosed_quote_attribute_scanned text tag_name start error tag e' open_end
                eq_pos H Ho He Heq) as G.
  cbv zeta in G. rewrite Hskip in G.
  destruct (G Hs Hq Hclosed) as (G1 & G2 & G3).
  split; [exact G1|]. split; [exact G2|]. split; [exact G3|].
  intros i Hi. rewrite G1, substring_correct1 by exact Hi. f_equal. lia.
Qed.

Lemma unclosed_quote_attribute_witness :
  Tag.attribute (Tag.mk "function" (Str.dq ++ "add ") "say hi" 0 34)
  = substring 11 5 spaced_unclosed_quote_text.
Proof.
  refine (proj1 (unclosed_quote_attribute spaced_unclosed_quote_text "function" 0 None
                   (Tag.mk "function" (Str.dq ++ "add ") "say hi" 0 34)
                   None 16 9 11 _ _ _ _ _ _ _ _)).
  - vm_compute. reflexivity.
  - vm_compute. reflexivity.
  - vm_compute. reflexivity.
  - lia.
  - lia.
  - intros i H1 H2. assert (i = 10) by lia. subst i. vm_compute. reflexivity.
  - vm_compute. reflexivity.
  - intros q H1 H2.
    assert (Hq : q = 12 \/ q = 13 \/ q = 14 \/ q = 15) by lia.
    destruct Hq as [Hq|[Hq|[Hq|Hq]]]; subst q; vm_compute; discriminate.
Defined.

(** The same tag with the scanner run on it: the space after the '=' is
    passed, the quote and the space before the '>' are kept. *)
Example spaced_unclosed_quote :
  find_xml_tag spaced_unclosed_quote_text "function" 0 None
  = (Some (Tag.mk "function" (Str.dq ++ "add ") "say hi" 0 34), None).
Proof. vm_compute. reflexivity. Qed.

(** ** No false prefix match *)

Lemma has_tag_start_intro tag_name s : forall b d,
  (forall i, i < length ("<" ++ tag_name) -> get (b + i) s = get i ("<" ++ tag_name)) ->
  get (b + length ("<" ++ tag_name)) s = Some d ->
  tag_delimiter d = true ->
  has_tag_start tag_name s = true.
Proof.
  induction s as [|c s IH]; intros b d Hocc Hd Hdel.
  - destruct (b + length ("<" ++ tag_name)); discriminate.
  - cbn [has_tag_start]. destruct b as [|b].
    + rewrite (prefix_pointwise _ _ Hocc). simpl in Hd. simpl. rewrite Hd, Hdel. reflexivity.
    + rewrite (IH b d); [apply orb_true_r| |exact Hd|exact Hdel].
      intros i Hi. exact (Hocc i Hi).
Qed.

Lemma closing_tag_has_one_lt q :
  get q "</tool_call>" = Some "<"%char -> q = 0.
Proof.
  do 12 (destruct q as [|q]; [simpl; congruence|]). simpl. discriminate.
Qed.

(** In [<tool_call>body</tool_call>] the only opening tags for [tool] are
    those of [body]: without one the search loop ends with None, however
    many turns it is given. *)
Lemma no_prefix_collision body error fuel :
  has_tag_start "tool" body = false ->
  fst (find_loop fuel ("<tool_call>" ++ body ++ "</tool_call>") "tool" 0 error) = None.
Proof.
  intros Hbody.
  destruct (find_loop fuel _ "tool" 0 error) as [[tag|] e'] eqn:Hfind; [exfalso|reflexivity].
  apply find_loop_delimited in Hfind.
  destruct Hfind as (_ & Hocc & c & Hc & Hdel).
  set (p := Tag.start_pos tag) in *. clearbody p.
  pose proof (fun i => substring_pointwise _ p "<tool" i Hocc) as G.
  pose proof (G 0) as G0. pose proof (G 1) as G1. pose proof (G 2) as G2.
  pose proof (G 3) as G3. pose proof (G 4) as G4. clear G.
  cbn [length] in *. rewrite Nat.add_0_r in G0.
  specialize (G0 ltac:(lia)). specialize (G1 ltac:(lia)). specialize (G2 ltac:(lia)).
  specialize (G3 ltac:(lia)). specialize (G4 ltac:(lia)).
  do 11 (destruct p as [|p];
         [simpl in G0, Hc; try discriminate;
          injection Hc as <-; discriminate|]).
  simpl in G0, G1, G2, G3, G4, Hc.
  assert (Hcases : p + 5 < length body \/ p + 5 = length body \/ p + 4 = length body
                   \/ p + 3 = length body \/ p + 2 = length body \/ p + 1 = length body
                   \/ length body <= p) by lia.
  destruct Hcases as [H|[H|[H|[H|[H|[H|H]]]]]].
  - rewrite (has_tag_start_intro "tool" body p c) in Hbody; [discriminate| |  |exact Hdel].
    + intros i Hi. simpl in Hi.
      do 5 (destruct i as [|i];
            [rewrite ?Nat.add_0_r; rewrite <- (get_append_left body "</tool_call>") by lia;
             assumption|]).
      lia.
    + simpl. rewrite <- (get_append_left body "</tool_call>") by lia. exact Hc.
  - rewrite H, <- (Nat.add_0_r (length body)), get_append_right in Hc.
    injection Hc as <-. discriminate.
  - rewrite H, <- (Nat.add_0_r (length body)), get_append_right in G4. discriminate.
  - rewrite H, <- (Nat.add_0_r (length body)), get_append_right in G3. discriminate.
  - rewrite H, <- (Nat.add_0_r (length body)), get_append_right in G2. discriminate.
  - rewrite H, <- (Nat.add_0_r (length body)), get_append_right in G1. discriminate.
  - replace p with (length body + (p - length body)) in G0, G1 by lia.
    rewrite get_append_right in G0.
    apply closing_tag_has_one_lt in G0.
    replace (length body + (p - length body) + 1) with (length body + 1) in G1 by lia.
    rewrite get_append_right in G1. discriminate.
Qed.

(** C8, as the claim states it, fails: the text between [<tool_call>] and
    [</tool_call>] can hold a [tool] tag of its own, and the search returns
    it. *)
Lemma tool_found_inside_tool_call :
  find_xml_tag "<tool_call><tool>x</tool></tool_call>" "tool" 0 None
  = (Some (Tag.mk "tool" "" "x" 11 25), None).
Proof. vm_compute. reflexivity. Qed.

(** C8, amended.  A tag that [find_xml_tag] returns starts at an occurrence
    of [<name] whose next character is '>', '=' or whitespace; so in
    [<tool_call>body</tool_call>] a search for [tool] returns None unless
    [body] itself holds an opening [tool] tag, and that None is the answer of
    the search loop whatever number of turns it is allowed. *)
Theorem find_xml_tag_no_prefix_match :
  (forall text tag_name start_pos error tag e',
     find_xml_tag text tag_name start_pos error = (Some tag, e') ->
     substring (Tag.start_pos tag) (length ("<" ++ tag_name)) text = "<" ++ tag_name /\
     exists c,
       get (Tag.start_pos tag + length ("<" ++ tag_name)) text = Some c /\
       tag_delimiter c = true)
  /\
  (forall body error,
     has_tag_start "tool" body = false ->
     fst (find_xml_tag ("<tool_call>" ++ body ++ "</tool_call>") "tool" 0 error) = None /\
     forall fuel,
       fst (find_loop fuel ("<tool_call>" ++ body ++ "</tool_call>") "tool" 0 error) = None).
Proof.
  split.
  - intros text tag_name start_pos error tag e' H.
    apply find_xml_tag_delimited in H. tauto.
  - intros body error Hbody. split.
    + unfold find_xml_tag.
      destruct (_ <? _)%N; [reflexivity|].
      destruct (_ <? _); [reflexivity|].
      destruct (_ <=? _); [reflexivity|].
      now apply no_prefix_collision.
    + intros fuel. now apply no_prefix_collision.
Qed.

Lemma find_xml_tag_no_prefix_match_witness :
  (exists c,
     get (Tag.start_pos (Tag.mk "tool" "" "x" 11 25) + length ("<" ++ "tool"))
       "<tool_call><tool>x</tool></tool_call>" = Some c /\
     tag_delimiter c = true)
  /\
  fst (find_xml_tag ("<tool_call>" ++ "<tool_box>x</tool_box>" ++ "</tool_call>")
         "tool" 0 None) = None.
Proof.
  split.
  - refine (proj2 (proj1 find_xml_tag_no_prefix_match
                     "<tool_call><tool>x</tool></tool_call>" "tool" 0 None
                     (Tag.mk "tool" "" "x" 11 25) None _)).
    vm_compute. reflexivity.
  - refine (proj1 (proj2 find_xml_tag_no_prefix_match "<tool_box>x</tool_box>" None _)).
    vm_compute. reflexivity.
Defined.

(** ** What the tag scanner writes into the error slot *)

Lemma read_tag_error text tag_name close_tag open_pos error tag e' :
  read_tag text tag_name close_tag open_pos (Some error) = (tag, e') ->
  exists e, e' = Some e /\ (e = error \/ scan_error (type e)).
Proof.
  unfold read_tag, scan_error.
  destruct (Str.find_char _ _ _); [|intros [= <- <-]; eauto].
  destruct (extract_attribute _ _ _ _).
  - destruct (Str.find _ _ _); intros [= <- <-]; eauto.
  - intros [= <- <-]. cbn. eexists. split; [reflexivity|]. cbn. auto.
Qed.

Lemma find_loop_error fuel text tag_name : forall search_pos error tag e',
  find_loop fuel text tag_name search_pos (Some error) = (tag, e') ->
  exists e, e' = Some e /\ (e = error \/ scan_error (type e)).
Proof.
  induction fuel as [|fuel IH]; intros search_pos error tag e'; cbn [find_loop].
  - intros [= <- <-]. eauto.
  - destruct (_ <? _); [|intros [= <- <-]; eauto].
    destruct (Str.find _ _ _); [|intros [= <- <-]; eauto].
    destruct (_ && _); [apply IH|apply read_tag_error].
Qed.

Lemma find_xml_tag_error text tag_name start_pos error tag e' :
  find_xml_tag text tag_name start_pos (Some error) = (tag, e') ->
  exists e, e' = Some e /\ (e = error \/ scan_error (type e)).
Proof.
  unfold find_xml_tag, scan_error.
  destruct (_ <? _)%N.
  { intros [= <- <-]. cbn. eexists. split; [reflexivity|]. cbn. auto. }
  destruct (_ <? _).
  { intros [= <- <-]. cbn. eexists. split; [reflexivity|]. cbn. auto. }
  destruct (_ <=? _); [intros [= <- <-]; eauto|].
  apply find_loop_error.
Qed.

Lemma find_xml_tag_at_error text tag_name start_pos error tag e :
  find_xml_tag_at text tag_name start_pos error = (tag, e) ->
  e = error \/ scan_error (type e).
Proof.
  unfold find_xml_tag_at.
  destruct (find_xml_tag _ _ _ _) as [t e'] eqn:H.
  apply find_xml_tag_error in H. destruct H as (e0 & -> & H).
  intros [= <- <-]. exact H.
Qed.

Lemma find_all_loop_error fuel text tag_name :
  forall pos tag_count tags error tags' pos' count' e',
    find_all_loop fuel text tag_name pos tag_count tags (Some error)
    = (tags', pos', count', e') ->
    exists e, e' = Some e /\ (e = error \/ scan_error (type e)).
Proof.
  induction fuel as [|fuel IH]; intros pos tag_count tags error tags' pos' count' e';
    cbn [find_all_loop].
  - intros [= <- <- <- <-]. eauto.
  - destruct (_ && _); [|intros [= <- <- <- <-]; eauto].
    destruct (find_xml_tag _ _ _ _) as [[tag|] e1] eqn:H;
      apply find_xml_tag_error in H; destruct H as (e0 & -> & H).
    + intros H'. apply IH in H'. destruct H' as (e2 & -> & H').
      exists e2. split; [reflexivity|]. destruct H' as [->|H']; auto.
    + intros [= <- <- <- <-]. eauto.
Qed.

Lemma find_all_xml_tags_at_error text tag_name error tags e :
  find_all_xml_tags_at text tag_name error = (tags, e) ->
  e = error \/ scan_error (type e).
Proof.
  unfold find_all_xml_tags_at, find_all_xml_tags.
  destruct (find_all_loop _ _ _ _ _ _ _) as [[[tags' pos'] count'] e'] eqn:H.
  apply find_all_loop_error in H. destruct H as (e0 & -> & H).
  destruct (_ <=? _); intros [= <- <-]; cbn; [right; unfold scan_error; cbn; auto|exact H].
Qed.

(** ** The parameter cap *)

Lemma find_all_loop_count fuel text tag_name :
  forall pos tag_count tags error tags' pos' count' e',
    find_all_loop fuel text tag_name pos tag_count tags error = (tags', pos', count', e') ->
    tag_count <= MAX_PARAMETER_COUNT ->
    count' + List.length tags = tag_count + List.length tags' /\
    count' <= MAX_PARAMETER_COUNT.
Proof.
  induction fuel as [|fuel IH]; intros pos tag_count tags error tags' pos' count' e';
    cbn [find_all_loop].
  - intros [= <- <- <- <-]. lia.
  - destruct (_ && _) eqn:Hc; [|intros [= <- <- <- <-]; lia].
    apply andb_prop in Hc. destruct Hc as [_ Hc]. apply Nat.ltb_lt in Hc.
    destruct (find_xml_tag _ _ _ _) as [[tag|] e]; [|intros [= <- <- <- <-]; lia].
    intros H Hle. apply IH in H; [|lia].
    rewrite length_app in H. cbn in H. lia.
Qed.

(** [find_all_xml_tags] returns at most [MAX_PARAMETER_COUNT] tags, and once
    it returns that many it has written TOO_MANY_PARAMETERS: the cap is hit
    at the hundredth tag, not past it. *)
Lemma find_all_xml_tags_cap text tag_name error tags e' :
  find_all_xml_tags text tag_name (Some error) = (tags, e') ->
  List.length tags <= MAX_PARAMETER_COUNT /\
  (List.length tags = MAX_PARAMETER_COUNT ->
   exists e, e' = Some e /\ type e = TOO_MANY_PARAMETERS).
Proof.
  unfold find_all_xml_tags.
  destruct (find_all_loop _ _ _ _ _ _ _) as [[[tags' pos'] count'] e0] eqn:H.
  pose proof (find_all_loop_count _ _ _ _ _ _ _ _ _ _ _ H (Nat.le_0_l _)) as [Hc Hle].
  cbn in Hc. rewrite Nat.add_0_r in Hc. subst count'.
  apply find_all_loop_error in H. destruct H as (e & -> & _).
  destruct (MAX_PARAMETER_COUNT <=? List.length tags') eqn:Hcmp; intros [= <- <-].
  - split; [exact Hle|]. intros _. cbn. eauto.
  - apply Nat.leb_gt in Hcmp. split; [lia|]. intros Heq. lia.
Qed.

(** C1.  A function body of exactly 100 well-formed parameter tags is
    refused: [find_all_xml_tags] reports TOO_MANY_PARAMETERS once its counter
    reaches the cap, and the parser returns false without adding a tool call.
    (With 99 tags the call is accepted, see [ninety_nine_parameters].) *)
Theorem hundred_parameters_rejected {E : External} (p : parser) :
  parse_qwen3_xml_tool_call_error (tool_call_with 100) [] no_error p
  = (Ret (false,
          mkError TOO_MANY_PARAMETERS 2600 ""
            "Too many parameter tags found (max: 100)"), p).
Proof. vm_compute. reflexivity. Qed.

Example ninety_nine_parameters (p : parser) :
  @parse_qwen3_xml_tool_call_error (Reference.external []) (tool_call_with 99) [] no_error p
  = (Ret (true, no_error),
     with_tool_calls
       (tool_calls_of p
          ++ [ToolCall.mk "f" ("{" ++ Str.dq ++ "k" ++ Str.dq ++ ":" ++ Str.dq ++ "v" ++ Str.dq ++ "}") ""])%list
       p).
Proof. vm_compute. reflexivity. Qed.

Example hundred_parameter_tags_found :
  List.length (fst (find_all_xml_tags (repeat_string 100 "<parameter=k>v</parameter>")
                      "parameter" (Some no_error))) = 100.
Proof. vm_compute. reflexivity. Qed.

(** ** The message builder *)

Lemma with_tool_calls_twice l1 l2 p :
  with_tool_calls l2 (with_tool_calls l1 p) = with_tool_calls l2 p.
Proof. reflexivity. Qed.

Lemma tool_calls_of_with l p : tool_calls_of (with_tool_calls l p) = l.
Proof. reflexivity. Qed.

Lemma add_tool_call_nonempty name id arguments p :
  name <> "" ->
  add_tool_call name id arguments p
  = (Ret true, with_tool_calls (tool_calls_of p ++ [ToolCall.mk name arguments id]) p).
Proof.
  intros H. unfold add_tool_call.
  destruct (String.eqb_spec name ""); [contradiction|]. reflexivity.
Qed.

Lemma add_tool_call_empty id arguments p :
  add_tool_call "" id arguments p = (Ret false, p).
Proof. reflexivity. Qed.

Lemma add_tool_call_json_decoded item call p :
  decodes_to item call ->
  add_tool_call_json item p
  = add_tool_call (ToolCall.name call) (ToolCall.id call) (ToolCall.arguments call) p.
Proof.
  intros (Hn & Hi & Ha). unfold add_tool_call_json, bind, lift.
  now rewrite Hn, Hi, Ha.
Qed.

Lemma add_tool_calls_items_good good calls :
  Forall2 decodes_to good calls ->
  names_nonempty calls ->
  forall rest p,
    add_tool_calls_items (good ++ rest) p
    = add_tool_calls_items rest (with_tool_calls (tool_calls_of p ++ calls) p).
Proof.
  induction 1 as [|item call good calls Hd _ IH]; intros Hne rest p.
  - simpl. rewrite app_nil_r. destruct p as [? ? ? ? ? [] ?]. reflexivity.
  - inversion Hne as [|? ? Hname Hne']; subst.
    cbn [app add_tool_calls_items]. unfold bind at 1.
    rewrite (add_tool_call_json_decoded _ _ _ Hd).
    rewrite add_tool_call_nonempty by exact Hname.
    rewrite IH by exact Hne'.
    rewrite tool_calls_of_with, with_tool_calls_twice, <- app_assoc.
    destruct call. reflexivity.
Qed.

(** C3, as the claim states it, fails: the element before the unnamed one is
    appended and stays appended when the call returns false. *)
Lemma add_tool_calls_keeps_earlier_calls :
  add_tool_calls (JArray [call_a; call_unnamed]) (parser_on "" false)
  = (Ret false, with_tool_calls [ToolCall.mk "a" "{}" ""] (parser_on "" false))
  /\ tool_calls_of (with_tool_calls [ToolCall.mk "a" "{}" ""] (parser_on "" false))
     <> tool_calls_of (parser_on "" false).
Proof. split; [reflexivity|discriminate]. Qed.

(** What [add_tool_call(const json &)] reads from an element, on the
    element itself. *)
Lemma string_field_text item key s :
  string_field item key = Ret s <-> field_text item key s.
Proof.
  unfold string_field, field_text, field_value, Json.contains, Json.at_.
  destruct item as [| | | | |items|members];
    try (split; [intros [= <-]; reflexivity|intros ->; reflexivity]).
  destruct (Json.lookup key members) as [v|];
    [|split; [intros [= <-]; reflexivity|intros ->; reflexivity]].
  destruct v; cbn [Json.get_string];
    try (split; [discriminate|contradiction]).
  split; [intros [= <-]; reflexivity|intros ->; reflexivity].
Qed.

Lemma decodes_to_reads_as item call : decodes_to item call <-> reads_as item call.
Proof. unfold decodes_to, reads_as. now rewrite !string_field_text. Qed.

Lemma string_field_cases item key :
  (exists s, string_field item key = Ret s) \/
  (present_non_string item key /\ exists e, string_field item key = Throw e).
Proof.
  unfold string_field, present_non_string, field_value, Json.contains, Json.at_.
  destruct item as [| | | | |items|members]; try (left; eexists; reflexivity).
  destruct (Json.lookup key members) as [v|] eqn:Hl; [|left; eexists; reflexivity].
  destruct v; try (right; split; [eexists; split; [reflexivity|discriminate]
                                 |eexists; reflexivity]).
  left. eexists. reflexivity.
Qed.

(** An element either stands for a tool call or has a field that is not a
    string, and then [add_tool_call(const json &)] throws on it and leaves
    the parser as it was. *)
Lemma decodes_or_throws item :
  (exists call, decodes_to item call) \/
  (exists key e,
     In key ["name"; "id"; "arguments"] /\ present_non_string item key /\
     forall p, add_tool_call_json item p = (Throw e, p)).
Proof.
  unfold decodes_to, add_tool_call_json, bind, lift.
  destruct (string_field_cases item "name") as [[n Hn]|[Hp [e He]]].
  2:{ right. exists "name", e. split; [cbn; auto|]. split; [exact Hp|].
      intros p. now rewrite He. }
  destruct (string_field_cases item "id") as [[i Hi]|[Hp [e He]]].
  2:{ right. exists "id", e. split; [cbn; auto|]. split; [exact Hp|].
      intros p. now rewrite Hn, He. }
  destruct (string_field_cases item "arguments") as [[a Ha]|[Hp [e He]]].
  2:{ right. exists "arguments", e. split; [cbn; auto|]. split; [exact Hp|].
      intros p. now rewrite Hn, Hi, He. }
  left. exists (ToolCall.mk n a i). cbn. auto.
Qed.

(** How the loop over the elements ends, for every list of elements. *)
Lemma add_tool_calls_items_outcome : forall items p,
  exists good calls,
    Forall2 decodes_to good calls /\ names_nonempty calls /\
    ((items = good /\
      add_tool_calls_items items p
      = (Ret true, with_tool_calls (tool_calls_of p ++ calls) p))
     \/
     (exists bad bad_call rest,
        items = (good ++ bad :: rest)%list /\
        decodes_to bad bad_call /\ ToolCall.name bad_call = "" /\
        add_tool_calls_items items p
        = (Ret false, with_tool_calls (tool_calls_of p ++ calls) p))
     \/
     (exists bad rest key e,
        items = (good ++ bad :: rest)%list /\
        In key ["name"; "id"; "arguments"] /\ present_non_string bad key /\
        add_tool_calls_items items p
        = (Throw e, with_tool_calls (tool_calls_of p ++ calls) p))).
Proof.
  induction items as [|item items IH]; intros p.
  - exists [], []. split; [constructor|]. split; [constructor|]. left.
    split; [reflexivity|]. cbn. rewrite app_nil_r.
    destruct p as [? ? ? ? ? [] ?]. reflexivity.
  - destruct (decodes_or_throws item) as [[call Hcall]|(key & e & Hin & Hp & Hthrow)].
    + destruct (String.eqb_spec (ToolCall.name call) "") as [Hempty|Hname].
      * exists [], []. split; [constructor|]. split; [constructor|]. right. left.
        exists item, call, items. split; [reflexivity|]. split; [exact Hcall|].
        split; [exact Hempty|].
        cbn [add_tool_calls_items]. unfold bind at 1.
        rewrite (add_tool_call_json_decoded _ _ _ Hcall), Hempty. cbn.
        rewrite app_nil_r. destruct p as [? ? ? ? ? [] ?]. reflexivity.
      * assert (Hstep : add_tool_calls_items (item :: items) p
                        = add_tool_calls_items items
                            (with_tool_calls (tool_calls_of p ++ [call]) p)).
        { cbn [add_tool_calls_items]. unfold bind at 1.
          rewrite (add_tool_call_json_decoded _ _ _ Hcall).
          rewrite add_tool_call_nonempty by exact Hname. now destruct call. }
        destruct (IH (with_tool_calls (tool_calls_of p ++ [call]) p))
          as (good & calls & Hd & Hne & Hcases).
        exists (item :: good), (call :: calls).
        split; [now constructor|]. split; [now constructor|].
        rewrite Hstep.
        assert (Hp : forall l,
                  with_tool_calls
                    (tool_calls_of (with_tool_calls (tool_calls_of p ++ [call]) p) ++ l)
                    (with_tool_calls (tool_calls_of p ++ [call]) p)
                  = with_tool_calls (tool_calls_of p ++ call :: l) p).
        { intros l. rewrite tool_calls_of_with, with_tool_calls_twice, <- app_assoc.
          reflexivity. }
        rewrite Hp in Hcases.
        destruct Hcases as [(-> & Hr)|[(bad & bad_call & rest & -> & Hb & He & Hr)
                                      |(bad & rest & key & e & -> & Hin & Hpn & Hr)]].
        -- left. split; [reflexivity|exact Hr].
        -- right. left. exists bad, bad_call, rest.
           split; [reflexivity|]. split; [exact Hb|]. split; [exact He|exact Hr].
        -- right. right. exists bad, rest, key, e.
           split; [reflexivity|]. split; [exact Hin|]. split; [exact Hpn|exact Hr].
    + exists [], []. split; [constructor|]. split; [constructor|]. right. right.
      exists item, items, key, e. split; [reflexivity|]. split; [exact Hin|].
      split; [exact Hp|].
      cbn [add_tool_calls_items]. unfold bind at 1. rewrite Hthrow. cbn.
      rewrite app_nil_r. destruct p as [? ? ? ? ? [] ?]. reflexivity.
Qed.

(** C3, amended.  [add_tool_calls] over an array takes the elements in order
    and stops at the first bad one.  The elements before it are good: their
    [name], [id] and [arguments] are strings where present and their name is
    not empty; they are appended, in order, and stay appended.  When no
    element is bad, every element is appended and the call returns true.
    When the first bad element has an empty or absent name (its three fields
    being strings where present), the call returns false.  When the first
    bad element has a [name], [id] or [arguments] that is not a string, the
    call throws.  In the last two cases nothing from the bad element on is
    appended. *)
Theorem add_tool_calls_stops_at_first_bad items p :
  exists good calls,
    Forall2 reads_as good calls /\ names_nonempty calls /\
    ((items = good /\
      add_tool_calls (JArray items) p
      = (Ret true, with_tool_calls (tool_calls_of p ++ calls) p))
     \/
     (exists bad bad_call rest,
        items = (good ++ bad :: rest)%list /\
        reads_as bad bad_call /\ ToolCall.name bad_call = "" /\
        add_tool_calls (JArray items) p
        = (Ret false, with_tool_calls (tool_calls_of p ++ calls) p))
     \/
     (exists bad rest key e,
        items = (good ++ bad :: rest)%list /\
        In key ["name"; "id"; "arguments"] /\ present_non_string bad key /\
        add_tool_calls (JArray items) p
        = (Throw e, with_tool_calls (tool_calls_of p ++ calls) p))).
Proof.
  destruct (add_tool_calls_items_outcome items p) as (good & calls & Hd & Hne & Hcases).
  exists good, calls. split.
  { clear - Hd. induction Hd; constructor; [now apply decodes_to_reads_as|assumption]. }
  split; [exact Hne|].
  destruct Hcases as [H|[(bad & bad_call & rest & H1 & H2 & H3)|H]];
    [now left| |now right; right].
  right. left. exists bad, bad_call, rest.
  split; [exact H1|]. split; [now apply decodes_to_reads_as|exact H3].
Qed.

(** The three ways the call ends: every element good; an unnamed element
    after a good one; an element whose [arguments] is an object after a good
    one. *)
Example add_tool_calls_outcomes :
  add_tool_calls (JArray [call_a; call_a]) (parser_on "" false)
  = (Ret true,
     with_tool_calls [ToolCall.mk "a" "{}" ""; ToolCall.mk "a" "{}" ""] (parser_on "" false))
  /\
  add_tool_calls (JArray [call_a; call_unnamed; call_a]) (parser_on "" false)
  = (Ret false, with_tool_calls [ToolCall.mk "a" "{}" ""] (parser_on "" false))
  /\
  add_tool_calls (JArray [call_a; call_with_object_arguments; call_a]) (parser_on "" false)
  = (Throw (json_exception
              "[json.exception.type_error.302] type must be string, but is object"),
     with_tool_calls [ToolCall.mk "a" "{}" ""] (parser_on "" false)).
Proof. repeat split; vm_compute; reflexivity. Qed.

(** ** Which calls leave the tool-call list alone *)

Lemma keeps_calls_names {A} (m : M A) : keeps_calls m -> keeps_names m.
Proof. intros H p Hp. now rewrite H. Qed.

Lemma keeps_ret {A} (a : A) : keeps_calls (ret a).
Proof. intros p. reflexivity. Qed.

Lemma keeps_throw {A} e : keeps_calls (@throw A e).
Proof. intros p. reflexivity. Qed.

Lemma keeps_lift {A} (o : outcome A) : keeps_calls (lift o).
Proof. intros p. reflexivity. Qed.

Lemma keeps_gets {A} (f : parser -> A) : keeps_calls (gets f).
Proof. intros p. reflexivity. Qed.

Lemma keeps_bind {A B} (m : M A) (k : A -> M B) :
  keeps_calls m -> (forall a, keeps_calls (k a)) -> keeps_calls (bind m k).
Proof.
  intros Hm Hk p. unfold after, bind. specialize (Hm p). unfold after in Hm.
  destruct (m p) as [[a|e] p']; simpl in *.
  - rewrite <- Hm. apply Hk.
  - exact Hm.
Qed.

Lemma names_bind {A B} (m : M A) (k : A -> M B) :
  keeps_names m -> (forall a, keeps_names (k a)) -> keeps_names (bind m k).
Proof.
  intros Hm Hk p Hp. unfold after, bind. specialize (Hm p Hp). unfold after in Hm.
  destruct (m p) as [[a|e] p']; simpl in *.
  - now apply Hk.
  - exact Hm.
Qed.

Lemma keeps_set_pos pos : keeps_calls (modify (set_pos pos)).
Proof. intros p. reflexivity. Qed.

Lemma keeps_set_last_xml_error e : keeps_calls (modify (set_last_xml_error e)).
Proof. intros p. reflexivity. Qed.

Lemma keeps_add_content c : keeps_calls (add_content c).
Proof. intros p. reflexivity. Qed.

Lemma keeps_add_reasoning_content c : keeps_calls (add_reasoning_content c).
Proof. intros p. reflexivity. Qed.

Lemma keeps_if {A} (b : bool) (m1 m2 : M A) :
  keeps_calls m1 -> keeps_calls m2 -> keeps_calls (if b then m1 else m2).
Proof. now destruct b. Qed.

Create HintDb keeps.
#[local] Hint Resolve keeps_ret keeps_throw keeps_lift keeps_gets keeps_set_pos
  keeps_set_last_xml_error keeps_add_content keeps_add_reasoning_content : keeps.

Ltac keeps :=
  repeat first
    [ progress auto with keeps
    | apply keeps_bind; [|intros ?]
    | apply keeps_if
    | match goal with
      | |- keeps_calls (match ?x with _ => _ end) => destruct x
      end ].

Lemma keeps_finish : keeps_calls finish.
Proof. intros p. unfold after, finish. now destruct (_ && _). Qed.

Lemma keeps_consume_spaces : keeps_calls consume_spaces.
Proof. intros p. unfold after, consume_spaces. now destruct (consume_spaces_loop _ _ _ _). Qed.

Lemma keeps_try_consume_literal l : keeps_calls (try_consume_literal l).
Proof. intros p. unfold after, try_consume_literal. now destruct (match_literal _ _ _). Qed.

Lemma keeps_consume_literal l : keeps_calls (consume_literal l).
Proof. unfold consume_literal. pose proof (keeps_try_consume_literal l). keeps. Qed.

Lemma keeps_consume_rest : keeps_calls consume_rest.
Proof. intros p. unfold after, consume_rest. now destruct (substr _ _ _). Qed.

#[local] Hint Resolve keeps_finish keeps_consume_spaces keeps_try_consume_literal
  keeps_consume_literal keeps_consume_rest : keeps.

Section Keeps.

Context {E : External}.

Lemma keeps_pointwise {A} (m : M A) :
  (forall p, exists m' : M A, m p = m' p /\ keeps_calls m') -> keeps_calls m.
Proof.
  intros H p. destruct (H p) as (m' & Heq & Hk). unfold after. rewrite Heq. apply Hk.
Qed.

Lemma keeps_move_to pos : keeps_calls (move_to pos).
Proof. intros p. reflexivity. Qed.
#[local] Hint Resolve keeps_move_to : keeps.

Lemma keeps_try_find_literal l : keeps_calls (try_find_literal l).
Proof.
  apply keeps_pointwise. intros p. unfold try_find_literal.
  destruct (Str.find (input_ p) l (pos_ p)).
  - eexists. split; [reflexivity|]. keeps.
  - destruct (is_partial_ p); [|exists (ret None); split; [reflexivity|keeps]].
    destruct (string_find_partial_stop (input_ p) l);
      [|exists (ret None); split; [reflexivity|keeps]].
    destruct (pos_ p <=? n); [|exists (ret None); split; [reflexivity|keeps]].
    eexists. split; [reflexivity|]. keeps.
Qed.
#[local] Hint Resolve keeps_try_find_literal : keeps.

Lemma keeps_handle_reasoning s e r c : keeps_calls (handle_reasoning s e r c).
Proof. unfold handle_reasoning. keeps. Qed.
#[local] Hint Resolve keeps_handle_reasoning : keeps.

Lemma keeps_try_parse_reasoning s e : keeps_calls (try_parse_reasoning s e).
Proof. unfold try_parse_reasoning. keeps. Qed.

Lemma keeps_try_find_regex r f a : keeps_calls (try_find_regex r f a).
Proof.
  apply keeps_pointwise. intros p. unfold try_find_regex.
  destruct (match_type _) eqn:Ht.
  - exists (ret None). split; [reflexivity|keeps].
  - eexists. split; [reflexivity|]. keeps.
  - eexists. split; [reflexivity|]. keeps.
Qed.

Lemma keeps_try_consume_regex r : keeps_calls (try_consume_regex r).
Proof.
  intros p. unfold after, try_consume_regex.
  destruct (match_type _); [reflexivity| |].
  - now destruct (is_partial_ p).
  - now destruct (negb _).
Qed.
#[local] Hint Resolve keeps_try_consume_regex : keeps.

Lemma keeps_consume_regex r : keeps_calls (consume_regex r).
Proof. unfold consume_regex. keeps. Qed.

Lemma keeps_try_consume_json : keeps_calls try_consume_json.
Proof.
  intros p. unfold after, try_consume_json.
  destruct (common_json_parse _ _ _) as [[pos result]|]; [|reflexivity].
  destruct (String.eqb _ _); [reflexivity|].
  now destruct (negb _).
Qed.
#[local] Hint Resolve keeps_try_consume_json : keeps.

Lemma keeps_consume_json : keeps_calls consume_json.
Proof. unfold consume_json. keeps. Qed.

Lemma keeps_try_consume_json_with_dumped_args a c :
  keeps_calls (try_consume_json_with_dumped_args a c).
Proof.
  unfold try_consume_json_with_dumped_args. keeps.
  intros p. unfold after. now destruct (dump_args_of_partial _ _ _ _ _).
Qed.
#[local] Hint Resolve keeps_try_consume_json_with_dumped_args : keeps.

Lemma keeps_consume_json_with_dumped_args a c :
  keeps_calls (consume_json_with_dumped_args a c).
Proof. unfold consume_json_with_dumped_args. keeps. Qed.

(** ** Which calls may extend it *)

Lemma names_add_tool_call name id arguments : keeps_names (add_tool_call name id arguments).
Proof.
  intros p Hp. unfold after, add_tool_call.
  destruct (String.eqb_spec name ""); [exact Hp|].
  cbn. apply Forall_app. split; [exact Hp|]. constructor; [exact n|constructor].
Qed.

Lemma names_add_tool_call_json j : keeps_names (add_tool_call_json j).
Proof.
  unfold add_tool_call_json.
  repeat (apply names_bind; [apply keeps_calls_names, keeps_lift|intros ?]).
  apply names_add_tool_call.
Qed.

Lemma names_add_tool_calls_items items : keeps_names (add_tool_calls_items items).
Proof.
  induction items as [|item rest IH]; cbn [add_tool_calls_items].
  - apply keeps_calls_names, keeps_ret.
  - apply names_bind; [apply names_add_tool_call_json|].
    intros [|]; [exact IH|apply keeps_calls_names, keeps_ret].
Qed.

Lemma names_clear_tools : keeps_names clear_tools.
Proof. intros p _. constructor. Qed.

Lemma names_parse_qwen3_xml_tool_call_error content tools error :
  keeps_names (parse_qwen3_xml_tool_call_error content tools error).
Proof.
  unfold parse_qwen3_xml_tool_call_error.
  destruct (_ <? _)%N; [apply keeps_calls_names, keeps_ret|].
  destruct (_ <? _); [apply keeps_calls_names, keeps_ret|].
  destruct (find_xml_tag_at content "tool_call" 0 no_error) as [[tool_call_tag|] error1];
    [|apply keeps_calls_names, keeps_ret].
  apply names_bind; [apply keeps_calls_names; keeps|intros _].
  destruct (find_xml_tag_at _ "function" 0 error1) as [[function_tag|] error2];
    [|apply keeps_calls_names, keeps_ret].
  destruct (String.eqb _ ""); [apply keeps_calls_names, keeps_ret|].
  destruct (_ || _); [apply keeps_calls_names, keeps_ret|].
  destruct (_ && _); [apply keeps_calls_names, keeps_ret|].
  destruct (find_all_xml_tags_at _ _ _) as [parameter_tags error3].
  destruct (has_error error3); [apply keeps_calls_names, keeps_ret|].
  destruct (parameters_loop _ _ _ _ _ _ _) as [arguments error4].
  destruct (json_dump _); [|apply keeps_calls_names, keeps_ret].
  apply names_bind; [apply names_add_tool_call|intros ?].
  apply keeps_calls_names, keeps_ret.
Qed.

Lemma names_parse_qwen3_xml_tool_call content tools :
  keeps_names (parse_qwen3_xml_tool_call content tools).
Proof.
  unfold parse_qwen3_xml_tool_call.
  apply names_bind; [apply names_parse_qwen3_xml_tool_call_error|intros ?].
  apply keeps_calls_names. keeps.
Qed.

Lemma exec_keeps_names op p :
  names_nonempty (tool_calls_of p) -> names_nonempty (tool_calls_of (exec op p)).
Proof.
  destruct op; cbn [exec];
    first
      [ apply names_add_tool_call | apply names_add_tool_call_json
      | apply names_add_tool_calls_items | apply names_clear_tools
      | apply names_parse_qwen3_xml_tool_call | apply names_parse_qwen3_xml_tool_call_error
      | apply keeps_calls_names;
        first [ apply keeps_try_parse_reasoning | apply keeps_try_find_regex
              | apply keeps_consume_regex | apply keeps_consume_json
              | apply keeps_consume_json_with_dumped_args
              | auto with keeps ] ].
Qed.

End Keeps.

(** ** The cursor: what a failed [try_] call leaves behind *)

Section Cursor.

Context {E : External}.

Lemma try_consume_literal_false literal p p' :
  try_consume_literal literal p = (Ret false, p') -> p' = p.
Proof.
  unfold try_consume_literal. destruct (match_literal _ _ _); intros [= <-]; reflexivity.
Qed.

Lemma try_find_literal_none literal p p' :
  try_find_literal literal p = (Ret None, p') -> p' = p.
Proof.
  unfold try_find_literal, bind, lift, move_to, modify, ret.
  destruct (Str.find _ _ _).
  - destruct (substr _ _ _); discriminate.
  - destruct (is_partial_ p); [|now intros [= <-]].
    destruct (string_find_partial_stop _ _); [|now intros [= <-]].
    destruct (_ <=? _); [|now intros [= <-]].
    destruct (substr _ _ _); discriminate.
Qed.

Lemma try_consume_regex_none regex p p' :
  try_consume_regex regex p = (Ret None, p') -> p' = p.
Proof.
  unfold try_consume_regex.
  destruct (match_type _); [now intros [= <-]| |].
  - destruct (is_partial_ p); [discriminate|now intros [= <-]].
  - destruct (negb _); [now intros [= <-]|discriminate].
Qed.

Lemma try_consume_json_none p p' :
  try_consume_json p = (Ret None, p') -> p' = p.
Proof.
  unfold try_consume_json.
  destruct (common_json_parse _ _ _) as [[pos result]|]; [|now intros [= <-]].
  destruct (String.eqb _ _); [discriminate|].
  destruct (negb _); discriminate.
Qed.

Lemma try_find_regex_no_match regex from add p :
  match_type (search regex (input_ p) (match from with None => pos_ p | Some f => f end))
  = COMMON_REGEX_MATCH_TYPE_NONE ->
  try_find_regex regex from add p = (Ret None, p).
Proof. unfold try_find_regex. now intros ->. Qed.

(** C2.  On a complete input, when the regex engine reports a partial match
    [try_find_regex] returns None with the cursor at the end of that match,
    not where it stood before the call. *)
Theorem try_find_regex_none_moves_cursor regex from add p m :
  search regex (input_ p) (match from with None => pos_ p | Some f => f end) = m ->
  match_type m = COMMON_REGEX_MATCH_TYPE_PARTIAL ->
  is_partial_ p = false ->
  pos_ p <= length (input_ p) ->
  exists p',
    try_find_regex regex from add p = (Ret None, p') /\
    pos_ p' = range_end (group0 m).
Proof.
  intros Hm Ht Hp Hle. unfold try_find_regex. rewrite Hm, Ht.
  unfold bind, lift, substr.
  replace (length (input_ p) <? pos_ p) with false by (symmetry; apply Nat.ltb_ge; lia).
  unfold modify, ret, gets. cbn.
  destruct add; cbn; rewrite Hp; eexists; split; reflexivity.
Qed.

(** ** try_consume_json *)

(** C6.  When the partial-JSON parser succeeds and reports a non-empty
    healing marker, [try_consume_json] throws the partial exception for
    [JSON] on a complete input and returns the healed value on a partial
    one; the cursor is past the value either way. *)
Theorem try_consume_json_healed p pos result :
  common_json_parse (input_ p) (pos_ p) (healing_marker_ p) = Some (pos, result) ->
  marker (healing_marker result) <> "" ->
  (is_partial_ p = false ->
   try_consume_json p = (Throw (partial_exception "JSON"), set_pos pos p)) /\
  (is_partial_ p = true ->
   try_consume_json p = (Ret (Some result), set_pos pos p)).
Proof.
  intros Hparse Hmarker. unfold try_consume_json. rewrite Hparse.
  destruct (String.eqb_spec (marker (healing_marker result)) ""); [contradiction|].
  cbn. split; intros ->; reflexivity.
Qed.

End Cursor.

(** The complete input [abc<to] and the regex [<tool>]: the cursor, at 0
    before the call, is at 6 after it. *)
Lemma try_find_regex_none_moves_cursor_witness :
  exists p',
    @try_find_regex (literal_regex "<tool>") None false (parser_on "abc<to" false)
    = (Ret None, p') /\
    pos_ p' = 6.
Proof.
  refine (@try_find_regex_none_moves_cursor (literal_regex "<tool>") None false
            (parser_on "abc<to" false)
            (mkMatch COMMON_REGEX_MATCH_TYPE_PARTIAL [mkRange 3 6]) _ _ _ _).
  - vm_compute. reflexivity.
  - reflexivity.
  - reflexivity.
  - vm_compute. lia.
Defined.

Example try_find_regex_on_partial_tag :
  @try_find_regex (literal_regex "<tool>") None true (parser_on "abc<to" false)
  = (Ret None,
     set_pos 6 (set_result (Msg.mk "assistant" "abc" "" []) (parser_on "abc<to" false))).
Proof. vm_compute. reflexivity. Qed.

Lemma try_consume_json_healed_witness :
  @try_consume_json (Reference.external healing_script) (parser_on truncated_json false)
  = (Throw (partial_exception "JSON"), set_pos 5 (parser_on truncated_json false))
  /\
  @try_consume_json (Reference.external healing_script) (parser_on truncated_json true)
  = (Ret (Some healed_json), set_pos 5 (parser_on truncated_json true)).
Proof.
  split.
  - refine (proj1 (@try_consume_json_healed (Reference.external healing_script)
                     (parser_on truncated_json false) 5 healed_json _ _) _).
    + vm_compute. reflexivity.
    + vm_compute. discriminate.
    + reflexivity.
  - refine (proj2 (@try_consume_json_healed (Reference.external healing_script)
                     (parser_on truncated_json true) 5 healed_json _ _) _).
    + vm_compute. reflexivity.
    + vm_compute. discriminate.
    + reflexivity.
Defined.

(** ** The argument dumper *)

Section DumpFacts.

Context {E : External}.
Variable args_paths content_paths : list json_path.
Variable parser_is_partial : bool.
Variable parser_healing_marker : string.
Variable partial : common_json.

Local Notation "'walk'" :=
  (remove_unsupported_healings_and_dump_args args_paths content_paths parser_is_partial
     parser_healing_marker partial) (only parsing).

Lemma walk_at_arguments_path j st text :
  is_arguments_path args_paths (path st) = true ->
  json_dump j = Ret text ->
  walk j st
  = Ret (JString (emitted_of parser_is_partial partial text),
         match cut_of parser_is_partial partial text with
         | Some _ => mark_found st
         | None => st
         end).
Proof.
  intros Hpath Hdump.
  assert (Hw : walk j st = dump_arguments parser_is_partial partial j st).
  { destruct j; cbn [remove_unsupported_healings_and_dump_args]; now rewrite Hpath. }
  rewrite Hw. unfold dump_arguments, emitted_of, truncated_of, cut_of, healed.
  rewrite Hdump.
  destruct (parser_is_partial && negb (marker (healing_marker partial) =? ""))%string;
    [|reflexivity].
  destruct (Str.find text _ 0); reflexivity.
Qed.

Lemma cut_is_first_occurrence text idx :
  cut_of parser_is_partial partial text = Some idx ->
  let m := json_dump_marker (healing_marker partial) in
  substring idx (length m) text = m /\
  forall p, p < idx -> substring p (length m) text <> m.
Proof.
  unfold cut_of, Str.find. intros H.
  destruct (healed parser_is_partial partial); [|discriminate]. split.
  - exact (index_correct1 _ _ _ _ H).
  - intros p Hp. apply (index_correct2 _ _ _ _ H); lia.
Qed.

Lemma string_member_copied key s ms obj st :
  contains_str key parser_healing_marker = false ->
  contains_str s parser_healing_marker = false ->
  members_loop content_paths parser_healing_marker partial walk
    ((key, JString s) :: ms) obj st
  = members_loop content_paths parser_healing_marker partial walk
      ms (Json.set_member key (JString s) obj) (pop_back (push_back key st)).
Proof. intros Hk Hs. cbn [members_loop]. now rewrite Hk, Hs. Qed.

Lemma string_member_dropped key s ms obj st :
  contains_str key parser_healing_marker = false ->
  contains_str s parser_healing_marker = true ->
  is_content_path content_paths (path st ++ [key])%list = false ->
  members_loop content_paths parser_healing_marker partial walk
    ((key, JString s) :: ms) obj st
  = Ret (JObject obj, mark_found (push_back key st)).
Proof.
  intros Hk Hs Hc. cbn [members_loop]. rewrite Hk, Hs. cbn. now rewrite Hc.
Qed.

Lemma dump_result_is_found_flag r :
  dump_args_of_partial args_paths content_paths parser_is_partial parser_healing_marker
    partial = Ret r ->
  (marker (healing_marker partial) = "" /\
   (args_paths = [] \/ is_arguments_path args_paths [] = true) /\
   is_partial r = false)
  \/
  (exists cleaned st,
     walk (json_value partial) (mkDump [] false) = Ret (cleaned, st) /\
     r = mkConsumed cleaned (found_healing_marker st)).
Proof.
  unfold dump_args_of_partial.
  destruct (String.eqb_spec (marker (healing_marker partial)) "") as [Hm|Hm]; cbn [negb andb].
  - destruct args_paths as [|a l] eqn:Ha.
    + intros [= <-]. left. auto.
    + destruct (is_arguments_path (a :: l) []) eqn:Hr.
      * destruct (json_dump _); [|discriminate]. intros [= <-]. left. auto.
      * destruct (remove_unsupported_healings_and_dump_args _ _ _ _ _ _ _)
          as [[cleaned st]|] eqn:Hw; [|discriminate].
        intros [= <-]. right. eauto.
  - destruct (remove_unsupported_healings_and_dump_args _ _ _ _ _ _ _)
      as [[cleaned st]|] eqn:Hw; [|discriminate].
    intros [= <-]. right. eauto.
Qed.

End DumpFacts.


Example partial_json_healing :
  @dump_args_of_partial (Reference.external []) [["arguments"]] [] true "797" healed_sum_call
  = Ret (mkConsumed
           (JObject [("name", JString "sum");
                     ("arguments",
                      JString ("{" ++ Str.dq ++ "a" ++ Str.dq ++ ":1," ++ Str.dq ++ "b"
                                 ++ Str.dq ++ ":"))])
           true).
Proof. vm_compute. reflexivity. Qed.

(** ** Value coercion *)

Lemma find_last_not_of_last pred s : forall c,
  get (length s - 1) s = Some c -> pred c = false ->
  Str.find_last_not_of pred s = Some (length s - 1).
Proof.
  induction s as [|a s IH]; intros c; [discriminate|].
  cbn [length Str.find_last_not_of]. rewrite Nat.sub_succ, Nat.sub_0_r.
  destruct s as [|b s].
  - cbn. intros [= ->] ->. reflexivity.
  - cbn [get length]. intros Hc Hp.
    rewrite (IH c); cbn [length]; rewrite ?Nat.sub_succ, ?Nat.sub_0_r; auto.
Qed.

(** A string that neither starts nor ends with a trimmed character is left
    alone by [trim_whitespace]. *)
Lemma trim_whitespace_fixed s first last :
  get 0 s = Some first -> Str.is_trim_char first = false ->
  get (length s - 1) s = Some last -> Str.is_trim_char last = false ->
  trim_whitespace s = s.
Proof.
  intros Hf Hft Hl Hlt. unfold trim_whitespace.
  destruct s as [|a s]; [discriminate|].
  cbn in Hf. injection Hf as ->.
  cbn [Str.find_first_not_of]. rewrite Hft.
  rewrite (find_last_not_of_last _ _ _ Hl Hlt).
  replace (length (String first s) - 1 - 0 + 1) with (length (String first s))
    by (cbn; lia).
  apply substring_all.
Qed.

Section Coercion.

Context {E : External}.

Lemma parameters_loop_stores param_tag rest function_name param_config base arguments
    param_count error v :
  let param_name := trim_whitespace (Tag.attribute param_tag) in
  param_count < MAX_PARAMETER_COUNT ->
  Tag.attribute param_tag <> "" ->
  param_name <> "" ->
  length param_name <= MAX_TAG_NAME_LENGTH ->
  convert_parameter (Tag.content param_tag) param_name param_config function_name = Ret v ->
  parameters_loop (param_tag :: rest) function_name param_config base arguments
    param_count error
  = parameters_loop rest function_name param_config base
      (Json.set_member param_name v arguments) (S param_count) error.
Proof.
  intros param_name Hcount Hattr Hname Hlen Hconv.
  cbn [parameters_loop].
  replace (MAX_PARAMETER_COUNT <=? param_count) with false
    by (symmetry; apply Nat.leb_gt; exact Hcount).
  destruct (String.eqb_spec (Tag.attribute param_tag) ""); [contradiction|].
  fold param_name.
  destruct (String.eqb_spec param_name ""); [contradiction|].
  replace (MAX_TAG_NAME_LENGTH <? length param_name) with false
    by (symmetry; apply Nat.ltb_ge; exact Hlen).
  cbn [orb]. rewrite Hconv. reflexivity.
Qed.

End Coercion.


(** ** The XML tool-call parser: how a call ends *)

Section Outcome.

Context {E : External}.

(** What the parameter loop can leave in the error slot. *)
Lemma parameters_loop_error tags function_name param_config base :
  forall arguments param_count error arguments' e,
    parameters_loop tags function_name param_config base arguments param_count error
    = (arguments', e) ->
    e = error \/ type e = PARAMETER_CONVERSION_FAILED \/ type e = TOO_MANY_PARAMETERS.
Proof.
  induction tags as [|tag rest IH]; intros arguments param_count error arguments' e;
    cbn [parameters_loop].
  - intros [= <- <-]. auto.
  - destruct (_ <=? _); [intros [= <- <-]; cbn; auto|].
    destruct (String.eqb _ ""); [apply IH|].
    destruct (_ || _); [apply IH|].
    destruct (convert_parameter _ _ _ _); [apply IH|].
    intros H. apply IH in H. cbn in H. destruct H as [->|H]; cbn; auto.
Qed.

Lemma parameters_loop_conversion_failure param_tag rest function_name param_config base
    arguments param_count error e :
  let param_name := trim_whitespace (Tag.attribute param_tag) in
  let param_value := Tag.content param_tag in
  param_count < MAX_PARAMETER_COUNT ->
  Tag.attribute param_tag <> "" ->
  param_name <> "" ->
  length param_name <= MAX_TAG_NAME_LENGTH ->
  convert_parameter param_value param_name param_config function_name = Throw e ->
  parameters_loop (param_tag :: rest) function_name param_config base arguments
    param_count error
  = parameters_loop rest function_name param_config base
      (Json.set_member param_name (JString (trim_whitespace param_value)) arguments)
      (S param_count)
      (mkError PARAMETER_CONVERSION_FAILED (base + Tag.start_pos param_tag)
         (param_name ++ "=" ++ param_value)
         ("Failed to convert parameter '" ++ param_name ++ "': " ++ what e)).
Proof.
  intros param_name param_value Hcount Hattr Hname Hlen Hconv.
  cbn [parameters_loop].
  replace (MAX_PARAMETER_COUNT <=? param_count) with false
    by (symmetry; apply Nat.leb_gt; exact Hcount).
  destruct (String.eqb_spec (Tag.attribute param_tag) ""); [contradiction|].
  fold param_name param_value.
  destruct (String.eqb_spec param_name ""); [contradiction|].
  replace (MAX_TAG_NAME_LENGTH <? length param_name) with false
    by (symmetry; apply Nat.ltb_ge; exact Hlen).
  cbn [orb]. rewrite Hconv. reflexivity.
Qed.

Lemma add_content_before_ret content tool_call_tag p :
  exists p1,
    add_content_before content tool_call_tag p = (Ret tt, p1) /\
    tool_calls_of p1 = tool_calls_of p.
Proof.
  unfold add_content_before. destruct (_ && _); [|eexists; split; reflexivity].
  destruct (String.eqb _ ""); eexists; split; reflexivity.
Qed.

(** The types the error slot can hold when the parser returns true. *)
Definition soft_error (t : XmlParseErrorType) : Prop :=
  t = NONE \/ t = PARAMETER_CONVERSION_FAILED \/ t = TOO_MANY_PARAMETERS.

(** The parser never throws.  It returns false on a terminal failure, with
    the error set to something other than a conversion failure and the tool
    calls as they were; it returns true with one tool call added. *)
Lemma parse_qwen3_xml_tool_call_error_outcome content tools error p :
  exists b e' p',
    parse_qwen3_xml_tool_call_error content tools error p = (Ret (b, e'), p') /\
    ((b = false /\ has_error e' = true /\ type e' <> PARAMETER_CONVERSION_FAILED
      /\ tool_calls_of p' = tool_calls_of p)
     \/
     (b = true /\ soft_error (type e') /\ appended_call p p')).
Proof.
  unfold parse_qwen3_xml_tool_call_error.
  assert (Hscan : forall e, e = no_error \/ scan_error (type e) ->
                    type e <> PARAMETER_CONVERSION_FAILED).
  { intros e [->|[H|[H|[H|H]]]]; cbn; congruence. }
  assert (Hterm : forall b e q, tool_calls_of q = tool_calls_of p ->
            b = false -> has_error e = true -> type e <> PARAMETER_CONVERSION_FAILED ->
            exists b' e' p', (@ret (bool * XmlParseError) (b, e)) q = (Ret (b', e'), p') /\
              ((b' = false /\ has_error e' = true /\ type e' <> PARAMETER_CONVERSION_FAILED
                /\ tool_calls_of p' = tool_calls_of p)
               \/ (b' = true /\ soft_error (type e') /\ appended_call p p'))).
  { intros b e q Hq -> He Ht. exists false, e, q. split; [reflexivity|]. left. auto. }
  destruct (_ <? _)%N; [apply Hterm; cbn; congruence|].
  destruct (_ <? _); [apply Hterm; cbn; congruence|].
  destruct (find_xml_tag_at content "tool_call" 0 no_error) as [[tool_call_tag|] error1] eqn:H1;
    apply find_xml_tag_at_error in H1.
  2:{ apply Hterm; try reflexivity.
      - destruct (has_error error1) eqn:Hh; [exact Hh|reflexivity].
      - destruct (has_error error1); [now apply Hscan|cbn; congruence]. }
  unfold bind at 1.
  destruct (add_content_before_ret content tool_call_tag p) as (p1 & -> & Hp1).
  destruct (find_xml_tag_at _ "function" 0 error1) as [[function_tag|] error2] eqn:H2;
    apply find_xml_tag_at_error in H2.
  2:{ apply Hterm; try assumption; try reflexivity.
      - destruct (has_error error2) eqn:Hh; [exact Hh|reflexivity].
      - destruct (has_error error2); [|cbn; congruence].
        apply Hscan. destruct H2 as [->|H2]; auto. }
  assert (Hs2 : type error2 <> PARAMETER_CONVERSION_FAILED).
  { apply Hscan. destruct H2 as [->|H2]; auto. }
  destruct (String.eqb _ "").
  { apply Hterm; try assumption; try reflexivity.
    - destruct (has_error error2) eqn:Hh; [exact Hh|reflexivity].
    - destruct (has_error error2); [assumption|cbn; congruence]. }
  destruct (String.eqb_spec (trim_whitespace (Tag.attribute function_tag)) "") as [|Hname];
    [apply Hterm; cbn; congruence|].
  cbn [orb].
  destruct (_ <? _); [apply Hterm; cbn; congruence|].
  destruct (_ && _); [apply Hterm; cbn; congruence|].
  destruct (find_all_xml_tags_at _ _ _) as [parameter_tags error3] eqn:H3.
  apply find_all_xml_tags_at_error in H3.
  destruct (has_error error3) eqn:Hh3.
  { apply Hterm; try assumption; try reflexivity.
    apply Hscan. destruct H3 as [->|H3]; [|auto]. destruct H2 as [->|H2]; auto. }
  destruct (parameters_loop _ _ _ _ _ _ _) as [arguments error4] eqn:H4.
  apply parameters_loop_error in H4.
  destruct (json_dump _) as [args_json|e].
  - unfold bind. rewrite add_tool_call_nonempty by exact Hname.
    eexists _, _, _. split; [reflexivity|]. right. split; [reflexivity|]. split.
    + unfold soft_error. destruct H4 as [->|[H4|H4]]; auto.
      destruct error3 as [[] ? ? ?]; cbn in *; auto; discriminate.
    + exists (trim_whitespace (Tag.attribute function_tag)), args_json.
      split; [exact Hname|]. cbn. now rewrite Hp1.
  - apply Hterm; cbn; congruence.
Qed.


End Outcome.


(** A schema that types [q] by a list makes the coercion throw; the raw
    value is kept and the call succeeds. *)
Example list_typed_parameter :
  @parse_qwen3_xml_tool_call_error (Reference.external []) (tool_call_of_q " v ")
    list_typed_tools no_error (parser_on "" false)
  = (Ret (true,
          mkError PARAMETER_CONVERSION_FAILED 0 "q= v "
            "Failed to convert parameter 'q': [json.exception.type_error.302] type must be string, but is array"),
     with_tool_calls
       [ToolCall.mk "f" ("{" ++ Str.dq ++ "q" ++ Str.dq ++ ":" ++ Str.dq ++ "v" ++ Str.dq ++ "}") ""]
       (parser_on "" false)).
Proof. vm_compute. reflexivity. Qed.

(** ** The reference encoder and decoder agree on strings *)

Lemma append_assoc (a b c : string) : (a ++ b) ++ c = a ++ (b ++ c).
Proof. induction a; cbn; [reflexivity|now rewrite IHa]. Qed.

Lemma scan_string_low c tail :
  (Reference.byte c <? 128)%N = true ->
  Reference.scan_string (Reference.escape_char c ++ tail)
  = Reference.push (String c "") (Reference.scan_string tail).
Proof.
  intros H. destruct c as [b0 b1 b2 b3 b4 b5 b6 b7].
  destruct b7; [vm_compute in H; destruct b0, b1, b2, b3, b4, b5, b6; discriminate H|].
  clear H. destruct b0, b1, b2, b3, b4, b5, b6; reflexivity.
Qed.

Lemma high_byte c :
  (128 <=? Reference.byte c)%N = true ->
  Reference.escape_char c = String c ""
  /\ (Reference.byte c =? 34)%N = false
  /\ (Reference.byte c =? 92)%N = false
  /\ (Reference.byte c <? 32)%N = false
  /\ (Reference.byte c <? 128)%N = false.
Proof.
  intros H. split.
  - destruct c as [b0 b1 b2 b3 b4 b5 b6 b7].
    destruct b7; [|destruct b0, b1, b2, b3, b4, b5, b6; discriminate H].
    destruct b0, b1, b2, b3, b4, b5, b6; reflexivity.
  - apply N.leb_le in H.
    repeat split; first [apply N.eqb_neq; lia | apply N.ltb_ge; lia].
Qed.

Lemma between_high lo hi c :
  (128 <= lo)%N -> Reference.between lo hi c = true -> (128 <=? Reference.byte c)%N = true.
Proof.
  unfold Reference.between. intros Hlo H. apply andb_prop in H. destruct H as [H _].
  apply N.leb_le in H. apply N.leb_le. lia.
Qed.

Lemma cont_high c : Reference.cont c = true -> (128 <=? Reference.byte c)%N = true.
Proof. apply between_high. lia. Qed.

Lemma second3_high c1 c2 :
  Reference.second3 c1 c2 = true -> (128 <=? Reference.byte c2)%N = true.
Proof.
  unfold Reference.second3, Reference.cont.
  destruct (_ =? 224)%N; [apply between_high; lia|].
  destruct (_ =? 237)%N; apply between_high; lia.
Qed.

Lemma second4_high c1 c2 :
  Reference.second4 c1 c2 = true -> (128 <=? Reference.byte c2)%N = true.
Proof.
  unfold Reference.second4, Reference.cont.
  destruct (_ =? 240)%N; [apply between_high; lia|].
  destruct (_ =? 244)%N; apply between_high; lia.
Qed.

Ltac high_facts H :=
  let E := fresh "E" in
  let Q := fresh "Q" in
  let B := fresh "B" in
  let C := fresh "C" in
  let L := fresh "L" in
  destruct (high_byte _ H) as (E & Q & B & C & L).

Lemma scan_string_escape n : forall s rest,
  length s <= n ->
  Reference.utf8_valid s = true ->
  Reference.scan_string (Reference.escape s ++ String Str.dquote rest) = Some (s, rest).
Proof.
  induction n as [|n IH]; intros s rest Hlen Hvalid.
  { destruct s; [reflexivity|cbn in Hlen; lia]. }
  destruct s as [|c1 r1]; [reflexivity|].
  cbn [Reference.escape]. rewrite append_assoc.
  cbn [Reference.utf8_valid] in Hvalid. cbn [length] in Hlen.
  destruct (Reference.byte c1 <? 128)%N eqn:Hlow.
  { rewrite (scan_string_low _ _ Hlow), IH by (assumption || lia). reflexivity. }
  assert (H1 : (128 <=? Reference.byte c1)%N = true).
  { apply N.leb_le. apply N.ltb_ge in Hlow. exact Hlow. }
  high_facts H1.
  destruct r1 as [|c2 r2]; [discriminate|].
  cbn [Reference.escape length] in *. rewrite E. cbn [append].
  destruct (Reference.between 194 223 c1) eqn:Hb2.
  { apply andb_prop in Hvalid. destruct Hvalid as [Hc2 Hv].
    high_facts (cont_high _ Hc2). rewrite append_assoc, E0. cbn [append Reference.scan_string].
    rewrite Q, B, C, L, Hb2, Hc2, IH by (assumption || lia). reflexivity. }
  destruct r2 as [|c3 r3]; [discriminate|].
  cbn [Reference.escape length] in *.
  destruct (Reference.between 224 239 c1) eqn:Hb3.
  { apply andb_prop in Hvalid. destruct Hvalid as [Hv' Hv].
    apply andb_prop in Hv'. destruct Hv' as [Hs Hc3].
    high_facts (second3_high _ _ Hs). high_facts (cont_high _ Hc3).
    rewrite !append_assoc, E0, E1. cbn [append Reference.scan_string].
    rewrite Q, B, C, L, Hb2, Hb3, Hs, Hc3, IH by (assumption || lia). reflexivity. }
  destruct r3 as [|c4 r4]; [discriminate|].
  cbn [Reference.escape length] in *.
  apply andb_prop in Hvalid. destruct Hvalid as [Hv' Hv].
  apply andb_prop in Hv'. destruct Hv' as [Hv' Hc4].
  apply andb_prop in Hv'. destruct Hv' as [Hv' Hc3].
  apply andb_prop in Hv'. destruct Hv' as [Hb4 Hs].
  high_facts (second4_high _ _ Hs). high_facts (cont_high _ Hc3).
  high_facts (cont_high _ Hc4).
  rewrite !append_assoc, E0, E1, E2. cbn [append Reference.scan_string].
  rewrite Q, B, C, L, Hb2, Hb3, Hb4, Hs, Hc3, Hc4, IH by (assumption || lia). reflexivity.
Qed.

(** What the reference encoder writes for a string, the reference decoder
    reads back as that string. *)
Lemma parse_dump_string s text :
  Reference.dump (JString s) = Ret text -> Reference.parse text = Ret (JString s).
Proof.
  cbn [Reference.dump]. unfold Reference.encode_string.
  destruct (Reference.utf8_valid s) eqn:Hv; [|discriminate].
  intros [= <-]. unfold Reference.parse, Str.dq. cbn [append Reference.parse_value].
  cbn [Reference.skip_ws]. 
  change (Reference.is_ws Str.dquote) with false. cbv iota.
  change (Reference.byte Str.dquote) with 34%N. cbv iota.
  rewrite (scan_string_escape _ _ _ (Nat.le_refl _) Hv). reflexivity.
Qed.

Lemma string_parameter_in_reference sc VALUE KEY param_config func_name :
  Json.contains param_config KEY = true ->
  declared_type param_config KEY = Ret "string" ->
  trim_whitespace VALUE <> "null" ->
  Reference.utf8_valid (trim_whitespace VALUE) = true ->
  @convert_parameter (Reference.external sc) VALUE KEY param_config func_name
  = Ret (JString (trim_whitespace VALUE)).
Proof.
  intros Hc Ht Hnull Hv.
  unfold convert_parameter, convert_qwen3_param_value.
  destruct (String.eqb_spec (trim_whitespace VALUE) "null"); [contradiction|].
  rewrite Hc, Ht. cbn [one_of String.eqb Ascii.eqb Bool.eqb orb].
  unfold dump_string. cbn [json_dump json_parse Reference.external].
  destruct (Reference.dump (JString (trim_whitespace VALUE))) as [text|e] eqn:Hd.
  - now apply parse_dump_string.
  - cbn [Reference.dump] in Hd. unfold Reference.encode_string in Hd.
    rewrite Hv in Hd. discriminate.
Qed.

(** ** The scenarios of the specification *)

Example trim_whitespace_inner :
  trim_whitespace (" a b" ++ String "010"%char " ") = "a b".
Proof. vm_compute. reflexivity. Qed.

Example attribute_forms :
  map (fun text => option_map Tag.attribute (fst (find_xml_tag text "function" 0 None)))
    ["<function=add>x</function>";
     "<function = add >x</function>";
     "<function=" ++ Str.dq ++ "add" ++ Str.dq ++ ">x</function>";
     "<function = 'a d' >x</function>"]
  = [Some "add"; Some "add"; Some "add"; Some "a d"].
Proof. vm_compute. reflexivity. Qed.

Example xml_tool_call :
  @parse_qwen3_xml_tool_call (Reference.external [])
    ("ok <tool_call><function=add><parameter=x>3</parameter><parameter=q>He said "
       ++ Str.dq ++ "hi" ++ Str.dq ++ "</parameter></function></tool_call>")
    add_tools (parser_on "" false)
  = (Ret true,
     set_result
       (Msg.mk "assistant" "ok " ""
          [ToolCall.mk "add"
             ("{" ++ Str.dq ++ "x" ++ Str.dq ++ ":3," ++ Str.dq ++ "q" ++ Str.dq ++ ":"
                ++ Str.dq ++ "He said \" ++ Str.dq ++ "hi\" ++ Str.dq ++ Str.dq ++ "}")
             ""])
       (parser_on "" false)).
Proof. vm_compute. reflexivity. Qed.

Example unknown_function :
  @parse_qwen3_xml_tool_call (Reference.external [])
    "ok <tool_call><function=mul><parameter=x>3</parameter></function></tool_call>"
    add_tools (parser_on "" false)
  = (Ret false,
     set_last_xml_error
       (mkError FUNCTION_NOT_FOUND 3 "mul" "Function 'mul' not found in available tools")
       (set_result (Msg.mk "assistant" "ok " "" []) (parser_on "" false))).
Proof. vm_compute. reflexivity. Qed.

Example integer_out_of_range :
  @convert_qwen3_param_value (Reference.external []) "2147483648" "x"
    (JObject [("x", JObject [("type", JString "integer")])]) "add"
  = Ret (Str.dq ++ "2147483648" ++ Str.dq).
Proof. vm_compute. reflexivity. Qed.

Example reasoning_window :
  @try_parse_reasoning (Reference.external []) "<think>" "</think>"
    (new_parser "<think> plan </think>answer" false
       (mkSyntax COMMON_REASONING_FORMAT_DEEPSEEK false false) "797")
  = (Ret true,
     set_pos 21
       (set_result (Msg.mk "assistant" "" "plan" [])
          (new_parser "<think> plan </think>answer" false
             (mkSyntax COMMON_REASONING_FORMAT_DEEPSEEK false false) "797"))).
Proof. vm_compute. reflexivity. Qed.

(** * Further properties of the code

    ** The cursor primitives *)

(** ** More facts about [substring] *)

Lemma substring_zero s : forall p, substring p 0 s = "".
Proof. induction s as [|a s IH]; intros [|p]; cbn; auto. Qed.

Lemma substring_beyond s : forall p n, length s <= p -> substring p n s = "".
Proof.
  induction s as [|a s IH]; intros p n H.
  - destruct p, n; reflexivity.
  - destruct p as [|p]; [cbn in H; lia|]. cbn. apply IH. cbn in H. lia.
Qed.

Lemma get_beyond s : forall p, length s <= p -> get p s = None.
Proof.
  induction s as [|a s IH]; intros p H; [reflexivity|].
  destruct p as [|p]; [cbn in H; lia|]. cbn. apply IH. cbn in H. lia.
Qed.

Lemma substring_step s : forall p n,
  substring p (S n) s
  = match get p s with
    | Some c => String c (substring (S p) n s)
    | None => ""
    end.
Proof.
  induction s as [|a s IH]; intros p n.
  - destruct p; reflexivity.
  - destruct p as [|p].
    + cbn. destruct n; [now rewrite substring_zero|reflexivity].
    + cbn [substring get]. rewrite IH. reflexivity.
Qed.

Lemma substring_split s : forall a p b,
  substring p (a + b) s = substring p a s ++ substring (p + a) b s.
Proof.
  induction a as [|a IH]; intros p b.
  - rewrite substring_zero, Nat.add_0_r. reflexivity.
  - cbn [Nat.add]. rewrite !substring_step.
    destruct (get p s) as [c|] eqn:Hg.
    + cbn. rewrite IH. replace (p + S a) with (S p + a) by lia. reflexivity.
    + cbn. symmetry. apply substring_beyond.
      destruct (Nat.le_gt_cases (length s) p) as [H|H]; [lia|].
      destruct (get_lt_some _ _ H) as [c Hc]. congruence.
Qed.

Lemma match_literal_spec input : forall literal pos,
  match_literal input literal pos
  = if String.eqb (substring pos (length literal) input) literal
    then Some (pos + length literal)
    else None.
Proof.
  induction literal as [|c literal IH]; intros pos.
  - cbn. rewrite substring_zero, Nat.add_0_r. reflexivity.
  - cbn [match_literal length]. rewrite substring_step.
    destruct (length input <=? pos) eqn:Hle.
    + apply Nat.leb_le in Hle. now rewrite (get_beyond _ _ Hle).
    + apply Nat.leb_gt in Hle. destruct (get_lt_some _ _ Hle) as [c' Hc'].
      rewrite Hc', (at_get _ _ _ Hc'). cbn [String.eqb].
      destruct (Ascii.eqb c' c); cbn; [|reflexivity].
      rewrite IH. destruct (String.eqb _ _); [f_equal; lia|reflexivity].
Qed.

(** X1.  [try_consume_literal] succeeds exactly when the input holds the
    literal at the cursor: the cursor then moves past it; otherwise the call
    returns false and the parser is as it was. *)
Theorem try_consume_literal_spec literal p :
  try_consume_literal literal p
  = if String.eqb (substring (pos_ p) (length literal) (input_ p)) literal
    then (Ret true, set_pos (pos_ p + length literal) p)
    else (Ret false, p).
Proof.
  unfold try_consume_literal. rewrite match_literal_spec.
  now destruct (String.eqb _ _).
Qed.

Lemma consume_spaces_loop_spec input : forall fuel pos consumed pos' consumed',
  consume_spaces_loop fuel input pos consumed = (pos', consumed') ->
  length input - pos <= fuel ->
  pos <= pos' /\
  consumed' = consumed || negb (pos' =? pos) /\
  (forall i, pos <= i -> i < pos' ->
             i < length input /\ Str.isspace (Str.at_ input i) = true) /\
  (pos' < length input -> Str.isspace (Str.at_ input pos') = false).
Proof.
  induction fuel as [|fuel IH]; intros pos consumed pos' consumed'; cbn [consume_spaces_loop].
  - intros [= <- <-] H. rewrite Nat.eqb_refl, orb_false_r.
    repeat split; try lia.
  - destruct (pos <? length input) eqn:Hlt; cbn [andb].
    + apply Nat.ltb_lt in Hlt.
      destruct (Str.isspace (Str.at_ input pos)) eqn:Hs.
      * intros H Hf. apply IH in H; [|lia].
        destruct H as (Hle & Hc & Hall & Hstop).
        split; [lia|]. split.
        { rewrite Hc. replace (pos' =? pos) with false
            by (symmetry; apply Nat.eqb_neq; lia).
          now rewrite orb_true_r. }
        split; [|exact Hstop].
        intros i Hi Hi'. destruct (Nat.eq_dec i pos) as [->|Hne]; [auto|].
        apply Hall; lia.
      * intros [= <- <-] _. rewrite Nat.eqb_refl, orb_false_r.
        repeat split; try lia. intros _. exact Hs.
    + intros [= <- <-] _. apply Nat.ltb_ge in Hlt. rewrite Nat.eqb_refl, orb_false_r.
      repeat split; try lia.
Qed.

(** X2.  [consume_spaces] moves the cursor forward over whitespace only, and
    as far as it goes: every character it passes is whitespace, the one it
    stops at (if any) is not, and it returns true exactly when it moved. *)
Theorem consume_spaces_spec p :
  exists pos',
    consume_spaces p = (Ret (negb (pos' =? pos_ p)), set_pos pos' p) /\
    pos_ p <= pos' /\
    (forall i, pos_ p <= i -> i < pos' ->
               i < length (input_ p) /\ Str.isspace (Str.at_ (input_ p) i) = true) /\
    (pos' < length (input_ p) -> Str.isspace (Str.at_ (input_ p) pos') = false).
Proof.
  unfold consume_spaces.
  destruct (consume_spaces_loop _ _ _ _) as [pos' consumed] eqn:H.
  apply consume_spaces_loop_spec in H; [|lia].
  destruct H as (Hle & -> & Hall & Hstop).
  exists pos'. cbn [orb]. auto.
Qed.

(** X3.  With the cursor inside the input, [consume_rest] returns the text
    from the cursor to the end, which completes the text before the cursor to
    the whole input, and [finish] then accepts; with the cursor past the end
    it throws [std::out_of_range] and leaves the parser as it was. *)
Theorem consume_rest_spec p :
  (pos_ p <= length (input_ p) ->
   exists rest,
     consume_rest p = (Ret rest, set_pos (length (input_ p)) p) /\
     substring 0 (pos_ p) (input_ p) ++ rest = input_ p /\
     finish (set_pos (length (input_ p)) p) = (Ret tt, set_pos (length (input_ p)) p)) /\
  (length (input_ p) < pos_ p ->
   exists what, consume_rest p = (Throw (out_of_range what), p)).
Proof.
  unfold consume_rest, substr. split; intros H.
  - replace (length (input_ p) <? pos_ p) with false by (symmetry; apply Nat.ltb_ge; lia).
    eexists. split; [reflexivity|]. split.
    + pose proof (substring_split (input_ p) (pos_ p) 0 (length (input_ p) - pos_ p)) as G.
      cbn [Nat.add] in G. rewrite <- G.
      replace (pos_ p + (length (input_ p) - pos_ p)) with (length (input_ p)) by lia.
      apply substring_all.
    + unfold finish. cbn. rewrite Nat.eqb_refl. cbn. now rewrite andb_false_r.
  - apply Nat.ltb_lt in H. rewrite H. eexists. reflexivity.
Qed.

Section FindLiteral.

Context {E : External}.

(** X4.  When the literal occurs at or after the cursor, [try_find_literal]
    stops at its first occurrence: the prelude is the text between the cursor
    and the occurrence, the one group spans the literal ([str] of it is the
    literal), the cursor ends right after it, and the prelude followed by the
    literal is exactly the input that was passed over. *)
Theorem try_find_literal_found literal p idx :
  Str.find (input_ p) literal (pos_ p) = Some idx ->
  let end_ := idx + length literal in
  let prelude := substring (pos_ p) (idx - pos_ p) (input_ p) in
  try_find_literal literal p
  = (Ret (Some (mkFind prelude [mkRange idx end_])), set_pos end_ p) /\
  str (mkRange idx end_) p = Some (Ret literal) /\
  prelude ++ literal = substring (pos_ p) (end_ - pos_ p) (input_ p) /\
  pos_ p <= idx /\ end_ <= length (input_ p) /\
  (forall q, pos_ p <= q -> q < idx ->
             substring q (length literal) (input_ p) <> literal).
Proof.
  intros Hf end_ prelude.
  pose proof (index_ge _ _ _ _ Hf) as Hge.
  pose proof (index_fits _ _ _ _ Hf) as Hfit.
  pose proof (index_correct1 _ _ _ _ Hf) as Hocc.
  split.
  { unfold try_find_literal. rewrite Hf. unfold bind, lift, substr, move_to, modify, ret.
    replace (length (input_ p) <? pos_ p) with false by (symmetry; apply Nat.ltb_ge; lia).
    reflexivity. }
  split.
  { unfold str, substr. cbn [range_begin range_end]. subst end_.
    replace (idx <=? idx + length literal) with true by (symmetry; apply Nat.leb_le; lia).
    replace (length (input_ p) <? idx) with false by (symmetry; apply Nat.ltb_ge; lia).
    replace (idx + length literal - idx) with (length literal) by lia.
    now rewrite Hocc. }
  split.
  { subst end_ prelude.
    replace (idx + length literal - pos_ p) with ((idx - pos_ p) + length literal) by lia.
    rewrite substring_split.
    replace (pos_ p + (idx - pos_ p)) with idx by lia. now rewrite Hocc. }
  split; [exact Hge|]. split; [exact Hfit|].
  intros q Hq Hq'. exact (index_correct2 _ _ _ _ Hf q Hq Hq').
Qed.

(** X5.  On a partial input that does not hold the literal, when its end may
    be the beginning of the literal from an offset at or after the cursor,
    [try_find_literal] takes the text before that offset as the prelude,
    holds the rest back as the group and moves the cursor to the end of the
    input; the prelude and the text of the group make up the input from the
    cursor on. *)
Theorem try_find_literal_partial_stop literal p idx :
  Str.find (input_ p) literal (pos_ p) = None ->
  is_partial_ p = true ->
  string_find_partial_stop (input_ p) literal = Some idx ->
  pos_ p <= idx ->
  idx <= length (input_ p) ->
  let prelude := substring (pos_ p) (idx - pos_ p) (input_ p) in
  try_find_literal literal p
  = (Ret (Some (mkFind prelude [mkRange idx (length (input_ p))])),
     set_pos (length (input_ p)) p) /\
  exists held,
    str (mkRange idx (length (input_ p))) p = Some (Ret held) /\
    prelude ++ held = substring (pos_ p) (length (input_ p) - pos_ p) (input_ p).
Proof.
  intros Hf Hp Hs Hle Hlen prelude. split.
  { unfold try_find_literal. rewrite Hf, Hp, Hs.
    replace (pos_ p <=? idx) with true by (symmetry; apply Nat.leb_le; lia).
    unfold bind, lift, substr, move_to, modify, ret.
    replace (length (input_ p) <? pos_ p) with false by (symmetry; apply Nat.ltb_ge; lia).
    reflexivity. }
  unfold str, substr. cbn [range_begin range_end].
  replace (idx <=? length (input_ p)) with true by (symmetry; apply Nat.leb_le; lia).
  replace (length (input_ p) <? idx) with false by (symmetry; apply Nat.ltb_ge; lia).
  eexists. split; [reflexivity|]. subst prelude.
  replace (length (input_ p) - pos_ p) with ((idx - pos_ p) + (length (input_ p) - idx)) by lia.
  rewrite substring_split. do 2 f_equal. lia.
Qed.

End FindLiteral.

Lemma try_find_literal_found_witness :
  @try_find_literal (Reference.external []) "</think>" (parser_on "ab</think>cd" false)
  = (Ret (Some (mkFind "ab" [mkRange 2 10])), set_pos 10 (parser_on "ab</think>cd" false)).
Proof.
  refine (proj1 (@try_find_literal_found (Reference.external []) "</think>"
                   (parser_on "ab</think>cd" false) 2 _)).
  vm_compute. reflexivity.
Defined.

Lemma try_find_literal_partial_stop_witness :
  @try_find_literal (Reference.external []) "</think>" (parser_on "ab</th" true)
  = (Ret (Some (mkFind "ab" [mkRange 2 6])), set_pos 6 (parser_on "ab</th" true)).
Proof.
  refine (proj1 (@try_find_literal_partial_stop (Reference.external []) "</think>"
                   (parser_on "ab</th" true) 2 _ _ _ _ _)).
  - vm_compute. reflexivity.
  - reflexivity.
  - vm_compute. reflexivity.
  - vm_compute. lia.
  - vm_compute. lia.
Defined.

Lemma consume_rest_spec_witness :
  (exists rest,
     consume_rest (parser_on "abc" false)
     = (Ret rest, set_pos (length (input_ (parser_on "abc" false))) (parser_on "abc" false)) /\
     substring 0 (pos_ (parser_on "abc" false)) (input_ (parser_on "abc" false)) ++ rest
     = input_ (parser_on "abc" false) /\
     finish (set_pos (length (input_ (parser_on "abc" false))) (parser_on "abc" false))
     = (Ret tt, set_pos (length (input_ (parser_on "abc" false))) (parser_on "abc" false)))
  /\
  (exists what,
     consume_rest (set_pos 4 (parser_on "abc" false))
     = (Throw (out_of_range what), set_pos 4 (parser_on "abc" false))).
Proof.
  split.
  - refine (proj1 (consume_rest_spec (parser_on "abc" false)) _). vm_compute. lia.
  - refine (proj2 (consume_rest_spec (set_pos 4 (parser_on "abc" false))) _). vm_compute. lia.
Defined.

(** ** The tag scanner: what it returns *)

Lemma substring_substring s a b : forall l q,
  q + l <= b -> substring q l (substring a b s) = substring (a + q) l s.
Proof.
  induction l as [|l IH]; intros q H.
  - now rewrite !substring_zero.
  - rewrite !substring_step, substring_correct1 by lia.
    replace (q + a) with (a + q) by lia.
    destruct (get (a + q) s); [|reflexivity].
    rewrite IH by lia. do 2 f_equal. lia.
Qed.

Lemma extract_attribute_length text tag_name open_pos open_end attr :
  extract_attribute text tag_name open_pos open_end = inl attr ->
  length attr <= MAX_ATTRIBUTE_LENGTH.
Proof.
  unfold extract_attribute.
  assert (H0 : forall a, @inl string string "" = inl a -> length a <= MAX_ATTRIBUTE_LENGTH).
  { intros a [= <-]. cbn. lia. }
  destruct (_ <? _); [|apply H0].
  destruct (Str.find_char _ _ _); [|apply H0].
  destruct (_ <? _); [|apply H0].
  destruct (_ <? _); [|apply H0].
  destruct (attribute_bounds _ _ _) as [attr_start attr_end].
  destruct (_ <? _); [|apply H0].
  destruct (_ <=? _) eqn:Hlen; [|discriminate].
  intros [= <-]. now apply Nat.leb_le.
Qed.

Lemma find_xml_tag_span text tag_name start_pos error tag e' :
  find_xml_tag text tag_name start_pos error = (Some tag, e') ->
  exists open_end close_pos,
    start_pos <= Tag.start_pos tag /\
    Str.find_char text ">"%char (Tag.start_pos tag) = Some open_end /\
    Tag.start_pos tag < open_end /\
    extract_attribute text tag_name (Tag.start_pos tag) open_end = inl (Tag.attribute tag) /\
    Str.find text ("</" ++ tag_name ++ ">") (open_end + 1) = Some close_pos /\
    open_end + 1 <= close_pos /\
    close_pos + length ("</" ++ tag_name ++ ">") <= length text /\
    Tag.name tag = tag_name /\
    Tag.content tag = substring (open_end + 1) (close_pos - (open_end + 1)) text /\
    Tag.end_pos tag = close_pos + length ("</" ++ tag_name ++ ">") /\
    e' = error.
Proof.
  intros H.
  apply find_xml_tag_some in H.
  destruct H as (open_pos & Hle & Hocc & Hread & _).
  apply read_tag_some in Hread.
  destruct Hread as (open_end & attr & close_pos & Ho & Ha & Hc & -> & ->).
  cbn [Tag.name Tag.attribute Tag.start_pos Tag.end_pos Tag.content].
  pose proof (index_ge _ _ _ _ Ho) as G1.
  pose proof (find_char_get _ _ _ _ Ho) as G2.
  assert (Hne : open_end <> open_pos).
  { intros ->.
    pose proof (substring_correct1 text open_pos (length ("<" ++ tag_name)) 0) as G6.
    rewrite Hocc in G6. simpl in G6. rewrite G2 in G6.
    specialize (G6 (Nat.lt_0_succ _)). discriminate. }
  exists open_end, close_pos.
  repeat split; try assumption; try reflexivity; try lia.
  - exact (index_ge _ _ _ _ Hc).
  - exact (index_fits _ _ _ _ Hc).
Qed.

(** X6.  A tag that [find_xml_tag] returns lies inside the text: it starts at
    or after the offset asked for, its opening tag ends at a '>', its content
    is the text from there up to the closing tag, which sits right before
    [end_pos]; its name is the one asked for, its attribute is no longer than
    [MAX_ATTRIBUTE_LENGTH], and the error slot is left as it was. *)
Theorem find_xml_tag_extent text tag_name start_pos error tag e' :
  find_xml_tag text tag_name start_pos error = (Some tag, e') ->
  let close_tag := "</" ++ tag_name ++ ">" in
  e' = error /\
  Tag.name tag = tag_name /\
  length (Tag.attribute tag) <= MAX_ATTRIBUTE_LENGTH /\
  start_pos <= Tag.start_pos tag /\
  Tag.end_pos tag <= length text /\
  substring (Tag.end_pos tag - length close_tag) (length close_tag) text = close_tag /\
  exists open_end,
    Tag.start_pos tag < open_end /\
    get open_end text = Some ">"%char /\
    (forall i, Tag.start_pos tag <= i -> i < open_end -> get i text <> Some ">"%char) /\
    Tag.content tag = substring (open_end + 1) (length (Tag.content tag)) text /\
    Tag.end_pos tag = open_end + 1 + length (Tag.content tag) + length close_tag.
Proof.
  intros H close_tag.
  destruct (find_xml_tag_span _ _ _ _ _ _ H)
    as (open_end & close_pos & Hle & Ho & Hlt & Ha & Hc & G3 & G4 & Hn & Hcont & Hend & He).
  fold close_tag in Hc, G4, Hend.
  pose proof (find_char_get _ _ _ _ Ho) as G2.
  pose proof (index_correct1 _ _ _ _ Hc) as G5.
  assert (Hlen : length (Tag.content tag) = close_pos - (open_end + 1)).
  { rewrite Hcont. apply length_substring. lia. }
  split; [exact He|]. split; [exact Hn|].
  split; [exact (extract_attribute_length _ _ _ _ _ Ha)|].
  split; [exact Hle|]. split; [lia|]. split.
  { rewrite Hend, Nat.add_sub. exact G5. }
  exists open_end. split; [exact Hlt|]. split; [exact G2|]. split.
  { intros i Hi Hi' Hg.
    apply (index_correct2 _ _ _ _ Ho i Hi Hi').
    cbn [length]. rewrite substring_step, Hg, substring_zero. reflexivity. }
  rewrite Hlen. split; [exact Hcont|]. lia.
Qed.

(** X7.  The content of a returned tag ends at the first closing tag after the
    opening one: the content itself holds no closing tag, so a tag nested in
    one of the same name is cut short at the inner closing tag. *)
Theorem find_xml_tag_content_has_no_closing_tag text tag_name start_pos error tag e' :
  find_xml_tag text tag_name start_pos error = (Some tag, e') ->
  Str.find (Tag.content tag) ("</" ++ tag_name ++ ">") 0 = None.
Proof.
  intros H.
  destruct (find_xml_tag_span _ _ _ _ _ _ H)
    as (open_end & close_pos & _ & _ & _ & _ & Hc & G3 & G4 & _ & -> & _ & _).
  set (close_tag := "</" ++ tag_name ++ ">") in *.
  destruct (Str.find _ close_tag 0) as [q|] eqn:Hq; [exfalso|reflexivity].
  pose proof (index_fits _ _ _ _ Hq) as Q1.
  pose proof (index_correct1 _ _ _ _ Hq) as Q2.
  rewrite length_substring in Q1 by lia.
  rewrite substring_substring in Q2 by lia.
  assert (0 < length close_tag) by (subst close_tag; cbn; lia).
  apply (index_correct2 _ _ _ _ Hc (open_end + 1 + q)); [lia|lia|exact Q2].
Qed.

Lemma find_all_loop_in_order fuel text tag_name :
  forall pos tag_count tags error tags' pos' count' e',
    find_all_loop fuel text tag_name pos tag_count tags error = (tags', pos', count', e') ->
    exists found,
      tags' = (tags ++ found)%list /\ tags_in_order pos text tag_name found.
Proof.
  induction fuel as [|fuel IH]; intros pos tag_count tags error tags' pos' count' e';
    cbn [find_all_loop].
  - intros [= <- <- <- <-]. exists []. now rewrite app_nil_r.
  - destruct (_ && _); [|intros [= <- <- <- <-]; exists []; now rewrite app_nil_r].
    destruct (find_xml_tag _ _ _ _) as [[tag|] e] eqn:Hf;
      [|intros [= <- <- <- <-]; exists []; now rewrite app_nil_r].
    intros H. apply IH in H. destruct H as (found & -> & Hord).
    exists (tag :: found). rewrite <- app_assoc. split; [reflexivity|].
    destruct (find_xml_tag_span _ _ _ _ _ _ Hf)
      as (open_end & close_pos & Hle & _ & Hlt & _ & _ & G3 & G4 & Hn & _ & Hend & _).
    cbn [tags_in_order]. repeat split; try assumption; lia.
Qed.

Lemma find_all_loop_head fuel text tag_name error tags' pos' count' e' :
  find_all_loop (S fuel) text tag_name 0 0 [] error = (tags', pos', count', e') ->
  hd_error tags' = fst (find_xml_tag text tag_name 0 error).
Proof.
  cbn [find_all_loop].
  destruct (0 <? length text) eqn:Hlt; cbn [andb].
  - change (0 <? MAX_PARAMETER_COUNT) with true. cbv iota.
    destruct (find_xml_tag text tag_name 0 error) as [[tag|] e] eqn:Hf.
    + intros H. apply find_all_loop_in_order in H. destruct H as (found & -> & _). reflexivity.
    + now intros [= <- _ _ _].
  - intros [= <- _ _ _]. unfold find_xml_tag. apply Nat.ltb_ge in Hlt.
    destruct (_ <? _)%N; [reflexivity|]. destruct (_ <? _); [reflexivity|].
    replace (length text <=? 0) with true by (symmetry; apply Nat.leb_le; lia).
    reflexivity.
Qed.

(** X8.  [find_all_xml_tags] returns at most [MAX_PARAMETER_COUNT] tags, in
    the order of the text and without overlap: each one starts at or after
    the end of the one before it, is not empty, ends inside the text and
    bears the name asked for; the first one is the tag [find_xml_tag] returns
    from offset 0. *)
Theorem find_all_xml_tags_in_order text tag_name error tags e' :
  find_all_xml_tags text tag_name error = (tags, e') ->
  List.length tags <= MAX_PARAMETER_COUNT /\
  tags_in_order 0 text tag_name tags /\
  hd_error tags = fst (find_xml_tag text tag_name 0 error).
Proof.
  unfold find_all_xml_tags.
  destruct (find_all_loop _ _ _ _ _ _ _) as [[[tags' pos'] count'] e0] eqn:H.
  pose proof (find_all_loop_count _ _ _ _ _ _ _ _ _ _ _ H (Nat.le_0_l _)) as [Hc Hle].
  cbn in Hc. rewrite Nat.add_0_r in Hc. subst count'.
  pose proof (find_all_loop_in_order _ _ _ _ _ _ _ _ _ _ _ H) as (found & Hfound & Hord).
  cbn in Hfound. subst found.
  pose proof (find_all_loop_head 99 _ _ _ _ _ _ _ H) as Hhd.
  destruct (MAX_PARAMETER_COUNT <=? List.length tags'); intros [= <- <-]; auto.
Qed.

(** ** trim_whitespace *)

Lemma find_first_not_of_some pred s : forall i,
  Str.find_first_not_of pred s = Some i ->
  (exists c, get i s = Some c /\ pred c = false) /\
  exists e, Str.find_last_not_of pred s = Some e /\ i <= e.
Proof.
  induction s as [|a s IH]; intros i; cbn [Str.find_first_not_of Str.find_last_not_of];
    [discriminate|].
  destruct (pred a) eqn:Hp.
  - destruct (Str.find_first_not_of pred s) as [i'|]; [|discriminate].
    intros [= <-]. destruct (IH i' eq_refl) as (Hc & e & -> & Hle).
    split; [exact Hc|]. exists (S e). split; [reflexivity|lia].
  - intros [= <-]. split; [exists a; auto|].
    destruct (Str.find_last_not_of pred s) as [e|]; eexists; split; try reflexivity; lia.
Qed.

Lemma find_last_not_of_some pred s : forall e,
  Str.find_last_not_of pred s = Some e ->
  e < length s /\ exists c, get e s = Some c /\ pred c = false.
Proof.
  induction s as [|a s IH]; intros e; cbn [Str.find_last_not_of]; [discriminate|].
  destruct (Str.find_last_not_of pred s) as [e'|].
  - intros [= <-]. destruct (IH e' eq_refl) as (Hlt & Hc). split; [cbn; lia|exact Hc].
  - destruct (pred a) eqn:Hp; [discriminate|].
    intros [= <-]. split; [cbn; lia|]. exists a. auto.
Qed.

(** X9.  [trim_whitespace] returns a piece of its argument that is empty or
    neither starts nor ends with a space, tab, line feed or carriage return;
    trimming a trimmed string changes nothing. *)
Theorem trim_whitespace_spec s :
  (exists start, trim_whitespace s = substring start (length (trim_whitespace s)) s) /\
  (trim_whitespace s = "" \/
   exists first last,
     get 0 (trim_whitespace s) = Some first /\ Str.is_trim_char first = false /\
     get (length (trim_whitespace s) - 1) (trim_whitespace s) = Some last /\
     Str.is_trim_char last = false) /\
  trim_whitespace (trim_whitespace s) = trim_whitespace s.
Proof.
  assert (Hends :
    (exists start, trim_whitespace s = substring start (length (trim_whitespace s)) s) /\
    (trim_whitespace s = "" \/
     exists first last,
       get 0 (trim_whitespace s) = Some first /\ Str.is_trim_char first = false /\
       get (length (trim_whitespace s) - 1) (trim_whitespace s) = Some last /\
       Str.is_trim_char last = false)).
  { unfold trim_whitespace.
    destruct (Str.find_first_not_of Str.is_trim_char s) as [i|] eqn:Hi.
    2:{ split; [exists 0; now rewrite substring_zero|now left]. }
    destruct (find_first_not_of_some _ _ _ Hi) as ((first & Hf & Hft) & e & He & Hle).
    rewrite He.
    destruct (find_last_not_of_some _ _ _ He) as (Hlt & last & Hl & Hlt').
    assert (Hlen : length (substring i (e - i + 1) s) = e - i + 1)
      by (apply length_substring; lia).
    rewrite Hlen. split; [exists i; reflexivity|].
    right. exists first, last.
    rewrite !substring_correct1 by lia. cbn [Nat.add].
    replace (e - i + 1 - 1 + i) with e by lia. auto. }
  split; [exact (proj1 Hends)|]. split; [exact (proj2 Hends)|].
  destruct (proj2 Hends) as [->|(first & last & Hf & Hft & Hl & Hlt)]; [reflexivity|].
  exact (trim_whitespace_fixed _ _ _ Hf Hft Hl Hlt).
Qed.

Section Config.

Context {E : External}.

(** X10.  [get_param_config] reads the schema of the first tool that bears the
    function name and ignores every tool after it; without such a tool it
    returns the empty object. *)
Theorem get_param_config_first_match func_name skipped :
  Forall (fun tool => Tool.name tool <> func_name) skipped ->
  get_param_config func_name skipped = JObject [] /\
  forall tool rest,
    Tool.name tool = func_name ->
    get_param_config func_name (skipped ++ tool :: rest)
    = get_param_config func_name [tool].
Proof.
  induction 1 as [|t skipped Ht _ IH]; cbn [get_param_config app].
  - split; [reflexivity|]. intros tool rest ->. now rewrite String.eqb_refl.
  - destruct (String.eqb_spec (Tool.name t) func_name); [contradiction|]. exact IH.
Qed.

End Config.

(** X11.  The healing marker the constructor picks is the first draw that does
    not occur in the input: every draw before it occurs there, and it is not
    the empty string; and a draw that does not occur is enough for the
    constructor to return. *)
Theorem pick_healing_marker_spec input ids :
  (forall id,
     pick_healing_marker input ids = Some id ->
     Str.find input id 0 = None /\ id <> "" /\
     exists before rest,
       ids = (before ++ id :: rest)%list /\
       Forall (fun d => Str.find input d 0 <> None) before) /\
  (forall id, In id ids -> Str.find input id 0 = None ->
              pick_healing_marker input ids <> None).
Proof.
  split.
  - induction ids as [|d ids IH]; intros id; cbn [pick_healing_marker]; [discriminate|].
    destruct (Str.find input d 0) as [k|] eqn:Hd.
    + intros H. destruct (IH id H) as (Hn & He & before & rest & -> & Hall).
      split; [exact Hn|]. split; [exact He|].
      exists (d :: before), rest. split; [reflexivity|].
      constructor; [congruence|exact Hall].
    + intros [= <-]. split; [exact Hd|]. split.
      * intros ->. destruct input; discriminate Hd.
      * exists [], ids. split; [reflexivity|constructor].
  - induction ids as [|d ids IH]; intros id Hin Hn; cbn [pick_healing_marker]; [contradiction|].
    destruct (Str.find input d 0) as [k|] eqn:Hd; [|discriminate].
    destruct Hin as [->|Hin]; [congruence|]. exact (IH id Hin Hn).
Qed.

Lemma find_xml_tag_extent_witness :
  Tag.end_pos (Tag.mk "tool" "" "x" 11 25)
  <= length "<tool_call><tool>x</tool></tool_call>".
Proof.
  refine (proj1 (proj2 (proj2 (proj2 (proj2
            (find_xml_tag_extent "<tool_call><tool>x</tool></tool_call>" "tool" 0 None
               (Tag.mk "tool" "" "x" 11 25) None _)))))).
  vm_compute. reflexivity.
Defined.

Lemma find_xml_tag_content_has_no_closing_tag_witness :
  Str.find (Tag.content (Tag.mk "a" "" "<a>x" 0 11)) ("</" ++ "a" ++ ">") 0 = None.
Proof.
  refine (find_xml_tag_content_has_no_closing_tag "<a><a>x</a></a>" "a" 0 None
            (Tag.mk "a" "" "<a>x" 0 11) None _).
  vm_compute. reflexivity.
Defined.

Lemma find_all_xml_tags_in_order_witness :
  tags_in_order 0 "<p=a>1</p> <p=b>2</p>" "p"
    [Tag.mk "p" "a" "1" 0 10; Tag.mk "p" "b" "2" 11 21].
Proof.
  refine (proj1 (proj2 (find_all_xml_tags_in_order "<p=a>1</p> <p=b>2</p>" "p" None
                          [Tag.mk "p" "a" "1" 0 10; Tag.mk "p" "b" "2" 11 21] None _))).
  vm_compute. reflexivity.
Defined.

Lemma get_param_config_first_match_witness :
  @get_param_config (Reference.external []) "add"
    ([Tool.mk "mul" "" "{}"] ++ Tool.mk "add" "" "[1]" :: [Tool.mk "add" "" "[2]"])
  = @get_param_config (Reference.external []) "add" [Tool.mk "add" "" "[1]"].
Proof.
  refine (proj2 (@get_param_config_first_match (Reference.external []) "add"
                   [Tool.mk "mul" "" "{}"] _)
            (Tool.mk "add" "" "[1]") [Tool.mk "add" "" "[2]"] _).
  - constructor; [discriminate|constructor].
  - reflexivity.
Defined.

Lemma pick_healing_marker_spec_witness :
  Str.find "a 41 b" "18467" 0 = None /\ "18467" <> "" /\
  exists before rest,
    ["41"; "18467"; "6334"] = (before ++ "18467" :: rest)%list /\
    Forall (fun d => Str.find "a 41 b" d 0 <> None) before.
Proof.
  refine (proj1 (pick_healing_marker_spec "a 41 b" ["41"; "18467"; "6334"]) "18467" _).
  vm_compute. reflexivity.
Defined.

(** ** The tag scanner: what it finds *)

Lemma find_some_before text pat n q :
  pat <> "" -> n <= q -> substring q (length pat) text = pat ->
  exists m, Str.find text pat n = Some m /\ m <= q.
Proof.
  intros Hpat Hle Hocc. unfold Str.find.
  destruct (index n pat text) as [m|] eqn:Hi.
  - exists m. split; [reflexivity|].
    destruct (Nat.le_gt_cases m q) as [H|H]; [exact H|].
    exfalso. exact (index_correct2 _ _ _ _ Hi q Hle H Hocc).
  - exfalso. exact (index_correct3 _ q _ _ Hi Hpat Hle Hocc).
Qed.

Lemma find_loop_complete text tag_name error q d open_end close_pos :
  substring q (length ("<" ++ tag_name)) text = "<" ++ tag_name ->
  get (q + length ("<" ++ tag_name)) text = Some d ->
  tag_delimiter d = true ->
  Str.find_char text ">"%char q = Some open_end ->
  Str.find text ("</" ++ tag_name ++ ">") (open_end + 1) = Some close_pos ->
  forall fuel search_pos,
    search_pos <= q ->
    length text - search_pos <= fuel ->
    (exists tag,
       find_loop fuel text tag_name search_pos error = (Some tag, error) /\
       search_pos <= Tag.start_pos tag /\ Tag.start_pos tag <= q)
    \/
    (exists open_pos attr_view,
       find_loop fuel text tag_name search_pos error
       = (None,
          set_error_ptr error ATTRIBUTE_TOO_LONG open_pos (substring 0 100 attr_view)
            ("Attribute exceeds maximum length of "
               ++ Str.to_string MAX_ATTRIBUTE_LENGTH ++ " characters")) /\
       MAX_ATTRIBUTE_LENGTH < length attr_view).
Proof.
  intros Hocc Hd Hdel Ho Hc.
  assert (Hq : q + length ("<" ++ tag_name) < length text).
  { destruct (Nat.le_gt_cases (length text) (q + length ("<" ++ tag_name))) as [H|H];
      [|exact H].
    rewrite (get_beyond _ _ H) in Hd. discriminate. }
  pose proof (index_ge _ _ _ _ Ho) as Hoq.
  pose proof (index_correct1 _ _ _ _ Ho) as Hogt.
  pose proof (index_ge _ _ _ _ Hc) as Hcq.
  pose proof (index_correct1 _ _ _ _ Hc) as Hcocc.
  induction fuel as [|fuel IH]; intros search_pos Hle Hfuel; [lia|].
  cbn [find_loop].
  replace (search_pos <? length text) with true by (symmetry; apply Nat.ltb_lt; lia).
  destruct (find_some_before text ("<" ++ tag_name) search_pos q) as (open_pos & Hf & Hpq);
    [discriminate|exact Hle|exact Hocc|].
  rewrite Hf. pose proof (index_ge _ _ _ _ Hf) as Hsp.
  destruct ((open_pos + length ("<" ++ tag_name) <? length text)
            && negb (tag_delimiter (Str.at_ text (open_pos + length ("<" ++ tag_name)))))
    eqn:Hfalse.
  - assert (Hne : open_pos <> q).
    { intros ->. rewrite (at_get _ _ _ Hd), Hdel in Hfalse.
      now rewrite andb_false_r in Hfalse. }
    destruct (IH (open_pos + 1)) as [(tag & Htag & H1 & H2)|(op & view & Hnone & Hlong)];
      [lia|lia| |].
    + left. exists tag. split; [exact Htag|]. lia.
    + right. exists op, view. auto.
  - unfold read_tag.
    destruct (find_some_before text ">" open_pos open_end) as (open_end' & Ho' & Hoe);
      [discriminate|lia|exact Hogt|].
    unfold Str.find_char. unfold Str.find in Ho'. rewrite Ho'.
    destruct (extract_attribute text tag_name open_pos open_end') as [attr|attr_view] eqn:Ha.
    + destruct (find_some_before text ("</" ++ tag_name ++ ">") (open_end' + 1) close_pos)
        as (close_pos' & Hc' & _); [discriminate|lia|exact Hcocc|].
      rewrite Hc'. left. eexists. split; [reflexivity|]. cbn [Tag.start_pos]. lia.
    + right. exists open_pos, attr_view. split; [reflexivity|].
      unfold extract_attribute in Ha.
      destruct (_ <? _) in Ha; [|discriminate].
      destruct (Str.find_char _ _ _) in Ha; [|discriminate].
      destruct (_ <? _) in Ha; [|discriminate].
      destruct (_ <? _) in Ha; [|discriminate].
      destruct (attribute_bounds _ _ _) as [attr_start attr_end].
      destruct (_ <? _) in Ha; [|discriminate].
      destruct (_ <=? _) eqn:Hlen in Ha; [discriminate|].
      injection Ha as <-. now apply Nat.leb_gt in Hlen.
Qed.

(** X12.  [find_xml_tag] finds a tag when there is one.  If the text, within
    the size limits, holds at or after [start_pos] an opening tag for the
    name (the name followed by '>', '=' or whitespace), a '>' after it and a
    closing tag after that '>', the search returns a tag that starts at or
    before that opening tag and leaves the error slot alone; the one
    exception is an attribute longer than [MAX_ATTRIBUTE_LENGTH] on the way,
    which ends the search with ATTRIBUTE_TOO_LONG. *)
Theorem find_xml_tag_finds_a_tag text tag_name start_pos error q d open_end close_pos :
  (N.of_nat (length text) <= MAX_INPUT_SIZE)%N ->
  length tag_name <= MAX_TAG_NAME_LENGTH ->
  start_pos <= q ->
  substring q (length ("<" ++ tag_name)) text = "<" ++ tag_name ->
  get (q + length ("<" ++ tag_name)) text = Some d ->
  tag_delimiter d = true ->
  Str.find_char text ">"%char q = Some open_end ->
  Str.find text ("</" ++ tag_name ++ ">") (open_end + 1) = Some close_pos ->
  (exists tag,
     find_xml_tag text tag_name start_pos error = (Some tag, error) /\
     start_pos <= Tag.start_pos tag /\ Tag.start_pos tag <= q)
  \/
  (exists open_pos attr_view,
     find_xml_tag text tag_name start_pos error
     = (None,
        set_error_ptr error ATTRIBUTE_TOO_LONG open_pos (substring 0 100 attr_view)
          ("Attribute exceeds maximum length of "
             ++ Str.to_string MAX_ATTRIBUTE_LENGTH ++ " characters")) /\
     MAX_ATTRIBUTE_LENGTH < length attr_view).
Proof.
  intros Hsize Hname Hle Hocc Hd Hdel Ho Hc. unfold find_xml_tag.
  replace (MAX_INPUT_SIZE <? N.of_nat (length text))%N with false
    by (symmetry; apply N.ltb_ge; exact Hsize).
  replace (MAX_TAG_NAME_LENGTH <? length tag_name) with false
    by (symmetry; apply Nat.ltb_ge; exact Hname).
  assert (Hq : q + length ("<" ++ tag_name) < length text).
  { destruct (Nat.le_gt_cases (length text) (q + length ("<" ++ tag_name))) as [H|H];
      [|exact H].
    rewrite (get_beyond _ _ H) in Hd. discriminate. }
  replace (length text <=? start_pos) with false by (symmetry; apply Nat.leb_gt; lia).
  apply (find_loop_complete text tag_name error q d open_end close_pos); auto; lia.
Qed.

Lemma find_xml_tag_finds_a_tag_witness :
  (exists tag,
     find_xml_tag "say <tool_call> <function=f>x</function>" "function" 0 None = (Some tag, None) /\
     0 <= Tag.start_pos tag /\ Tag.start_pos tag <= 16)
  \/
  (exists open_pos attr_view,
     find_xml_tag "say <tool_call> <function=f>x</function>" "function" 0 None
     = (None,
        set_error_ptr None ATTRIBUTE_TOO_LONG open_pos (substring 0 100 attr_view)
          ("Attribute exceeds maximum length of "
             ++ Str.to_string MAX_ATTRIBUTE_LENGTH ++ " characters")) /\
     MAX_ATTRIBUTE_LENGTH < length attr_view).
Proof.
  refine (find_xml_tag_finds_a_tag "say <tool_call> <function=f>x</function>" "function" 0 None
            16 "="%char 27 29 _ _ _ _ _ _ _ _).
  - vm_compute. discriminate.
  - vm_compute. lia.
  - lia.
  - vm_compute. reflexivity.
  - vm_compute. reflexivity.
  - reflexivity.
  - vm_compute. reflexivity.
  - vm_compute. reflexivity.
Defined.

(** ** What every call keeps and what it may add *)

Lemma append_nil_r (s : string) : s ++ "" = s.
Proof. induction s; cbn; [reflexivity|now rewrite IHs]. Qed.

Section Respects.

Variable R : parser -> parser -> Prop.
Hypothesis R_refl : forall p, R p p.
Hypothesis R_trans : forall p q r, R p q -> R q r -> R p r.

Lemma respects_ret {A} (a : A) : respects R (ret a).
Proof. intros p. apply R_refl. Qed.

Lemma respects_throw {A} e : respects R (@throw A e).
Proof. intros p. apply R_refl. Qed.

Lemma respects_lift {A} (o : outcome A) : respects R (lift o).
Proof. intros p. apply R_refl. Qed.

Lemma respects_gets {A} (f : parser -> A) : respects R (gets f).
Proof. intros p. apply R_refl. Qed.

Lemma respects_bind {A B} (m : M A) (k : A -> M B) :
  respects R m -> (forall a, respects R (k a)) -> respects R (bind m k).
Proof.
  intros Hm Hk p. unfold after, bind. specialize (Hm p). unfold after in Hm.
  destruct (m p) as [[a|e] p']; simpl in *.
  - eapply R_trans; [exact Hm|apply Hk].
  - exact Hm.
Qed.

Lemma respects_if {A} (b : bool) (m1 m2 : M A) :
  respects R m1 -> respects R m2 -> respects R (if b then m1 else m2).
Proof. now destruct b. Qed.

Lemma respects_pointwise {A} (m : M A) :
  (forall p, exists m' : M A, m p = m' p /\ respects R m') -> respects R m.
Proof.
  intros H p. destruct (H p) as (m' & Heq & Hk). unfold after. rewrite Heq. apply Hk.
Qed.

Lemma respects_finish : respects R finish.
Proof. intros p. unfold after, finish. destruct (_ && _); apply R_refl. Qed.

End Respects.

Lemma advances_refl p : advances p p.
Proof.
  unfold advances. repeat split; try reflexivity; [exists ""|exists ""|exists []].
  - now rewrite append_nil_r.
  - now rewrite append_nil_r.
  - now rewrite app_nil_r.
Qed.

Lemma advances_trans p q r : advances p q -> advances q r -> advances p r.
Proof.
  intros (H1 & H2 & H3 & H4 & H5 & (c & Hc) & (d & Hd) & (l & Hl))
         (G1 & G2 & G3 & G4 & G5 & (c' & Hc') & (d' & Hd') & (l' & Hl')).
  unfold advances. repeat split; try congruence.
  - exists (c ++ c'). now rewrite Hc', Hc, append_assoc.
  - exists (d ++ d'). now rewrite Hd', Hd, append_assoc.
  - exists (l ++ l')%list. now rewrite Hl', Hl, app_assoc.
Qed.

Lemma forward_refl p : forward p p.
Proof. unfold forward. split; [reflexivity|lia]. Qed.

Lemma forward_trans p q r : forward p q -> forward q r -> forward p r.
Proof.
  intros (H1 & H2) (G1 & G2). unfold forward. split; [congruence|].
  intros H. specialize (H2 H). rewrite H1 in G2. specialize (G2 (proj2 H2)). lia.
Qed.

(** ** Both relations, call by call *)

Ltac advances_now :=
  unfold advances; cbn;
  repeat split; try reflexivity;
  first [ exists ""; now rewrite append_nil_r
        | exists []; now rewrite app_nil_r
        | eexists; reflexivity ].

Lemma advances_set_pos pos p : advances p (set_pos pos p).
Proof. advances_now. Qed.

Lemma advances_set_last_xml_error e p : advances p (set_last_xml_error e p).
Proof. advances_now. Qed.

Ltac advances_same :=
  first [ apply advances_refl | apply advances_set_pos | apply advances_set_last_xml_error ].

Lemma advances_add_content c : respects advances (add_content c).
Proof. intros p. advances_now. Qed.

Lemma advances_add_reasoning_content c : respects advances (add_reasoning_content c).
Proof. intros p. advances_now. Qed.

Lemma advances_add_tool_call name id arguments :
  respects advances (add_tool_call name id arguments).
Proof.
  intros p. unfold after, add_tool_call.
  destruct (String.eqb name ""); [advances_same|]. advances_now.
Qed.

Lemma advances_modify_set_pos pos : respects advances (modify (set_pos pos)).
Proof. intros p. advances_same. Qed.

Lemma advances_modify_set_last_xml_error e :
  respects advances (modify (set_last_xml_error e)).
Proof. intros p. advances_same. Qed.

Lemma advances_consume_spaces : respects advances consume_spaces.
Proof.
  intros p. unfold after, consume_spaces.
  destruct (consume_spaces_loop _ _ _ _). advances_same.
Qed.

Lemma advances_try_consume_literal l : respects advances (try_consume_literal l).
Proof.
  intros p. unfold after, try_consume_literal.
  destruct (match_literal _ _ _); advances_same.
Qed.

Lemma advances_consume_rest : respects advances consume_rest.
Proof.
  intros p. unfold after, consume_rest. destruct (substr _ _ _); advances_same.
Qed.

Create HintDb advances.
#[local] Hint Resolve advances_add_content advances_add_reasoning_content
  advances_add_tool_call advances_modify_set_pos advances_modify_set_last_xml_error
  advances_consume_spaces advances_try_consume_literal advances_consume_rest : advances.
#[local] Hint Extern 1 (respects advances (ret _)) =>
  apply (respects_ret advances advances_refl) : advances.
#[local] Hint Extern 1 (respects advances (throw _)) =>
  apply (respects_throw advances advances_refl) : advances.
#[local] Hint Extern 1 (respects advances (lift _)) =>
  apply (respects_lift advances advances_refl) : advances.
#[local] Hint Extern 1 (respects advances (gets _)) =>
  apply (respects_gets advances advances_refl) : advances.
#[local] Hint Extern 1 (respects advances finish) =>
  apply (respects_finish advances advances_refl) : advances.
#[local] Hint Extern 1 (respects advances (move_to _)) =>
  apply advances_modify_set_pos : advances.

Ltac solve_advances :=
  repeat first
    [ progress auto with advances
    | apply (respects_bind advances advances_trans); [|intros ?]
    | apply respects_if
    | match goal with
      | |- respects advances (match ?x with _ => _ end) => destruct x
      end ].

Lemma clear_tools_or_not op : op = op_clear_tools \/ op <> op_clear_tools.
Proof. destruct op; first [left; reflexivity|right; discriminate]. Qed.

Section Advances.

Context {E : External}.

Lemma advances_consume_literal l : respects advances (consume_literal l).
Proof. unfold consume_literal. solve_advances. Qed.

Lemma advances_add_tool_call_json j : respects advances (add_tool_call_json j).
Proof. unfold add_tool_call_json. solve_advances. Qed.

Lemma advances_add_tool_calls_items items : respects advances (add_tool_calls_items items).
Proof.
  induction items as [|item rest IH]; cbn [add_tool_calls_items]; [solve_advances|].
  apply (respects_bind advances advances_trans); [apply advances_add_tool_call_json|].
  intros [|]; [exact IH|solve_advances].
Qed.

Lemma advances_try_find_literal l : respects advances (try_find_literal l).
Proof.
  apply respects_pointwise. intros p. unfold try_find_literal.
  destruct (Str.find (input_ p) l (pos_ p)).
  - eexists. split; [reflexivity|]. solve_advances.
  - destruct (is_partial_ p); [|exists (ret None); split; [reflexivity|solve_advances]].
    destruct (string_find_partial_stop (input_ p) l);
      [|exists (ret None); split; [reflexivity|solve_advances]].
    destruct (pos_ p <=? n); [|exists (ret None); split; [reflexivity|solve_advances]].
    eexists. split; [reflexivity|]. solve_advances.
Qed.
#[local] Hint Resolve advances_try_find_literal advances_consume_literal
  advances_add_tool_call_json advances_add_tool_calls_items : advances.

Lemma advances_handle_reasoning s e r c : respects advances (handle_reasoning s e r c).
Proof. unfold handle_reasoning. solve_advances. Qed.
#[local] Hint Resolve advances_handle_reasoning : advances.

Lemma advances_try_parse_reasoning s e : respects advances (try_parse_reasoning s e).
Proof. unfold try_parse_reasoning. solve_advances. Qed.

Lemma advances_try_find_regex r f a : respects advances (try_find_regex r f a).
Proof.
  apply respects_pointwise. intros p. unfold try_find_regex.
  destruct (match_type _) eqn:Ht.
  - exists (ret None). split; [reflexivity|solve_advances].
  - eexists. split; [reflexivity|]. solve_advances.
  - eexists. split; [reflexivity|]. solve_advances.
Qed.

Lemma advances_try_consume_regex r : respects advances (try_consume_regex r).
Proof.
  intros p. unfold after, try_consume_regex.
  destruct (match_type _); [advances_same| |].
  - destruct (is_partial_ p); advances_same.
  - destruct (negb _); advances_same.
Qed.
#[local] Hint Resolve advances_try_consume_regex : advances.

Lemma advances_consume_regex r : respects advances (consume_regex r).
Proof. unfold consume_regex. solve_advances. Qed.

Lemma advances_try_consume_json : respects advances try_consume_json.
Proof.
  intros p. unfold after, try_consume_json.
  destruct (common_json_parse _ _ _) as [[pos result]|]; [|advances_same].
  destruct (String.eqb _ _); [advances_same|].
  destruct (negb _); advances_same.
Qed.
#[local] Hint Resolve advances_try_consume_json : advances.

Lemma advances_consume_json : respects advances consume_json.
Proof. unfold consume_json. solve_advances. Qed.

Lemma advances_try_consume_json_with_dumped_args a c :
  respects advances (try_consume_json_with_dumped_args a c).
Proof.
  unfold try_consume_json_with_dumped_args. solve_advances.
  intros p. unfold after. destruct (dump_args_of_partial _ _ _ _ _); advances_same.
Qed.
#[local] Hint Resolve advances_try_consume_json_with_dumped_args : advances.

Lemma advances_consume_json_with_dumped_args a c :
  respects advances (consume_json_with_dumped_args a c).
Proof. unfold consume_json_with_dumped_args. solve_advances. Qed.

Lemma advances_add_content_before content tag :
  respects advances (add_content_before content tag).
Proof. unfold add_content_before. solve_advances. Qed.
#[local] Hint Resolve advances_add_content_before : advances.

Lemma advances_parse_qwen3_xml_tool_call_error content tools error :
  respects advances (parse_qwen3_xml_tool_call_error content tools error).
Proof.
  unfold parse_qwen3_xml_tool_call_error.
  destruct (_ <? _)%N; [solve_advances|].
  destruct (_ <? _); [solve_advances|].
  destruct (find_xml_tag_at content "tool_call" 0 no_error) as [[tool_call_tag|] error1];
    [|solve_advances].
  apply (respects_bind advances advances_trans); [solve_advances|intros _].
  destruct (find_xml_tag_at _ "function" 0 error1) as [[function_tag|] error2]; [|solve_advances].
  destruct (String.eqb _ ""); [solve_advances|].
  destruct (_ || _); [solve_advances|].
  destruct (_ && _); [solve_advances|].
  destruct (find_all_xml_tags_at _ _ _) as [parameter_tags error3].
  destruct (has_error error3); [solve_advances|].
  destruct (parameters_loop _ _ _ _ _ _ _) as [arguments error4].
  destruct (json_dump _); solve_advances.
Qed.
#[local] Hint Resolve advances_parse_qwen3_xml_tool_call_error : advances.

Lemma advances_parse_qwen3_xml_tool_call content tools :
  respects advances (parse_qwen3_xml_tool_call content tools).
Proof. unfold parse_qwen3_xml_tool_call. solve_advances. Qed.

(** Every operation but [clear_tools] advances the parser. *)
Lemma exec_advances op p : op <> op_clear_tools -> advances p (exec op p).
Proof.
  intros Hop.
  destruct op; cbn [exec]; try congruence;
    first
      [ apply advances_add_content | apply advances_add_reasoning_content
      | apply advances_add_tool_call | apply advances_add_tool_call_json
      | apply advances_add_tool_calls_items
      | apply (respects_finish advances advances_refl)
      | apply advances_consume_spaces | apply advances_try_consume_literal
      | apply advances_try_find_literal | apply advances_consume_literal
      | apply advances_try_parse_reasoning | apply advances_consume_rest
      | apply advances_try_find_regex | apply advances_consume_regex
      | apply advances_try_consume_regex | apply advances_try_consume_json
      | apply advances_consume_json | apply advances_consume_json_with_dumped_args
      | apply advances_try_consume_json_with_dumped_args
      | apply advances_parse_qwen3_xml_tool_call
      | apply advances_parse_qwen3_xml_tool_call_error ].
Qed.

(** [clear_tools] empties the tool calls and touches nothing else. *)
Lemma exec_clear_tools p :
  exec op_clear_tools p = with_tool_calls [] p.
Proof. reflexivity. Qed.

(** What every operation keeps: all of [advances] but the tool calls. *)
Lemma exec_keeps_setup op p :
  input_ (exec op p) = input_ p /\
  is_partial_ (exec op p) = is_partial_ p /\
  syntax_ (exec op p) = syntax_ p /\
  healing_marker_ (exec op p) = healing_marker_ p /\
  Msg.role (result_ (exec op p)) = Msg.role (result_ p) /\
  (exists c, Msg.content (result_ (exec op p)) = Msg.content (result_ p) ++ c) /\
  (exists r, Msg.reasoning_content (result_ (exec op p))
             = Msg.reasoning_content (result_ p) ++ r).
Proof.
  destruct (clear_tools_or_not op) as [->|Hop].
  - cbn. repeat split; exists ""; now rewrite append_nil_r.
  - destruct (exec_advances op p Hop) as (H1 & H2 & H3 & H4 & H5 & H6 & H7 & _).
    repeat split; assumption.
Qed.

End Advances.

(** ** Where the cursor can go *)

Lemma substring_length_le s : forall p n, length (substring p n s) <= length s - p.
Proof.
  induction s as [|a s IH]; intros p n.
  - destruct p, n; cbn; lia.
  - destruct p as [|p]; cbn [substring].
    + destruct n as [|n]; cbn [length]; [lia|]. specialize (IH 0 n). lia.
    + cbn [length]. specialize (IH p n). lia.
Qed.

Lemma forward_same p p' : input_ p' = input_ p -> pos_ p' = pos_ p -> forward p p'.
Proof. intros H1 H2. unfold forward. rewrite H2. split; [exact H1|lia]. Qed.

Lemma forward_to pos p :
  (pos_ p <= length (input_ p) -> pos_ p <= pos /\ pos <= length (input_ p)) ->
  forward p (set_pos pos p).
Proof. intros H. unfold forward. cbn. split; [reflexivity|exact H]. Qed.

Lemma forward_add_content c : respects forward (add_content c).
Proof. intros p. now apply forward_same. Qed.

Lemma forward_add_reasoning_content c : respects forward (add_reasoning_content c).
Proof. intros p. now apply forward_same. Qed.

Lemma forward_add_tool_call name id arguments :
  respects forward (add_tool_call name id arguments).
Proof.
  intros p. unfold after, add_tool_call.
  destruct (String.eqb name ""); now apply forward_same.
Qed.

Lemma forward_modify_set_last_xml_error e :
  respects forward (modify (set_last_xml_error e)).
Proof. intros p. now apply forward_same. Qed.

Lemma forward_clear_tools : respects forward clear_tools.
Proof. intros p. now apply forward_same. Qed.

Lemma forward_consume_spaces : respects forward consume_spaces.
Proof.
  intros p. unfold after, consume_spaces.
  destruct (consume_spaces_loop _ _ _ _) as [pos' consumed] eqn:Hloop.
  apply consume_spaces_loop_spec in Hloop; [|lia].
  destruct Hloop as (Hle & _ & Hall & _).
  cbn [snd]. apply forward_to. intros H. split; [exact Hle|].
  destruct (Nat.eq_dec pos' (pos_ p)) as [->|Hne]; [exact H|].
  destruct (Hall (pos' - 1)); lia.
Qed.

Lemma forward_try_consume_literal l : respects forward (try_consume_literal l).
Proof.
  intros p. unfold after, try_consume_literal. rewrite match_literal_spec.
  destruct (String.eqb_spec (substring (pos_ p) (length l) (input_ p)) l) as [Heq|_];
    [|apply forward_refl].
  cbn [snd]. apply forward_to. intros H. split; [lia|].
  pose proof (substring_length_le (input_ p) (pos_ p) (length l)) as G.
  rewrite Heq in G. lia.
Qed.

Lemma forward_consume_rest : respects forward consume_rest.
Proof.
  intros p. unfold after, consume_rest. destruct (substr _ _ _); [|apply forward_refl].
  cbn [snd]. apply forward_to. lia.
Qed.

Create HintDb forward.
#[local] Hint Resolve forward_add_content forward_add_reasoning_content
  forward_add_tool_call forward_modify_set_last_xml_error forward_clear_tools
  forward_consume_spaces forward_try_consume_literal forward_consume_rest : forward.
#[local] Hint Extern 1 (respects forward (ret _)) =>
  apply (respects_ret forward forward_refl) : forward.
#[local] Hint Extern 1 (respects forward (throw _)) =>
  apply (respects_throw forward forward_refl) : forward.
#[local] Hint Extern 1 (respects forward (lift _)) =>
  apply (respects_lift forward forward_refl) : forward.
#[local] Hint Extern 1 (respects forward (gets _)) =>
  apply (respects_gets forward forward_refl) : forward.

Ltac solve_forward :=
  repeat first
    [ progress auto with forward
    | apply (respects_bind forward forward_trans); [|intros ?]
    | apply respects_if
    | match goal with
      | |- respects forward (match ?x with _ => _ end) => destruct x
      end ].

Section Forward.

Context {E : External}.

Lemma forward_consume_literal l : respects forward (consume_literal l).
Proof. unfold consume_literal. solve_forward. Qed.

Lemma forward_add_tool_call_json j : respects forward (add_tool_call_json j).
Proof. unfold add_tool_call_json. solve_forward. Qed.

Lemma forward_add_tool_calls_items items : respects forward (add_tool_calls_items items).
Proof.
  induction items as [|item rest IH]; cbn [add_tool_calls_items]; [solve_forward|].
  apply (respects_bind forward forward_trans); [apply forward_add_tool_call_json|].
  intros [|]; [exact IH|solve_forward].
Qed.

Lemma forward_try_find_literal l : respects forward (try_find_literal l).
Proof.
  intros p. unfold after, try_find_literal, bind, lift, substr, move_to, modify, ret.
  destruct (Str.find (input_ p) l (pos_ p)) as [idx|] eqn:Hf.
  - pose proof (index_ge _ _ _ _ Hf). pose proof (index_fits _ _ _ _ Hf).
    destruct (_ <? _); [apply forward_refl|]. cbn [snd]. apply forward_to. lia.
  - destruct (is_partial_ p); [|apply forward_refl].
    destruct (string_find_partial_stop _ _) as [idx|]; [|apply forward_refl].
    destruct (_ <=? _); [|apply forward_refl].
    destruct (_ <? _); [apply forward_refl|]. cbn [snd]. apply forward_to. lia.
Qed.
#[local] Hint Resolve forward_try_find_literal forward_consume_literal
  forward_add_tool_call_json forward_add_tool_calls_items : forward.

Lemma forward_handle_reasoning s e r c : respects forward (handle_reasoning s e r c).
Proof. unfold handle_reasoning. solve_forward. Qed.
#[local] Hint Resolve forward_handle_reasoning : forward.

Lemma forward_try_parse_reasoning s e : respects forward (try_parse_reasoning s e).
Proof. unfold try_parse_reasoning. solve_forward. Qed.

Lemma forward_add_content_before content tag :
  respects forward (add_content_before content tag).
Proof. unfold add_content_before. solve_forward. Qed.
#[local] Hint Resolve forward_add_content_before : forward.

Lemma forward_parse_qwen3_xml_tool_call_error content tools error :
  respects forward (parse_qwen3_xml_tool_call_error content tools error).
Proof.
  unfold parse_qwen3_xml_tool_call_error.
  destruct (_ <? _)%N; [solve_forward|].
  destruct (_ <? _); [solve_forward|].
  destruct (find_xml_tag_at content "tool_call" 0 no_error) as [[tool_call_tag|] error1];
    [|solve_forward].
  apply (respects_bind forward forward_trans); [solve_forward|intros _].
  destruct (find_xml_tag_at _ "function" 0 error1) as [[function_tag|] error2]; [|solve_forward].
  destruct (String.eqb _ ""); [solve_forward|].
  destruct (_ || _); [solve_forward|].
  destruct (_ && _); [solve_forward|].
  destruct (find_all_xml_tags_at _ _ _) as [parameter_tags error3].
  destruct (has_error error3); [solve_forward|].
  destruct (parameters_loop _ _ _ _ _ _ _) as [arguments error4].
  destruct (json_dump _); solve_forward.
Qed.
#[local] Hint Resolve forward_parse_qwen3_xml_tool_call_error : forward.

Lemma forward_parse_qwen3_xml_tool_call content tools :
  respects forward (parse_qwen3_xml_tool_call content tools).
Proof. unfold parse_qwen3_xml_tool_call. solve_forward. Qed.

Lemma exec_forward op p : places_cursor op = true -> forward p (exec op p).
Proof.
  intros Hop.
  destruct op; cbn [exec]; try discriminate Hop;
    first
      [ apply forward_add_content | apply forward_add_reasoning_content
      | apply forward_add_tool_call | apply forward_add_tool_call_json
      | apply forward_add_tool_calls_items | apply forward_clear_tools
      | apply (respects_finish forward forward_refl)
      | apply forward_consume_spaces | apply forward_try_consume_literal
      | apply forward_try_find_literal | apply forward_consume_literal
      | apply forward_try_parse_reasoning | apply forward_consume_rest
      | apply forward_parse_qwen3_xml_tool_call
      | apply forward_parse_qwen3_xml_tool_call_error ].
Qed.

(** X13.  The operations that place the cursor themselves (all but those that
    take its place from the regex engine or the partial-JSON parser) only
    move it forward and never past the end of the input. *)
Theorem cursor_stays_inside ops : forall p,
  forallb places_cursor ops = true ->
  pos_ p <= length (input_ p) ->
  pos_ p <= pos_ (run ops p) /\ pos_ (run ops p) <= length (input_ p).
Proof.
  induction ops as [|op ops IH]; intros p Hops Hp; [cbn; lia|].
  cbn [forallb] in Hops. apply andb_prop in Hops. destruct Hops as [Hop Hops].
  destruct (exec_forward op p Hop) as (Hin & Hpos). specialize (Hpos Hp).
  change (run (op :: ops) p) with (run ops (exec op p)).
  destruct (IH (exec op p) Hops) as (G1 & G2); [rewrite Hin; lia|].
  rewrite Hin in G2. lia.
Qed.

Lemma run_keeps_setup ops : forall p,
  input_ (run ops p) = input_ p /\
  is_partial_ (run ops p) = is_partial_ p /\
  syntax_ (run ops p) = syntax_ p /\
  healing_marker_ (run ops p) = healing_marker_ p /\
  Msg.role (result_ (run ops p)) = Msg.role (result_ p) /\
  (exists c, Msg.content (result_ (run ops p)) = Msg.content (result_ p) ++ c) /\
  (exists r, Msg.reasoning_content (result_ (run ops p))
             = Msg.reasoning_content (result_ p) ++ r).
Proof.
  induction ops as [|op ops IH]; intros p.
  - cbn. repeat split; exists ""; now rewrite append_nil_r.
  - change (run (op :: ops) p) with (run ops (exec op p)).
    destruct (IH (exec op p)) as (H1 & H2 & H3 & H4 & H5 & (c & Hc) & (r & Hr)).
    destruct (exec_keeps_setup op p) as (G1 & G2 & G3 & G4 & G5 & (c' & Hc') & (r' & Hr')).
    repeat split; try congruence.
    + exists (c' ++ c). now rewrite Hc, Hc', append_assoc.
    + exists (r' ++ r). now rewrite Hr, Hr', append_assoc.
Qed.

Lemma run_advances ops : forall p, ~ In op_clear_tools ops -> advances p (run ops p).
Proof.
  induction ops as [|op ops IH]; intros p Hno; [apply advances_refl|].
  change (run (op :: ops) p) with (run ops (exec op p)).
  apply advances_trans with (exec op p).
  - apply exec_advances. intros ->. apply Hno. now left.
  - apply IH. intros H. apply Hno. now right.
Qed.

(** X14.  Whatever operations are applied, in whatever order and whether they
    return or throw, the message only grows: the content and the reasoning
    content keep what they held and gain text at their end, and so do the
    tool calls as long as [clear_tools] is not among the operations. *)
Theorem message_is_append_only ops p :
  (exists c, Msg.content (result_ (run ops p)) = Msg.content (result_ p) ++ c) /\
  (exists r, Msg.reasoning_content (result_ (run ops p))
             = Msg.reasoning_content (result_ p) ++ r) /\
  (~ In op_clear_tools ops ->
   exists l, tool_calls_of (run ops p) = (tool_calls_of p ++ l)%list).
Proof.
  destruct (run_keeps_setup ops p) as (_ & _ & _ & _ & _ & Hc & Hr).
  split; [exact Hc|]. split; [exact Hr|].
  intros Hno. exact (proj2 (proj2 (proj2 (proj2 (proj2 (proj2 (proj2
                       (run_advances ops p Hno)))))))).
Qed.

End Forward.

Lemma pick_healing_marker_absent input ids : forall id,
  pick_healing_marker input ids = Some id ->
  Str.find input id 0 = None /\ id <> "".
Proof.
  induction ids as [|d ids IH]; intros id; cbn [pick_healing_marker]; [discriminate|].
  destruct (Str.find input d 0) as [k|] eqn:Hd; [apply IH|].
  intros [= <-]. split; [exact Hd|]. intros ->. destruct input; discriminate Hd.
Qed.

Section Setup.

Context {E : External}.

(** X15.  A parser the constructor has built keeps, through every sequence of
    operations, the input, the partial flag and the syntax it was given and
    the role [assistant]; its healing marker is not empty and never occurs
    in its input. *)
Theorem healing_marker_never_in_input input is_partial syntax ids p ops :
  construct input is_partial syntax ids = Some p ->
  input_ (run ops p) = input /\
  is_partial_ (run ops p) = is_partial /\
  syntax_ (run ops p) = syntax /\
  Msg.role (result_ (run ops p)) = "assistant" /\
  healing_marker_ (run ops p) <> "" /\
  contains_str (input_ (run ops p)) (healing_marker_ (run ops p)) = false.
Proof.
  unfold construct. destruct (pick_healing_marker input ids) as [id|] eqn:Hpick; [|discriminate].
  intros [= <-].
  destruct (pick_healing_marker_absent _ _ _ Hpick) as (Habsent & Hne).
  destruct (run_keeps_setup ops (new_parser input is_partial syntax id))
    as (H1 & H2 & H3 & H4 & H5 & _).
  rewrite H1, H2, H3, H4, H5. cbn.
  repeat split; try assumption. unfold contains_str. now rewrite Habsent.
Qed.

End Setup.

Lemma cursor_stays_inside_witness :
  pos_ (parser_on "a b" false)
  <= pos_ (@run (Reference.external [])
             [op_try_consume_literal "a"; op_consume_spaces; op_try_find_literal "b"]
             (parser_on "a b" false))
  /\ pos_ (@run (Reference.external [])
             [op_try_consume_literal "a"; op_consume_spaces; op_try_find_literal "b"]
             (parser_on "a b" false))
     <= length (input_ (parser_on "a b" false)).
Proof.
  refine (@cursor_stays_inside (Reference.external [])
            [op_try_consume_literal "a"; op_consume_spaces; op_try_find_literal "b"]
            (parser_on "a b" false) _ _).
  - reflexivity.
  - vm_compute. lia.
Defined.

Lemma message_is_append_only_witness :
  exists l,
    tool_calls_of (@run (Reference.external [])
                     [op_add_tool_call "f" "" "{}"; op_add_content "x"]
                     (parser_on "" false))
    = (tool_calls_of (parser_on "" false) ++ l)%list.
Proof.
  refine (proj2 (proj2 (@message_is_append_only (Reference.external [])
                          [op_add_tool_call "f" "" "{}"; op_add_content "x"]
                          (parser_on "" false))) _).
  intros [H|[H|[]]]; discriminate H.
Defined.

Lemma healing_marker_never_in_input_witness :
  contains_str
    (input_ (@run (Reference.external []) [op_consume_rest]
               (new_parser "a 41 b" true plain_syntax "18467")))
    (healing_marker_ (@run (Reference.external []) [op_consume_rest]
                        (new_parser "a 41 b" true plain_syntax "18467")))
  = false.
Proof.
  refine (proj2 (proj2 (proj2 (proj2 (proj2
            (@healing_marker_never_in_input (Reference.external []) "a 41 b" true plain_syntax
               ["41"; "18467"] (new_parser "a 41 b" true plain_syntax "18467")
               [op_consume_rest] _)))))).
  vm_compute. reflexivity.
Defined.

(** ** Reasoning blocks, regexes and JSON values *)

Lemma bind_ret {A B} (m : M A) (k : A -> M B) p b p' :
  bind m k p = (Ret b, p') ->
  exists a p1, m p = (Ret a, p1) /\ k a p1 = (Ret b, p').
Proof. unfold bind. destruct (m p) as [[a|e] p1]; [eauto|discriminate]. Qed.

Lemma routed_refl p : routed p p.
Proof. unfold routed. auto. Qed.

Lemma routed_trans p q r : routed p q -> routed q r -> routed p r.
Proof.
  intros (H1 & H2 & H3) (G1 & G2 & G3). unfold routed. rewrite H1 in G2, G3.
  split; [congruence|]. split; intros H.
  - rewrite G2, H2; auto.
  - rewrite G3, H3; auto.
Qed.

Lemma routed_same p p' : syntax_ p' = syntax_ p -> result_ p' = result_ p -> routed p p'.
Proof. intros H1 H2. unfold routed. rewrite H1, H2. auto. Qed.

Lemma routed_consume_spaces : respects routed consume_spaces.
Proof.
  intros p. unfold after, consume_spaces.
  destruct (consume_spaces_loop _ _ _ _). now apply routed_same.
Qed.

Lemma routed_try_consume_literal l : respects routed (try_consume_literal l).
Proof.
  intros p. unfold after, try_consume_literal.
  destruct (match_literal _ _ _); now apply routed_same.
Qed.

Lemma routed_consume_rest : respects routed consume_rest.
Proof.
  intros p. unfold after, consume_rest. destruct (substr _ _ _); now apply routed_same.
Qed.

Section Reasoning.

Context {E : External}.

Lemma routed_try_find_literal l : respects routed (try_find_literal l).
Proof.
  intros p. unfold after, try_find_literal, bind, lift, substr, move_to, modify, ret.
  destruct (Str.find (input_ p) l (pos_ p)) as [idx|].
  - destruct (_ <? _); now apply routed_same.
  - destruct (is_partial_ p); [|apply routed_refl].
    destruct (string_find_partial_stop _ _) as [idx|]; [|apply routed_refl].
    destruct (_ <=? _); [|apply routed_refl].
    destruct (_ <? _); now apply routed_same.
Qed.

Lemma routed_handle_reasoning s e r c : respects routed (handle_reasoning s e r c).
Proof.
  intros p. unfold after, handle_reasoning.
  destruct (String.eqb _ ""); [apply routed_refl|].
  unfold bind, gets, add_content, add_reasoning_content, modify, ret. cbn.
  destruct (reasoning_in_content (syntax_ p)) eqn:Hr; cbn.
  - destruct c; cbn; unfold routed; cbn; rewrite Hr;
      (split; [reflexivity|split; [discriminate|reflexivity]]).
  - unfold routed; cbn; rewrite Hr. split; [reflexivity|split; [reflexivity|discriminate]].
Qed.

Lemma routed_try_parse_reasoning s e : respects routed (try_parse_reasoning s e).
Proof.
  unfold try_parse_reasoning.
  repeat first
    [ apply (respects_ret routed routed_refl)
    | apply (respects_gets routed routed_refl)
    | apply routed_try_consume_literal
    | apply routed_try_find_literal
    | apply routed_handle_reasoning
    | apply routed_consume_spaces
    | apply routed_consume_rest
    | apply (respects_bind routed routed_trans); [|intros ?]
    | apply respects_if
    | match goal with
      | |- respects routed (match ?x with _ => _ end) => destruct x
      end ].
Qed.

(** X16.  [try_parse_reasoning] writes the reasoning text to one field only:
    the content stays as it is unless [reasoning_in_content] is set, the
    reasoning content stays as it is when it is set, and the tool calls stay
    as they are in either case, whether the call returns or throws. *)
Theorem reasoning_goes_to_one_field start_think end_think p :
  (reasoning_in_content (syntax_ p) = false ->
   Msg.content (result_ (after (try_parse_reasoning start_think end_think) p))
   = Msg.content (result_ p)) /\
  (reasoning_in_content (syntax_ p) = true ->
   Msg.reasoning_content (result_ (after (try_parse_reasoning start_think end_think) p))
   = Msg.reasoning_content (result_ p)) /\
  tool_calls_of (after (try_parse_reasoning start_think end_think) p) = tool_calls_of p.
Proof.
  destruct (routed_try_parse_reasoning start_think end_think p) as (_ & H1 & H2).
  split; [exact H1|]. split; [exact H2|]. apply keeps_try_parse_reasoning.
Qed.

(** X17.  [try_parse_reasoning] returns true exactly when the reasoning format
    is not NONE and the block is open: thinking is forced open or the input
    holds [start_think] at the cursor.  When it returns false the parser is
    as it was; when it returns true the cursor is at the end of the input or
    on a character that is not whitespace. *)
Theorem try_parse_reasoning_result start_think end_think p b p' :
  try_parse_reasoning start_think end_think p = (Ret b, p') ->
  b = match reasoning_format (syntax_ p) with
      | COMMON_REASONING_FORMAT_NONE => false
      | _ => thinking_forced_open (syntax_ p)
             || String.eqb (substring (pos_ p) (length start_think) (input_ p)) start_think
      end /\
  (b = false -> p' = p) /\
  (b = true -> pos_ p' < length (input_ p') ->
   Str.isspace (Str.at_ (input_ p') (pos_ p')) = false).
Proof.
  unfold try_parse_reasoning. intros H.
  apply bind_ret in H. destruct H as (syntax & p0 & [= <- <-] & H).
  assert (Hopen : forall inside p1,
            (if thinking_forced_open (syntax_ p) then ret true
             else try_consume_literal start_think) p = (Ret inside, p1) ->
            inside = thinking_forced_open (syntax_ p)
                     || String.eqb (substring (pos_ p) (length start_think) (input_ p))
                          start_think /\
            (inside = false -> p1 = p)).
  { intros inside p1. destruct (thinking_forced_open (syntax_ p)).
    - intros [= <- <-]. split; [reflexivity|discriminate].
    - unfold try_consume_literal. rewrite match_literal_spec.
      destruct (String.eqb _ _); intros [= <- <-]; split; auto; discriminate. }
  assert (Hbody : forall p1,
            (res <- try_find_literal end_think ;;
             match res with
             | Some res =>
                 handle_reasoning start_think end_think (prelude res) true ;;;
                 consume_spaces ;;;
                 ret true
             | None =>
                 rest <- consume_rest ;;
                 partial <- gets is_partial_ ;;
                 (if String.eqb rest "" then ret tt
                  else handle_reasoning start_think end_think rest (negb partial)) ;;;
                 ret true
             end) p1 = (Ret b, p') ->
            b = true /\
            (pos_ p' < length (input_ p') ->
             Str.isspace (Str.at_ (input_ p') (pos_ p')) = false)).
  { intros p1 Hb.
    apply bind_ret in Hb. destruct Hb as (res & p2 & _ & Hb).
    destruct res as [res|].
    - apply bind_ret in Hb. destruct Hb as (u & p3 & _ & Hb).
      apply bind_ret in Hb. destruct Hb as (c & p4 & Hs & [= <- <-]).
      split; [reflexivity|].
      unfold consume_spaces in Hs.
      destruct (consume_spaces_loop _ _ _ _) as [pos' consumed] eqn:Hloop.
      injection Hs as <- <-.
      apply consume_spaces_loop_spec in Hloop; [|lia].
      destruct Hloop as (_ & _ & _ & Hstop). exact Hstop.
    - apply bind_ret in Hb. destruct Hb as (rest & p3 & Hr & Hb).
      apply bind_ret in Hb. destruct Hb as (partial & p3' & [= <- <-] & Hb).
      apply bind_ret in Hb. destruct Hb as (u & p4 & Hh & [= <- <-]).
      split; [reflexivity|].
      unfold consume_rest in Hr. destruct (substr _ _ _) as [s|]; [|discriminate].
      injection Hr as _ Hp3. subst p3.
      assert (Hf : forward (set_pos (length (input_ p2)) p2) p4).
      { destruct (String.eqb rest ""); [injection Hh as _ <-; apply forward_refl|].
        match type of Hh with
        | handle_reasoning ?a ?b ?c ?d ?q = _ =>
            pose proof (forward_handle_reasoning a b c d q) as G
        end.
        unfold after in G. now rewrite Hh in G. }
      destruct Hf as (Hin & Hpos). cbn in Hin, Hpos. rewrite Hin. intros Hlt.
      specialize (Hpos (Nat.le_refl _)). lia. }
  destruct (reasoning_format (syntax_ p)).
  - injection H as <- <-. split; [reflexivity|]. split; [reflexivity|discriminate].
  - apply bind_ret in H. destruct H as (inside & p1 & Hi & H).
    destruct (Hopen _ _ Hi) as (Hinside & Hsame).
    destruct inside.
    + destruct (Hbody _ H) as (-> & Hstop).
      split; [exact Hinside|]. split; [discriminate|]. intros _. exact Hstop.
    + injection H as <- <-. split; [exact Hinside|]. split; [intros _; now apply Hsame|].
      discriminate.
  - apply bind_ret in H. destruct H as (inside & p1 & Hi & H).
    destruct (Hopen _ _ Hi) as (Hinside & Hsame).
    destruct inside.
    + destruct (Hbody _ H) as (-> & Hstop).
      split; [exact Hinside|]. split; [discriminate|]. intros _. exact Hstop.
    + injection H as <- <-. split; [exact Hinside|]. split; [intros _; now apply Hsame|].
      discriminate.
Qed.

(** X18.  [consume_literal] and [consume_regex] are all or nothing.  They
    return with the cursor past the literal, or past a full match that
    begins at the cursor; in every other case (no match, a partial match, a
    full match further on) they throw the partial exception that names the
    literal or the regex, and the parser is as it was. *)
Theorem consume_is_all_or_nothing :
  (forall literal p,
     consume_literal literal p
     = if String.eqb (substring (pos_ p) (length literal) (input_ p)) literal
       then (Ret tt, set_pos (pos_ p + length literal) p)
       else (Throw (partial_exception literal), p)) /\
  (forall regex p,
     consume_regex regex p
     = match match_type (search regex (input_ p) (pos_ p)) with
       | COMMON_REGEX_MATCH_TYPE_FULL =>
           if range_begin (group0 (search regex (input_ p) (pos_ p))) =? pos_ p
           then (Ret (mkFind "" (groups (search regex (input_ p) (pos_ p)))),
                 set_pos (range_end (group0 (search regex (input_ p) (pos_ p)))) p)
           else (Throw (partial_exception (regex_str regex)), p)
       | _ => (Throw (partial_exception (regex_str regex)), p)
       end).
Proof.
  split.
  - intros literal p. unfold consume_literal, bind, try_consume_literal.
    rewrite match_literal_spec. now destruct (String.eqb _ _).
  - intros regex p. unfold consume_regex, bind, try_consume_regex.
    destruct (match_type _); [reflexivity| |].
    + destruct (is_partial_ p); reflexivity.
    + now destruct (_ =? _).
Qed.

(** X19.  When the regex engine reports a match of either kind, [try_find_regex]
    first moves the cursor to the end of the match and, if asked, adds the
    prelude to the content, and only then looks at the kind: a full match is
    returned; a partial match throws on a partial input and gives None on a
    complete one, with the cursor moved and the content extended all the
    same.  The prelude is the text between the cursor and the match, or all
    the text after the cursor when the match begins before it. *)
Theorem try_find_regex_effects regex from (add : bool) p m :
  search regex (input_ p) (match from with None => pos_ p | Some f => f end) = m ->
  match_type m <> COMMON_REGEX_MATCH_TYPE_NONE ->
  pos_ p <= length (input_ p) ->
  let prelude :=
    if range_begin (group0 m) <? pos_ p
    then substring (pos_ p) (length (input_ p) - pos_ p) (input_ p)
    else substring (pos_ p) (range_begin (group0 m) - pos_ p) (input_ p) in
  let p' :=
    set_pos (range_end (group0 m)) (if add then after (add_content prelude) p else p) in
  try_find_regex regex from add p
  = (match match_type m with
     | COMMON_REGEX_MATCH_TYPE_FULL => Ret (Some (mkFind prelude (groups m)))
     | _ => if is_partial_ p then Throw (partial_exception (regex_str regex)) else Ret None
     end, p').
Proof.
  intros Hm Ht Hle prelude p'. unfold try_find_regex. rewrite Hm.
  assert (Hpre : substring (pos_ p)
                   (size_diff (length (input_ p)) (range_begin (group0 m)) (pos_ p))
                   (input_ p) = prelude).
  { subst prelude. unfold size_diff. destruct (_ <? _); [|reflexivity].
    pose proof (substring_split (input_ p) (length (input_ p) - pos_ p) (pos_ p) (pos_ p)) as G.
    replace (length (input_ p) - pos_ p + pos_ p) with (length (input_ p)) in G by lia.
    rewrite G.
    rewrite (substring_beyond (input_ p) (pos_ p + (length (input_ p) - pos_ p))) by lia.
    now rewrite append_nil_r. }
  unfold bind, lift, substr.
  replace (length (input_ p) <? pos_ p) with false by (symmetry; apply Nat.ltb_ge; lia).
  rewrite Hpre. subst p'. unfold modify, ret, gets, after, add_content. cbn.
  destruct (match_type m); [contradiction| |]; destruct add; cbn;
    try destruct (is_partial_ p); reflexivity.
Qed.

(** X20.  On a complete input [consume_json] never returns a healed value: what
    it returns is the value the partial-JSON parser read without a healing
    marker, with the cursor where that parser stopped; and when that parser
    fails it throws the partial exception for [JSON] and the parser is as it
    was. *)
Theorem consume_json_on_complete_input p :
  is_partial_ p = false ->
  (forall r p',
     consume_json p = (Ret r, p') ->
     marker (healing_marker r) = "" /\
     exists pos,
       common_json_parse (input_ p) (pos_ p) (healing_marker_ p) = Some (pos, r) /\
       p' = set_pos pos p) /\
  (common_json_parse (input_ p) (pos_ p) (healing_marker_ p) = None ->
   consume_json p = (Throw (partial_exception "JSON"), p)).
Proof.
  intros Hp. unfold consume_json, bind, try_consume_json. split.
  - intros r p'.
    destruct (common_json_parse _ _ _) as [[pos result]|]; [|discriminate].
    destruct (String.eqb_spec (marker (healing_marker result)) "") as [Hm|Hm].
    + intros [= <- <-]. split; [exact Hm|]. eauto.
    + cbn. rewrite Hp. discriminate.
  - now intros ->.
Qed.

End Reasoning.

Lemma try_parse_reasoning_result_witness :
  true = match reasoning_format (syntax_ (new_parser "<think> plan </think>  answer" false
                                    (mkSyntax COMMON_REASONING_FORMAT_DEEPSEEK false false) "797")) with
         | COMMON_REASONING_FORMAT_NONE => false
         | _ => thinking_forced_open
                  (syntax_ (new_parser "<think> plan </think>  answer" false
                              (mkSyntax COMMON_REASONING_FORMAT_DEEPSEEK false false) "797"))
                || String.eqb
                     (substring
                        (pos_ (new_parser "<think> plan </think>  answer" false
                                 (mkSyntax COMMON_REASONING_FORMAT_DEEPSEEK false false) "797"))
                        (length "<think>")
                        (input_ (new_parser "<think> plan </think>  answer" false
                                   (mkSyntax COMMON_REASONING_FORMAT_DEEPSEEK false false) "797")))
                     "<think>"
         end.
Proof.
  refine (proj1 (@try_parse_reasoning_result (Reference.external []) "<think>" "</think>"
                   (new_parser "<think> plan </think>  answer" false
                      (mkSyntax COMMON_REASONING_FORMAT_DEEPSEEK false false) "797")
                   true
                   (set_pos 23
                      (set_result (Msg.mk "assistant" "" "plan" [])
                         (new_parser "<think> plan </think>  answer" false
                            (mkSyntax COMMON_REASONING_FORMAT_DEEPSEEK false false) "797")))
                   _)).
  vm_compute. reflexivity.
Defined.

Lemma try_find_regex_effects_witness :
  @try_find_regex (literal_regex "<tool>") None true (parser_on "abc<to" true)
  = (Throw (partial_exception "<tool>"),
     set_pos 6 (set_result (Msg.mk "assistant" "abc" "" []) (parser_on "abc<to" true))).
Proof.
  refine (@try_find_regex_effects (literal_regex "<tool>") None true
            (parser_on "abc<to" true)
            (mkMatch COMMON_REGEX_MATCH_TYPE_PARTIAL [mkRange 3 6]) _ _ _).
  - vm_compute. reflexivity.
  - discriminate.
  - vm_compute. lia.
Defined.

Lemma consume_json_on_complete_input_witness :
  @consume_json (Reference.external []) (parser_on "x" false)
  = (Throw (partial_exception "JSON"), parser_on "x" false).
Proof.
  refine (proj2 (@consume_json_on_complete_input (Reference.external [])
                   (parser_on "x" false) _) _).
  - reflexivity.
  - reflexivity.
Defined.

Lemma reasoning_goes_to_one_field_witness :
  Msg.content
    (result_ (after (@try_parse_reasoning (Reference.external []) "<think>" "</think>")
                (new_parser "<think> plan </think>answer" false
                   (mkSyntax COMMON_REASONING_FORMAT_DEEPSEEK false false) "797")))
  = Msg.content
      (result_ (new_parser "<think> plan </think>answer" false
                  (mkSyntax COMMON_REASONING_FORMAT_DEEPSEEK false false) "797")).
Proof.
  refine (proj1 (@reasoning_goes_to_one_field (Reference.external []) "<think>" "</think>"
                   (new_parser "<think> plan </think>answer" false
                      (mkSyntax COMMON_REASONING_FORMAT_DEEPSEEK false false) "797")) _).
  reflexivity.
Defined.

(** ** The dumper and the healing marker *)

Lemma json_nested_ind (P : json -> Prop) :
  P JNull ->
  (forall b, P (JBool b)) ->
  (forall z, P (JInt z)) ->
  (forall l, P (JFloat l)) ->
  (forall s, P (JString s)) ->
  (forall items, Forall P items -> P (JArray items)) ->
  (forall members, Forall (fun kv => P (snd kv)) members -> P (JObject members)) ->
  forall j, P j.
Proof.
  intros Hnull Hbool Hint Hfloat Hstring Harray Hobject.
  fix IH 1. intros [| b | z | l | s | items | members].
  - exact Hnull.
  - apply Hbool.
  - apply Hint.
  - apply Hfloat.
  - apply Hstring.
  - apply Harray. induction items as [|v items IHitems]; constructor; [apply IH|exact IHitems].
  - apply Hobject. induction members as [|[k v] members IHm]; constructor;
      [apply IH|exact IHm].
Qed.

Lemma set_member_fresh key v : forall obj,
  existsb (fun kv => String.eqb (fst kv) key) obj = false ->
  Json.set_member key v obj = (obj ++ [(key, v)])%list.
Proof.
  induction obj as [|[k w] obj IH]; cbn; [reflexivity|].
  intros H. apply orb_false_elim in H. destruct H as [Hk Hrest].
  rewrite Hk, IH by exact Hrest. reflexivity.
Qed.

Lemma existsb_app_false {A} (f : A -> bool) l1 l2 :
  existsb f l1 = false -> existsb f l2 = false -> existsb f (l1 ++ l2) = false.
Proof. intros H1 H2. now rewrite existsb_app, H1, H2. Qed.

Lemma pop_push key st : pop_back (push_back key st) = st.
Proof.
  destruct st as [path found]. unfold pop_back, push_back. cbn.
  now rewrite removelast_last.
Qed.

Lemma clear_below_here paths path : clear_below paths path -> is_path_in paths path = false.
Proof. intros H. specialize (H []). now rewrite app_nil_r in H. Qed.

Lemma clear_below_push paths path key :
  clear_below paths path -> clear_below paths (path ++ [key])%list.
Proof. intros H suffix. rewrite <- app_assoc. apply H. Qed.

Section DumpWalk.

Context {E : External}.
Variable args_paths content_paths : list json_path.
Variable parser_is_partial : bool.
Variable parser_healing_marker : string.
Variable partial : common_json.

Local Notation "'walk'" :=
  (remove_unsupported_healings_and_dump_args args_paths content_paths parser_is_partial
     parser_healing_marker partial) (only parsing).

(** Off the argument and content paths the walk looks at the value itself. *)
Lemma walk_off_paths j st :
  is_arguments_path args_paths (path st) = false ->
  is_content_path content_paths (path st) = false ->
  walk j st
  = match j with
    | JObject members =>
        members_loop content_paths parser_healing_marker partial walk members [] st
    | JArray items => items_loop parser_healing_marker walk items [] st
    | _ => Ret (j, st)
    end.
Proof. intros Ha Hc. destruct j; cbn [remove_unsupported_healings_and_dump_args]; now rewrite Ha, Hc. Qed.

(** Elements the walk returns as they are go into the array as they are. *)
Lemma items_loop_kept st : forall kept arr tail,
  Forall (fun v => marker_free parser_healing_marker v = true /\ walk v st = Ret (v, st)) kept ->
  items_loop parser_healing_marker walk (kept ++ tail) arr st
  = items_loop parser_healing_marker walk tail (arr ++ kept) st.
Proof.
  induction kept as [|v kept IH]; intros arr tail Hall.
  - now rewrite app_nil_r.
  - inversion Hall as [|? ? (Hfree & Hwalk) Hall']; subst.
    cbn [app items_loop]. rewrite Hwalk.
    assert (Hstop : match v with
                    | JString str => contains_str str parser_healing_marker
                    | _ => false
                    end = false).
    { destruct v; try reflexivity. cbn in Hfree. now apply negb_true_iff in Hfree. }
    rewrite Hstop, IH by exact Hall'. now rewrite <- app_assoc.
Qed.

(** Members the walk returns as they are go into the object as they are. *)
Lemma members_loop_kept st : forall kept obj tail,
  Forall (fun kv =>
            contains_str (fst kv) parser_healing_marker = false /\
            marker_free parser_healing_marker (snd kv) = true /\
            walk (snd kv) (push_back (fst kv) st) = Ret (snd kv, push_back (fst kv) st)) kept ->
  distinct_keys kept = true ->
  Forall (fun kv => existsb (fun ow => String.eqb (fst ow) (fst kv)) obj = false) kept ->
  members_loop content_paths parser_healing_marker partial walk (kept ++ tail) obj st
  = members_loop content_paths parser_healing_marker partial walk tail (obj ++ kept) st.
Proof.
  induction kept as [|[k v] kept IH]; intros obj tail Hall Hd Hfresh.
  - now rewrite app_nil_r.
  - inversion Hall as [|? ? (Hkey & Hfree & Hwalk) Hall']; subst.
    inversion Hfresh as [|? ? Hk Hfresh']; subst.
    cbn [fst snd] in *. cbn [distinct_keys] in Hd.
    apply andb_prop in Hd. destruct Hd as [Hnew Hd]. apply negb_true_iff in Hnew.
    cbn [app members_loop]. rewrite Hkey.
    assert (Hnext : members_loop content_paths parser_healing_marker partial walk
                      (kept ++ tail) (Json.set_member k v obj) st
                    = members_loop content_paths parser_healing_marker partial walk
                        tail (obj ++ (k, v) :: kept) st).
    { rewrite (set_member_fresh _ _ _ Hk), IH; [now rewrite <- app_assoc|exact Hall'|exact Hd|].
      clear - Hfresh' Hnew. induction kept as [|[k' v'] kept IHk]; constructor.
      - inversion Hfresh'; subst. cbn [fst existsb] in *.
        apply orb_false_elim in Hnew. destruct Hnew as [Hne _].
        apply existsb_app_false; [assumption|]. cbn. now rewrite String.eqb_sym, Hne.
      - inversion Hfresh'; subst. cbn [existsb] in Hnew.
        apply orb_false_elim in Hnew. apply IHk; tauto. }
    destruct v; try (rewrite Hwalk, pop_push; exact Hnext).
    cbn in Hfree. apply negb_true_iff in Hfree. rewrite Hfree, pop_push. exact Hnext.
Qed.

(** X21.  A value that holds the healing marker in no key and in no string
    passes through the dumper as it is, and the found flag is not touched,
    as long as neither its path nor any path below it is an argument path or
    a content path. *)
Theorem marker_free_value_is_kept j : forall st,
  marker_free parser_healing_marker j = true ->
  well_keyed j = true ->
  clear_below args_paths (path st) ->
  clear_below content_paths (path st) ->
  walk j st = Ret (j, st).
Proof.
  induction j as [| b | z | l | s | items IH | members IH] using json_nested_ind;
    intros st Hfree Hkeys Ha Hc;
    rewrite walk_off_paths by (apply clear_below_here; assumption);
    try reflexivity.
  - rewrite <- (app_nil_r items) at 1. rewrite items_loop_kept; [reflexivity|].
    cbn [marker_free well_keyed] in Hfree, Hkeys.
    rewrite forallb_forall in Hfree, Hkeys. rewrite Forall_forall in IH |- *.
    intros v Hv. split; [now apply Hfree|]. apply IH; auto.
  - rewrite <- (app_nil_r members) at 1.
    cbn [marker_free well_keyed] in Hfree, Hkeys.
    apply andb_prop in Hkeys. destruct Hkeys as [Hd Hkeys].
    rewrite forallb_forall in Hfree, Hkeys. rewrite Forall_forall in IH.
    rewrite members_loop_kept; [reflexivity| |exact Hd|].
    + rewrite Forall_forall. intros [k v] Hkv. cbn [fst snd].
      specialize (Hfree _ Hkv). specialize (Hkeys _ Hkv). cbn in Hfree, Hkeys.
      apply andb_prop in Hfree. destruct Hfree as [Hk Hv]. apply negb_true_iff in Hk.
      split; [exact Hk|]. split; [exact Hv|].
      apply (IH _ Hkv); auto; cbn; now apply clear_below_push.
    + rewrite Forall_forall. intros kv _. reflexivity.
Qed.

(** X22.  The dumper cuts a value at the healing marker.  In an array, the
    elements before the first string that holds the marker are kept and the
    rest is dropped; in an object, the members before the first key that
    holds it are kept and the rest is dropped, and so it is at the first
    string member that holds it when its path is not a content path.  In
    each case the found flag is set.  (The elements and members before the
    cut are ones the walk keeps as they are.) *)
Theorem dumper_cuts_at_the_marker st :
  is_arguments_path args_paths (path st) = false ->
  is_content_path content_paths (path st) = false ->
  (forall kept s rest,
     Forall (fun v => marker_free parser_healing_marker v = true /\ walk v st = Ret (v, st))
       kept ->
     contains_str s parser_healing_marker = true ->
     walk (JArray (kept ++ JString s :: rest)) st = Ret (JArray kept, mark_found st)) /\
  (forall kept key v rest,
     Forall (fun kv =>
               contains_str (fst kv) parser_healing_marker = false /\
               marker_free parser_healing_marker (snd kv) = true /\
               walk (snd kv) (push_back (fst kv) st)
               = Ret (snd kv, push_back (fst kv) st)) kept ->
     distinct_keys kept = true ->
     (contains_str key parser_healing_marker = true ->
      walk (JObject (kept ++ (key, v) :: rest)) st = Ret (JObject kept, mark_found st)) /\
     (forall s,
        v = JString s ->
        contains_str key parser_healing_marker = false ->
        contains_str s parser_healing_marker = true ->
        is_content_path content_paths (path st ++ [key])%list = false ->
        walk (JObject (kept ++ (key, v) :: rest)) st
        = Ret (JObject kept, mark_found (push_back key st)))).
Proof.
  intros Ha Hc. split.
  - intros kept s rest Hkept Hs.
    rewrite walk_off_paths by assumption.
    rewrite items_loop_kept by exact Hkept. cbn [items_loop app]. now rewrite Hs.
  - intros kept key v rest Hkept Hd.
    assert (Hloop : walk (JObject (kept ++ (key, v) :: rest)) st
                    = members_loop content_paths parser_healing_marker partial walk
                        ((key, v) :: rest) kept st).
    { rewrite walk_off_paths by assumption.
      rewrite members_loop_kept; [reflexivity|exact Hkept|exact Hd|].
      rewrite Forall_forall. intros kv _. reflexivity. }
    split.
    + intros Hkey. rewrite Hloop. cbn [members_loop]. now rewrite Hkey.
    + intros s -> Hkey Hs Hpath. rewrite Hloop. cbn [members_loop].
      rewrite Hkey, Hs. cbn. now rewrite Hpath.
Qed.

End DumpWalk.

Lemma marker_free_value_is_kept_witness :
  @remove_unsupported_healings_and_dump_args (Reference.external []) [["arguments"]] [] true
    "797" healed_sum_call
    (JObject [("a", JInt 1); ("b", JArray [JString "x"; JObject [("c", JNull)]])])
    (mkDump ["other"] false)
  = Ret (JObject [("a", JInt 1); ("b", JArray [JString "x"; JObject [("c", JNull)]])],
         mkDump ["other"] false).
Proof.
  refine (@marker_free_value_is_kept (Reference.external []) [["arguments"]] [] true "797"
            healed_sum_call
            (JObject [("a", JInt 1); ("b", JArray [JString "x"; JObject [("c", JNull)]])])
            (mkDump ["other"] false) _ _ _ _).
  - vm_compute. reflexivity.
  - vm_compute. reflexivity.
  - intros suffix. reflexivity.
  - intros suffix. reflexivity.
Defined.

Lemma dumper_cuts_at_the_marker_witness :
  @remove_unsupported_healings_and_dump_args (Reference.external []) [["arguments"]] [] true
    "797" healed_sum_call
    (JArray ([JInt 1; JString "a"] ++ JString "b797" :: [JInt 2]))
    (mkDump [] false)
  = Ret (JArray [JInt 1; JString "a"], mark_found (mkDump [] false)).
Proof.
  refine (proj1 (@dumper_cuts_at_the_marker (Reference.external []) [["arguments"]] [] true
                   "797" healed_sum_call (mkDump [] false) _ _)
            [JInt 1; JString "a"] "b797" [JInt 2] _ _).
  - reflexivity.
  - reflexivity.
  - repeat constructor.
  - vm_compute. reflexivity.
Defined.

(** ** The dumper on a content path *)

Lemma find_in_prefix_none s pat idx :
  pat <> "" ->
  Str.find s pat 0 = Some idx ->
  Str.find (substring 0 idx s) pat 0 = None.
Proof.
  intros Hpat Hf.
  pose proof (index_fits _ _ _ _ Hf) as Hfit.
  destruct (Str.find (substring 0 idx s) pat 0) as [q|] eqn:Hq; [exfalso|reflexivity].
  pose proof (index_fits _ _ _ _ Hq) as Q1.
  pose proof (index_correct1 _ _ _ _ Hq) as Q2.
  rewrite length_substring in Q1 by lia.
  rewrite substring_substring in Q2 by lia.
  assert (0 < length pat) by (destruct pat; [contradiction|cbn; lia]).
  apply (index_correct2 _ _ _ _ Hf q); [lia|lia|exact Q2].
Qed.

Section ContentPath.

Context {E : External}.
Variable args_paths content_paths : list json_path.
Variable parser_is_partial : bool.
Variable parser_healing_marker : string.
Variable partial : common_json.

Local Notation "'walk'" :=
  (remove_unsupported_healings_and_dump_args args_paths content_paths parser_is_partial
     parser_healing_marker partial) (only parsing).

(** X23.  On a content path that is not an argument path, the dumper accepts
    a string only (anything else throws) and cuts it at the first occurrence
    of the marker of the parsed value, setting the found flag: the text it
    returns does not hold that marker.  When that marker is empty, as it is
    when nothing was healed, the cut is at offset 0: the string is returned
    empty and the found flag is set. *)
Theorem content_is_cut_at_the_marker st :
  is_arguments_path args_paths (path st) = false ->
  is_content_path content_paths (path st) = true ->
  (forall j, (forall s, j <> JString s) ->
             walk j st = Throw (runtime_error "Content path must be a string")) /\
  (forall s,
     exists text st',
       walk (JString s) st = Ret (JString text, st') /\
       ((Str.find s (marker (healing_marker partial)) 0 = None /\ text = s /\ st' = st)
        \/
        (exists idx,
           Str.find s (marker (healing_marker partial)) 0 = Some idx /\
           text = substring 0 idx s /\ st' = mark_found st)) /\
       (marker (healing_marker partial) <> "" ->
        Str.find text (marker (healing_marker partial)) 0 = None) /\
       (marker (healing_marker partial) = "" -> text = "" /\ st' = mark_found st)).
Proof.
  intros Ha Hc.
  assert (Hw : forall j, walk j st = dump_content partial j st).
  { intros j. destruct j; cbn [remove_unsupported_healings_and_dump_args]; now rewrite Ha, Hc. }
  split.
  - intros j Hj. rewrite Hw. destruct j; try reflexivity. now destruct (Hj s).
  - intros s. rewrite Hw. cbn [dump_content].
    destruct (Str.find s (marker (healing_marker partial)) 0) as [idx|] eqn:Hf.
    + exists (substring 0 idx s), (mark_found st). split; [reflexivity|]. split.
      * right. exists idx. auto.
      * split.
        -- intros Hm. now apply (find_in_prefix_none s _ idx).
        -- intros Hm. rewrite Hm in Hf. split; [|reflexivity].
           destruct s; cbn in Hf; injection Hf as <-; reflexivity.
    + exists s, st. split; [reflexivity|]. split; [left; auto|]. split.
      * intros _. exact Hf.
      * intros Hm. rewrite Hm in Hf. destruct s; discriminate Hf.
Qed.

End ContentPath.

Lemma content_is_cut_at_the_marker_witness :
  exists text st',
    @remove_unsupported_healings_and_dump_args (Reference.external []) [["arguments"]]
      [["response"]] true "797" healed_string_arguments (JString "hel797")
      (mkDump ["response"] false)
    = Ret (JString text, st') /\
    ((Str.find "hel797" (marker (healing_marker healed_string_arguments)) 0 = None
      /\ text = "hel797" /\ st' = mkDump ["response"] false)
     \/
     (exists idx,
        Str.find "hel797" (marker (healing_marker healed_string_arguments)) 0 = Some idx /\
        text = substring 0 idx "hel797" /\ st' = mark_found (mkDump ["response"] false))) /\
    (marker (healing_marker healed_string_arguments) <> "" ->
     Str.find text (marker (healing_marker healed_string_arguments)) 0 = None) /\
    (marker (healing_marker healed_string_arguments) = "" ->
     text = "" /\ st' = mark_found (mkDump ["response"] false)).
Proof.
  refine (proj2 (@content_is_cut_at_the_marker (Reference.external []) [["arguments"]]
                   [["response"]] true "797" healed_string_arguments
                   (mkDump ["response"] false) _ _) "hel797").
  - reflexivity.
  - reflexivity.
Defined.

(** ** The XML tool-call parser and the message builder *)

Lemma extended_nothing p : extended "" [] p = p.
Proof.
  destruct p as [? ? ? ? ? [] ?]. unfold extended, set_result, tool_calls_of. cbn.
  now rewrite append_nil_r, app_nil_r.
Qed.

Lemma add_content_before_extended content tool_call_tag p :
  Tag.start_pos tool_call_tag <= length content ->
  add_content_before content tool_call_tag p
  = (Ret tt, extended (substring 0 (Tag.start_pos tool_call_tag) content) [] p).
Proof.
  intros Hle. unfold add_content_before.
  replace (Tag.start_pos tool_call_tag <=? length content) with true
    by (symmetry; apply Nat.leb_le; exact Hle).
  rewrite andb_true_r.
  destruct (0 <? Tag.start_pos tool_call_tag) eqn:Hpos.
  - destruct (String.eqb_spec (substring 0 (Tag.start_pos tool_call_tag) content) "") as [->|_].
    + now rewrite extended_nothing.
    + unfold add_content, modify, extended, tool_calls_of. cbn. now rewrite app_nil_r.
  - apply Nat.ltb_ge in Hpos. replace (Tag.start_pos tool_call_tag) with 0 by lia.
    now rewrite substring_zero, extended_nothing.
Qed.

Lemma add_tool_call_extended name id arguments c p :
  name <> "" ->
  add_tool_call name id arguments (extended c [] p)
  = (Ret true, extended c [ToolCall.mk name arguments id] p).
Proof.
  intros H. rewrite add_tool_call_nonempty by exact H.
  unfold extended, with_tool_calls, tool_calls_of, set_result, set_tool_calls. cbn.
  now rewrite app_nil_r.
Qed.

Section Shape.

Context {E : External}.

(** With room left under the cap for every tag, the parameter loop never
    reports TOO_MANY_PARAMETERS. *)
Lemma parameters_loop_below_cap tags function_name param_config base :
  forall arguments param_count error arguments' e,
    parameters_loop tags function_name param_config base arguments param_count error
    = (arguments', e) ->
    param_count + List.length tags <= MAX_PARAMETER_COUNT ->
    e = error \/ type e = PARAMETER_CONVERSION_FAILED.
Proof.
  induction tags as [|tag rest IH]; intros arguments param_count error arguments' e;
    cbn [parameters_loop List.length].
  - intros [= <- <-]. auto.
  - intros H Hroom.
    replace (MAX_PARAMETER_COUNT <=? param_count) with false in H
      by (symmetry; apply Nat.leb_gt; lia).
    destruct (String.eqb _ "") in H; [apply IH in H; [exact H|lia]|].
    destruct (_ || _) in H; [apply IH in H; [exact H|lia]|].
    destruct (convert_parameter _ _ _ _) in H; (apply IH in H; [|lia]).
    + exact H.
    + destruct H as [->|H]; auto.
Qed.

Lemma existsb_eqb_in name : forall names,
  existsb (String.eqb name) names = true -> In name names.
Proof.
  induction names as [|n names IH]; cbn; [discriminate|].
  destruct (String.eqb_spec name n) as [->|_]; [now left|]. cbn. intros H. right. now apply IH.
Qed.

(** How a call of the XML parser ends, in full: it returns, with the text in
    front of the tool call added to the content and at most one tool call
    added. *)
Lemma parse_qwen3_xml_tool_call_error_shape content tools error p :
  exists b e' calls,
    parse_qwen3_xml_tool_call_error content tools error p
    = (Ret (b, e'), extended (text_before_tool_call content tools) calls p) /\
    ((b = false /\ calls = [] /\ has_error e' = true)
     \/
     (b = true /\ (type e' = NONE \/ type e' = PARAMETER_CONVERSION_FAILED) /\
      exists name args,
        calls = [ToolCall.mk name args ""] /\
        name <> "" /\
        length name <= MAX_TAG_NAME_LENGTH /\
        (tools <> [] -> In name (map Tool.name tools)))).
Proof.
  unfold parse_qwen3_xml_tool_call_error, text_before_tool_call.
  assert (Hfail : forall e c, has_error e = true ->
            exists b e' calls,
              (@ret (bool * XmlParseError) (false, e)) (extended c [] p)
              = (Ret (b, e'), extended c calls p) /\
              ((b = false /\ calls = [] /\ has_error e' = true)
               \/
               (b = true /\ (type e' = NONE \/ type e' = PARAMETER_CONVERSION_FAILED) /\
                exists name args,
                  calls = [ToolCall.mk name args ""] /\
                  name <> "" /\
                  length name <= MAX_TAG_NAME_LENGTH /\
                  (tools <> [] -> In name (map Tool.name tools))))).
  { intros e c He. exists false, e, []. split; [reflexivity|]. left. auto. }
  assert (Hfail0 : forall e, has_error e = true ->
            exists b e' calls,
              (@ret (bool * XmlParseError) (false, e)) p
              = (Ret (b, e'), extended "" calls p) /\
              ((b = false /\ calls = [] /\ has_error e' = true)
               \/
               (b = true /\ (type e' = NONE \/ type e' = PARAMETER_CONVERSION_FAILED) /\
                exists name args,
                  calls = [ToolCall.mk name args ""] /\
                  name <> "" /\
                  length name <= MAX_TAG_NAME_LENGTH /\
                  (tools <> [] -> In name (map Tool.name tools))))).
  { intros e He. specialize (Hfail e "" He). now rewrite extended_nothing in Hfail. }
  destruct (_ <? _)%N; cbn [orb]; [now apply Hfail0|].
  destruct (_ <? _); cbn [orb]; [now apply Hfail0|].
  unfold find_xml_tag_at.
  destruct (find_xml_tag content "tool_call" 0 (Some no_error))
    as [[tool_call_tag|] e1] eqn:Hfind; cbn [fst].
  2:{ apply Hfail0.
      destruct (has_error (deref e1 no_error)) eqn:Hh; [exact Hh|reflexivity]. }
  destruct (find_xml_tag_span _ _ _ _ _ _ Hfind)
    as (open_end & close_pos & _ & Ho & Hlt & _ & _ & _ & _ & _ & _ & _ & _).
  pose proof (index_fits _ _ _ _ Ho) as Hfit. cbn [length] in Hfit.
  unfold bind at 1. rewrite add_content_before_extended by lia.
  set (c := substring 0 (Tag.start_pos tool_call_tag) content).
  set (error1 := deref e1 no_error).
  destruct (find_xml_tag (Tag.content tool_call_tag) "function" 0 (Some error1))
    as [[function_tag|] e2].
  2:{ apply Hfail. destruct (has_error (deref e2 error1)) eqn:Hh; [exact Hh|reflexivity]. }
  set (error2 := deref e2 error1).
  destruct (String.eqb _ "").
  { apply Hfail. destruct (has_error error2) eqn:Hh; [exact Hh|reflexivity]. }
  set (function_name := trim_whitespace (Tag.attribute function_tag)).
  destruct (String.eqb_spec function_name "") as [|Hname]; [now apply Hfail|].
  cbn [orb].
  destruct (MAX_TAG_NAME_LENGTH <? length function_name) eqn:Hlen; [now apply Hfail|].
  apply Nat.ltb_ge in Hlen.
  destruct (negb _ && negb _) eqn:Hknown; [now apply Hfail|].
  unfold find_all_xml_tags_at.
  destruct (find_all_xml_tags (Tag.content function_tag) "parameter" (Some error2))
    as [parameter_tags e3] eqn:Hall.
  apply find_all_xml_tags_cap in Hall. destruct Hall as [Hcount _].
  set (error3 := deref e3 error2).
  destruct (has_error error3) eqn:Hh3; [now apply Hfail|].
  destruct (parameters_loop _ _ _ _ _ _ _) as [arguments error4] eqn:Hloop.
  apply parameters_loop_below_cap in Hloop; [|cbn; lia].
  destruct (json_dump _) as [args_json|e]; [|now apply Hfail].
  unfold bind. rewrite add_tool_call_extended by exact Hname.
  exists true, error4, [ToolCall.mk function_name args_json ""].
  split; [reflexivity|]. right. split; [reflexivity|]. split.
  { destruct Hloop as [->|Hloop]; [left|now right].
    unfold has_error in Hh3. now destruct (type error3). }
  exists function_name, args_json. repeat split; try assumption.
  intros Htools. destruct tools as [|t ts]; [contradiction|].
  cbn [negb andb] in Hknown. apply negb_false_iff in Hknown.
  now apply existsb_eqb_in.
Qed.

(** X24.  [parse_qwen3_xml_tool_call] never throws and never moves the cursor
    or touches the reasoning content.  It returns false with an error in
    [last_xml_error_] and the tool calls as they were, or true with one tool
    call added and [last_xml_error_] clear or PARAMETER_CONVERSION_FAILED:
    TOO_MANY_PARAMETERS never comes with success. *)
Theorem parse_qwen3_xml_tool_call_outcome content tools p :
  exists b p',
    parse_qwen3_xml_tool_call content tools p = (Ret b, p') /\
    pos_ p' = pos_ p /\
    Msg.reasoning_content (result_ p') = Msg.reasoning_content (result_ p) /\
    (b = false ->
     has_error (last_xml_error_ p') = true /\ tool_calls_of p' = tool_calls_of p) /\
    (b = true ->
     (type (last_xml_error_ p') = NONE
      \/ type (last_xml_error_ p') = PARAMETER_CONVERSION_FAILED) /\
     appended_call p p').
Proof.
  unfold parse_qwen3_xml_tool_call, bind.
  destruct (parse_qwen3_xml_tool_call_error_shape content tools no_error p)
    as (b & e' & calls & -> & Hshape).
  unfold modify, ret. cbn [fst snd].
  eexists _, _. split; [reflexivity|]. cbn.
  split; [reflexivity|]. split; [reflexivity|].
  destruct Hshape as [(-> & -> & He)|(-> & Ht & name & args & -> & Hname & _)].
  - split; [|discriminate]. intros _. split; [exact He|]. unfold tool_calls_of. cbn.
    apply app_nil_r.
  - split; [discriminate|]. intros _. split; [exact Ht|].
    exists name, args. split; [exact Hname|reflexivity].
Qed.

(** X25.  Whatever the outcome of the call, the XML parser adds to the content
    exactly the text in front of the first [tool_call] tag: a call that is
    then refused (no function tag, an unknown function, too many parameters,
    arguments that cannot be serialised) has added that text all the same. *)
Theorem text_before_tool_call_is_added content tools error p :
  Msg.content (result_ (after (parse_qwen3_xml_tool_call_error content tools error) p))
  = Msg.content (result_ p) ++ text_before_tool_call content tools.
Proof.
  unfold after.
  destruct (parse_qwen3_xml_tool_call_error_shape content tools error p)
    as (b & e' & calls & -> & _).
  reflexivity.
Qed.

(** X26.  With a list of tools that is not empty, a tool call the XML parser
    adds bears the name of one of the tools; the name is not empty, is at
    most [MAX_TAG_NAME_LENGTH] long, and the id of the call is empty. *)
Theorem tool_call_name_is_a_tool content tools error p e' p' :
  tools <> [] ->
  parse_qwen3_xml_tool_call_error content tools error p = (Ret (true, e'), p') ->
  exists name args,
    tool_calls_of p' = (tool_calls_of p ++ [ToolCall.mk name args ""])%list /\
    In name (map Tool.name tools) /\
    name <> "" /\
    length name <= MAX_TAG_NAME_LENGTH.
Proof.
  intros Htools H.
  destruct (parse_qwen3_xml_tool_call_error_shape content tools error p)
    as (b & e0 & calls & H0 & Hshape).
  rewrite H in H0. injection H0 as <- <- ->.
  destruct Hshape as [(Hb & _)|(_ & _ & name & args & -> & Hname & Hlen & Hin)];
    [discriminate|].
  exists name, args. repeat split; auto.
Qed.

(** X27.  [add_tool_call] on a JSON element adds a call only when it returns
    true: the call then has the element's [name], [id] and [arguments] (the
    empty string for a missing one) and its name is not empty.  When it
    returns false or throws, the parser is as it was; and it throws when the
    element's [arguments] is there but is not a string, even with a proper
    name and id. *)
Theorem add_tool_call_json_outcome item p :
  (forall r p',
     add_tool_call_json item p = (r, p') ->
     (r = Ret true /\
      exists call,
        decodes_to item call /\ ToolCall.name call <> "" /\
        p' = with_tool_calls (tool_calls_of p ++ [call]) p)
     \/ (r <> Ret true /\ p' = p)) /\
  (forall name id v,
     string_field item "name" = Ret name ->
     string_field item "id" = Ret id ->
     Json.at_ item "arguments" = Ret v ->
     (forall s, v <> JString s) ->
     exists e, add_tool_call_json item p = (Throw e, p)).
Proof.
  split.
  - intros r p'. unfold add_tool_call_json, bind, lift.
    destruct (string_field item "name") as [name|e] eqn:Hn;
      [|intros [= <- <-]; right; split; [discriminate|reflexivity]].
    destruct (string_field item "id") as [id|e] eqn:Hi;
      [|intros [= <- <-]; right; split; [discriminate|reflexivity]].
    destruct (string_field item "arguments") as [arguments|e] eqn:Ha;
      [|intros [= <- <-]; right; split; [discriminate|reflexivity]].
    destruct (String.eqb_spec name "") as [->|Hname].
    + rewrite add_tool_call_empty. intros [= <- <-]. right. split; [discriminate|reflexivity].
    + rewrite add_tool_call_nonempty by exact Hname. intros [= <- <-]. left.
      split; [reflexivity|]. exists (ToolCall.mk name arguments id).
      repeat split; assumption.
  - intros name id v Hn Hi Hv Hns. unfold add_tool_call_json, bind, lift.
    rewrite Hn, Hi. unfold string_field, Json.contains.
    destruct item; try discriminate Hv. cbn [Json.at_] in Hv |- *.
    destruct (Json.lookup "arguments" members) as [w|]; [|discriminate].
    injection Hv as ->. destruct v; try (eexists; reflexivity).
    exfalso. now apply (Hns s).
Qed.

(** X28.  A parameter the schema declares a boolean is coerced to one of three
    texts and the coercion does not throw: [null] for the word null, [true]
    for the word true, and [false] for anything else, the word false and text
    that is no boolean alike. *)
Theorem boolean_parameter_coercion param_value param_name param_config func_name
    param_type :
  Json.contains param_config param_name = true ->
  declared_type param_config param_name = Ret param_type ->
  param_type = "boolean" \/ param_type = "bool" ->
  convert_qwen3_param_value param_value param_name param_config func_name
  = Ret (if String.eqb (trim_whitespace param_value) "null" then "null"
         else if String.eqb (trim_whitespace param_value) "true" then "true"
         else "false").
Proof.
  intros Hc Ht Hb. unfold convert_qwen3_param_value.
  destruct (String.eqb (trim_whitespace param_value) "null"); [reflexivity|].
  rewrite Hc, Ht.
  assert (Hlit : (if is_bool_literal (trim_whitespace param_value)
                  then Ret (trim_whitespace param_value) else Ret "false")
                 = @Ret string (if String.eqb (trim_whitespace param_value) "true"
                                then "true" else "false")).
  { unfold is_bool_literal.
    destruct (String.eqb_spec (trim_whitespace param_value) "true") as [->|_]; [reflexivity|].
    destruct (String.eqb_spec (trim_whitespace param_value) "false") as [->|_]; reflexivity. }
  destruct Hb as [-> | ->]; cbn; exact Hlit.
Qed.

(** X29.  A parameter the schema declares an integer is coerced to the word
    null, to the decimal text of the number [stoll] reads when that number is
    in the range of [int], or else to the JSON string of the trimmed text: a
    number out of that range is never written as a number. *)
Theorem integer_parameter_coercion param_value param_name param_config func_name
    param_type :
  Json.contains param_config param_name = true ->
  declared_type param_config param_name = Ret param_type ->
  param_type = "integer" \/ param_type = "int" ->
  let trimmed_value := trim_whitespace param_value in
  convert_qwen3_param_value param_value param_name param_config func_name
  = if String.eqb trimmed_value "null" then Ret "null"
    else
      match stoll trimmed_value with
      | Ret temp =>
          if ((INT_MIN <=? temp) && (temp <=? INT_MAX))%Z
          then Ret (Str.to_string_Z temp)
          else dump_string trimmed_value
      | Throw _ => dump_string trimmed_value
      end.
Proof.
  intros Hc Ht Hb trimmed_value. unfold convert_qwen3_param_value. fold trimmed_value.
  destruct (String.eqb trimmed_value "null"); [reflexivity|].
  rewrite Hc, Ht.
  assert (Hint : match safe_parse_int trimmed_value with
                 | Some int_val => Ret (Str.to_string_Z int_val)
                 | None => dump_string trimmed_value
                 end
                 = match stoll trimmed_value with
                   | Ret temp =>
                       if ((INT_MIN <=? temp) && (temp <=? INT_MAX))%Z
                       then Ret (Str.to_string_Z temp)
                       else dump_string trimmed_value
                   | Throw _ => dump_string trimmed_value
                   end).
  { unfold safe_parse_int. destruct (stoll trimmed_value) as [temp|]; [|reflexivity].
    destruct (Z.gtb_spec temp INT_MAX), (Z.ltb_spec temp INT_MIN),
             (Z.leb_spec INT_MIN temp), (Z.leb_spec temp INT_MAX);
      cbn; try reflexivity; lia. }
  destruct Hb as [-> | ->]; cbn; exact Hint.
Qed.

End Shape.

Lemma tool_call_name_is_a_tool_witness :
  exists name args,
    tool_calls_of
      (with_tool_calls
         [ToolCall.mk "add" ("{" ++ Str.dq ++ "x" ++ Str.dq ++ ":3}") ""] (parser_on "" false))
    = (tool_calls_of (parser_on "" false) ++ [ToolCall.mk name args ""])%list /\
    In name (map Tool.name add_tools) /\
    name <> "" /\
    length name <= MAX_TAG_NAME_LENGTH.
Proof.
  refine (@tool_call_name_is_a_tool (Reference.external [])
            "<tool_call><function=add><parameter=x>3</parameter></function></tool_call>"
            add_tools no_error (parser_on "" false) no_error
            (with_tool_calls
               [ToolCall.mk "add" ("{" ++ Str.dq ++ "x" ++ Str.dq ++ ":3}") ""]
               (parser_on "" false)) _ _).
  - discriminate.
  - vm_compute. reflexivity.
Defined.

Lemma add_tool_call_json_outcome_witness :
  exists e,
    add_tool_call_json (JObject [("name", JString "f"); ("arguments", JObject [])])
      (parser_on "" false)
    = (Throw e, parser_on "" false).
Proof.
  refine (proj2 (add_tool_call_json_outcome
                   (JObject [("name", JString "f"); ("arguments", JObject [])])
                   (parser_on "" false))
            "f" "" (JObject []) _ _ _ _).
  - reflexivity.
  - reflexivity.
  - reflexivity.
  - discriminate.
Defined.

Lemma boolean_parameter_coercion_witness :
  @convert_qwen3_param_value (Reference.external []) " yes " "b"
    (JObject [("b", JObject [("type", JString "boolean")])]) "f"
  = Ret "false".
Proof.
  refine (@boolean_parameter_coercion (Reference.external []) " yes " "b"
            (JObject [("b", JObject [("type", JString "boolean")])]) "f" "boolean" _ _ _).
  - reflexivity.
  - reflexivity.
  - now left.
Defined.

Lemma integer_parameter_coercion_witness :
  @convert_qwen3_param_value (Reference.external []) "2147483648" "x"
    (JObject [("x", JObject [("type", JString "integer")])]) "add"
  = @dump_string (Reference.external []) "2147483648".
Proof.
  refine (@integer_parameter_coercion (Reference.external []) "2147483648" "x"
            (JObject [("x", JObject [("type", JString "integer")])]) "add" "integer" _ _ _).
  - reflexivity.
  - reflexivity.
  - now left.
Defined.

(** * Whole tool calls and whole values

    The tag scanner reads back a tool call written in the plain form, so
    what the parser does with such a call can be stated on its text. *)

(** ** More facts about [index], [substring] and [prefix] *)

Lemma index_append_offset pre pat s : forall n,
  index (length pre + n) pat (pre ++ s) = option_map (Nat.add (length pre)) (index n pat s).
Proof.
  induction pre as [|a pre IH]; intros n; cbn [length append Nat.add].
  - destruct (index n pat s); reflexivity.
  - cbn [index]. rewrite IH. destruct (index n pat s); reflexivity.
Qed.

Lemma substring_append_offset pre s : forall n m,
  substring (length pre + n) m (pre ++ s) = substring n m s.
Proof. induction pre as [|a pre IH]; intros n m; cbn; [reflexivity|apply IH]. Qed.

Lemma substring_append_left a b : forall n m,
  n + m <= length a -> substring n m (a ++ b) = substring n m a.
Proof.
  induction a as [|c a IH]; intros n m H; cbn [length] in H.
  - assert (n = 0) by lia. assert (m = 0) by lia. subst. cbn. destruct b; reflexivity.
  - destruct n as [|n]; cbn.
    + destruct m as [|m]; [reflexivity|]. f_equal. apply IH. lia.
    + apply IH. lia.
Qed.

Lemma substring_append_exact a b : substring 0 (length a) (a ++ b) = a.
Proof. rewrite substring_append_left by lia. apply substring_all. Qed.

Lemma prefix_append a b : prefix a (a ++ b) = true.
Proof.
  induction a as [|c a IH]; cbn; [destruct b; reflexivity|].
  destruct (ascii_dec c c); [exact IH|congruence].
Qed.

Lemma prefix_within pat : forall a b,
  length pat <= length a -> prefix pat (a ++ b) = prefix pat a.
Proof.
  induction pat as [|c pat IH]; intros a b H.
  - destruct a, b; reflexivity.
  - destruct a as [|x a]; cbn in H; [lia|]. cbn.
    destruct (ascii_dec c x); [|reflexivity]. apply IH. lia.
Qed.

Lemma index_zero_prefix pat s : prefix pat s = true -> index 0 pat s = Some 0.
Proof.
  destruct s as [|c s]; cbn [index].
  - destruct pat; [reflexivity|discriminate].
  - now intros ->.
Qed.

(** An occurrence found in [a] is the one found in [a ++ b]. *)
Lemma index_append_first pat b : forall a m,
  index 0 pat a = Some m -> index 0 pat (a ++ b) = Some m.
Proof.
  induction a as [|c a IH]; intros m H.
  - cbn in H. destruct pat; [|discriminate]. injection H as <-. destruct b; reflexivity.
  - cbn [index] in H. change ((String c a) ++ b) with (String c (a ++ b)). cbn [index].
    destruct (prefix pat (String c a)) eqn:Hp.
    + injection H as <-.
      pose proof (prefix_length _ _ Hp) as Hl.
      change (String c (a ++ b)) with ((String c a) ++ b).
      now rewrite (prefix_within _ _ _ Hl), Hp.
    + destruct (index 0 pat a) as [k|] eqn:Hk; [|discriminate]. injection H as <-.
      pose proof (index_fits _ _ _ _ Hk) as Hfit.
      change (String c (a ++ b)) with ((String c a) ++ b).
      rewrite prefix_within by (cbn; lia). rewrite Hp.
      now rewrite (IH _ eq_refl).
Qed.

Lemma find_char_here s c : forall n, get n s = Some c -> Str.find_char s c n = Some n.
Proof.
  unfold Str.find_char.
  induction s as [|x s IH]; intros n H; [destruct n; discriminate|].
  destruct n as [|n]; cbn in H.
  - injection H as ->. cbn. destruct (ascii_dec c c); [|congruence].
    destruct s; reflexivity.
  - cbn [index]. now rewrite (IH _ H).
Qed.

Lemma find_char_first c a b :
  lacks c a = true -> Str.find_char (a ++ String c b) c 0 = Some (length a).
Proof.
  unfold Str.find_char.
  induction a as [|x a IH]; intros H.
  - cbn. destruct (ascii_dec c c); [|congruence]. destruct b; reflexivity.
  - cbn [lacks] in H. apply andb_prop in H. destruct H as [Hx Ha].
    apply negb_true_iff in Hx. apply Ascii.eqb_neq in Hx.
    cbn. destruct (ascii_dec c x); [congruence|].
    now rewrite (IH Ha).
Qed.

Lemma lacks_append c a b : lacks c (a ++ b) = lacks c a && lacks c b.
Proof.
  induction a as [|x a IH]; cbn; [reflexivity|]. now rewrite IH, andb_assoc.
Qed.

Lemma closed_by_find close body :
  closed_by close body = true -> Str.find (body ++ close) close 0 = Some (length body).
Proof.
  unfold closed_by. destruct (Str.find _ _ _) as [m|]; [|discriminate].
  intros H. apply Nat.eqb_eq in H. now subst.
Qed.

Lemma trim_trailing_last text a n :
  Str.isspace (Str.at_ text (a + n)) = false ->
  trim_trailing (S n) text a = a + S n.
Proof. intros H. cbn [trim_trailing]. now rewrite H. Qed.

Lemma is_trim_char_space c : Str.is_trim_char c = true -> Str.isspace c = true.
Proof.
  unfold Str.is_trim_char, Str.isspace.
  destruct (nat_of_ascii c) as [|n]; [discriminate|].
  do 32 (destruct n as [|n]; [try discriminate; reflexivity|]).
  discriminate.
Qed.

(** ** The tag scanner reads back a tag written in the plain form *)

Lemma find_loop_reads fuel text tag_name open_pos open_end close_pos attr error :
  0 < fuel ->
  open_pos < length text ->
  Str.find text ("<" ++ tag_name) open_pos = Some open_pos ->
  tag_delimiter (Str.at_ text (open_pos + length ("<" ++ tag_name))) = true ->
  Str.find_char text ">"%char open_pos = Some open_end ->
  extract_attribute text tag_name open_pos open_end = inl attr ->
  Str.find text ("</" ++ tag_name ++ ">") (open_end + 1) = Some close_pos ->
  find_loop fuel text tag_name open_pos error
  = (Some (Tag.mk tag_name attr
             (substring (open_end + 1) (close_pos - (open_end + 1)) text)
             open_pos (close_pos + length ("</" ++ tag_name ++ ">"))),
     error).
Proof.
  intros Hfuel Hlt Hopen Hdelim Hend Hattr Hclose.
  destruct fuel as [|fuel]; [lia|]. cbn [find_loop].
  replace (open_pos <? length text) with true by (symmetry; apply Nat.ltb_lt; exact Hlt).
  rewrite Hopen, Hdelim. cbn [negb]. rewrite andb_false_r.
  unfold read_tag. rewrite Hend, Hattr, Hclose. reflexivity.
Qed.

Lemma extract_attribute_absent text tag_name open_pos :
  extract_attribute text tag_name open_pos (open_pos + 1 + length tag_name) = inl "".
Proof. unfold extract_attribute. now rewrite Nat.ltb_irrefl. Qed.

Lemma plain_attribute_facts attr :
  plain_attribute attr = true ->
  exists first rest,
    attr = String first rest /\
    Str.isspace first = false /\ is_quote first = false /\
    Str.isspace (Str.at_ attr (length attr - 1)) = false /\
    lacks ">"%char attr = true.
Proof.
  destruct attr as [|first rest]; [discriminate|]. unfold plain_attribute.
  intros H. repeat (apply andb_prop in H; destruct H as [H ?]).
  exists first, rest. repeat split; try (now apply negb_true_iff); assumption.
Qed.

Lemma extract_attribute_plain text tag_name open_pos attr :
  get (open_pos + 1 + length tag_name) text = Some "="%char ->
  substring (open_pos + 1 + length tag_name + 1) (length attr) text = attr ->
  plain_attribute attr = true ->
  length attr <= MAX_ATTRIBUTE_LENGTH ->
  extract_attribute text tag_name open_pos
    (open_pos + 1 + length tag_name + 1 + length attr)
  = inl attr.
Proof.
  intros Heq Hsub Hplain Hlen.
  destruct (plain_attribute_facts _ Hplain) as (first & rest & Ha & Hf1 & Hf2 & Hl & _).
  set (eq_pos := open_pos + 1 + length tag_name) in *.
  assert (Hn : length attr = S (length rest)) by (subst attr; reflexivity).
  assert (Hget : forall i, i < length attr -> get (eq_pos + 1 + i) text = get i attr).
  { intros i Hi. now apply substring_pointwise. }
  assert (Hfirst : Str.at_ text (S eq_pos) = first).
  { apply at_get. replace (S eq_pos) with (eq_pos + 1 + 0) by lia.
    rewrite Hget by lia. now subst attr. }
  assert (Hlast : Str.at_ text (S eq_pos + length rest) = Str.at_ attr (length attr - 1)).
  { unfold Str.at_ at 1 2.
    replace (S eq_pos + length rest) with (eq_pos + 1 + (length attr - 1)) by lia.
    now rewrite Hget by lia. }
  unfold extract_attribute. fold eq_pos.
  replace (eq_pos <? eq_pos + 1 + length attr) with true
    by (symmetry; apply Nat.ltb_lt; lia).
  rewrite (find_char_here _ _ _ Heq).
  replace (eq_pos <? eq_pos + 1 + length attr) with true
    by (symmetry; apply Nat.ltb_lt; lia).
  replace (eq_pos + 1 + length attr - S eq_pos) with (S (length rest)) by lia.
  cbn [skip_spaces]. rewrite Hfirst, Hf1.
  replace (S eq_pos <? eq_pos + 1 + length attr) with true
    by (symmetry; apply Nat.ltb_lt; lia).
  unfold attribute_bounds. rewrite Hfirst, Hf2.
  replace (eq_pos + 1 + length attr - S eq_pos) with (S (length rest)) by lia.
  rewrite trim_trailing_last by (now rewrite Hlast).
  replace (S eq_pos <? S eq_pos + S (length rest)) with true
    by (symmetry; apply Nat.ltb_lt; lia).
  replace (S eq_pos + S (length rest) - S eq_pos) with (length attr) by lia.
  replace (S eq_pos) with (eq_pos + 1) by lia.
  rewrite Hsub.
  replace (length attr <=? MAX_ATTRIBUTE_LENGTH) with true
    by (symmetry; apply Nat.leb_le; exact Hlen).
  reflexivity.
Qed.

Lemma find_xml_tag_reads pre tag_name attr body post error :
  let close := "</" ++ tag_name ++ ">" in
  let written := "<" ++ tag_name ++ opening_of attr ++ ">" ++ body ++ close in
  let text := pre ++ written ++ post in
  (N.of_nat (length text) <= MAX_INPUT_SIZE)%N ->
  length tag_name <= MAX_TAG_NAME_LENGTH ->
  lacks ">"%char tag_name = true ->
  attr = "" \/ (plain_attribute attr = true /\ length attr <= MAX_ATTRIBUTE_LENGTH) ->
  closed_by close body = true ->
  find_xml_tag text tag_name (length pre) error
  = (Some (Tag.mk tag_name attr body (length pre) (length pre + length written)), error).
Proof.
  intros close written text Hsize Hname Hlacks Hattr Hclosed.
  set (head := "<" ++ tag_name ++ opening_of attr).
  set (rest := body ++ close ++ post).
  assert (Htext : text = pre ++ head ++ String ">" rest).
  { unfold text, written, head, rest. cbn [append].
    rewrite !append_assoc. cbn [append]. rewrite !append_assoc. reflexivity. }
  assert (Hhead : lacks ">"%char head = true).
  { unfold head. cbn [append lacks]. rewrite lacks_append, Hlacks. cbn.
    destruct Hattr as [->|[Hp _]]; [reflexivity|].
    destruct (plain_attribute_facts _ Hp) as (f & r & -> & _ & _ & _ & Hl).
    cbn [opening_of append lacks]. exact Hl. }
  assert (Hlen : length text = length pre + length head + 1 + length rest).
  { rewrite Htext, !length_append. cbn [length]. lia. }
  assert (Hheadlen : length head = 1 + length tag_name + length (opening_of attr)).
  { unfold head. cbn [append length]. now rewrite length_append. }
  assert (Hget : forall i, get (length pre + i) text
                           = get i (head ++ String ">" rest)).
  { intros i. rewrite Htext. apply get_append_right. }
  (* the opening tag is found where it stands *)
  assert (Hopen : Str.find text ("<" ++ tag_name) (length pre) = Some (length pre)).
  { unfold Str.find. rewrite Htext.
    replace (length pre) with (length pre + 0) at 1 by lia.
    rewrite index_append_offset.
    rewrite index_zero_prefix; [cbn; f_equal; lia|].
    unfold head.
    replace ("<" ++ tag_name ++ opening_of attr)
      with (("<" ++ tag_name) ++ opening_of attr) by (cbn; reflexivity).
    rewrite append_assoc. apply prefix_append. }
  (* it is followed by '=' or '>' *)
  assert (Hafter : get (length pre + length ("<" ++ tag_name)) text
                   = Some (match attr with EmptyString => ">"%char | _ => "="%char end)).
  { rewrite Hget. unfold head.
    replace (("<" ++ tag_name ++ opening_of attr) ++ String ">" rest)
      with (("<" ++ tag_name) ++ opening_of attr ++ String ">" rest)
      by (cbn; now rewrite append_assoc).
    replace (length ("<" ++ tag_name)) with (length ("<" ++ tag_name) + 0) at 1 by lia.
    rewrite get_append_right. destruct attr; reflexivity. }
  assert (Hdelim : tag_delimiter (Str.at_ text (length pre + length ("<" ++ tag_name)))
                   = true).
  { rewrite (at_get _ _ _ Hafter). destruct attr; reflexivity. }
  (* the first '>' ends the opening tag *)
  assert (Hend : Str.find_char text ">"%char (length pre)
                 = Some (length pre + length head)).
  { unfold Str.find_char. rewrite Htext.
    replace (length pre) with (length pre + 0) at 1 by lia.
    rewrite index_append_offset.
    pose proof (find_char_first ">"%char head rest Hhead) as G.
    unfold Str.find_char in G. rewrite G. reflexivity. }
  (* the attribute *)
  assert (Hextract : extract_attribute text tag_name (length pre) (length pre + length head)
                     = inl attr).
  { destruct Hattr as [->|[Hp Hl]].
    - rewrite Hheadlen. cbn [opening_of length].
      replace (length pre + (1 + length tag_name + 0)) with (length pre + 1 + length tag_name)
        by lia.
      apply extract_attribute_absent.
    - destruct (plain_attribute_facts _ Hp) as (f & r & Ha & _).
      assert (Hop : opening_of attr = "=" ++ attr) by (now subst attr).
      rewrite Hheadlen, Hop. cbn [append length].
      replace (length pre + (1 + length tag_name + S (length attr)))
        with (length pre + 1 + length tag_name + 1 + length attr) by lia.
      apply extract_attribute_plain; [| |exact Hp|exact Hl].
      + replace (length pre + 1 + length tag_name)
          with (length pre + length ("<" ++ tag_name)) by (cbn; lia).
        rewrite Hafter. now subst attr.
      + rewrite Htext.
        replace (length pre + 1 + length tag_name + 1)
          with (length pre + (length ("<" ++ tag_name ++ "=") + 0))
          by (cbn [append length]; rewrite length_append; cbn; lia).
        rewrite substring_append_offset. unfold head. rewrite Hop.
        replace (("<" ++ tag_name ++ "=" ++ attr) ++ String ">" rest)
          with (("<" ++ tag_name ++ "=") ++ attr ++ String ">" rest)
          by (cbn; now rewrite !append_assoc).
        rewrite substring_append_offset. apply substring_append_exact. }
  (* the closing tag *)
  assert (Htext2 : text = (pre ++ head ++ ">") ++ rest).
  { rewrite Htext, !append_assoc. reflexivity. }
  assert (Hlen2 : length (pre ++ head ++ ">") = length pre + length head + 1).
  { rewrite !length_append. cbn. lia. }
  assert (Hclose : Str.find text close (length pre + length head + 1)
                   = Some (length pre + length head + 1 + length body)).
  { unfold Str.find. rewrite Htext2, <- Hlen2.
    replace (length (pre ++ head ++ ">")) with (length (pre ++ head ++ ">") + 0) at 1 by lia.
    rewrite index_append_offset. unfold rest. rewrite <- (append_assoc body close post).
    rewrite (index_append_first _ _ _ _ (closed_by_find _ _ Hclosed)). reflexivity. }
  assert (Hcontent : substring (length pre + length head + 1) (length body) text = body).
  { rewrite Htext2, <- Hlen2.
    replace (length (pre ++ head ++ ">")) with (length (pre ++ head ++ ">") + 0) at 1 by lia.
    rewrite substring_append_offset. apply substring_append_exact. }
  unfold find_xml_tag.
  replace (MAX_INPUT_SIZE <? N.of_nat (length text))%N with false
    by (symmetry; apply N.ltb_ge; exact Hsize).
  replace (MAX_TAG_NAME_LENGTH <? length tag_name) with false
    by (symmetry; apply Nat.ltb_ge; exact Hname).
  replace (length text <=? length pre) with false by (symmetry; apply Nat.leb_gt; lia).
  rewrite (find_loop_reads (length text) text tag_name (length pre) (length pre + length head)
             (length pre + length head + 1 + length body) attr error);
    [|lia|lia|exact Hopen|exact Hdelim|exact Hend|exact Hextract|exact Hclose].
  replace (length pre + length head + 1 + length body - (length pre + length head + 1))
    with (length body) by lia.
  rewrite Hcontent. do 3 f_equal.
  unfold written. fold close.
  replace ("<" ++ tag_name ++ opening_of attr ++ ">" ++ body ++ close)
    with (head ++ ">" ++ body ++ close)
    by (unfold head; cbn; now rewrite !append_assoc).
  rewrite !length_append. cbn [length]. lia.
Qed.

Lemma plain_parameter_facts kv :
  plain_parameter kv = true ->
  plain_attribute (fst kv) = true /\
  length (fst kv) <= MAX_TAG_NAME_LENGTH /\
  closed_by "</parameter>" (snd kv) = true.
Proof.
  unfold plain_parameter. intros H.
  apply andb_prop in H. destruct H as [H Hc].
  apply andb_prop in H. destruct H as [Hp Hl].
  apply Nat.leb_le in Hl. auto.
Qed.

Lemma parameter_text_written kv :
  plain_attribute (fst kv) = true ->
  parameter_text kv
  = "<" ++ "parameter" ++ opening_of (fst kv) ++ ">" ++ snd kv ++ "</" ++ "parameter" ++ ">".
Proof.
  intros H. destruct (plain_attribute_facts _ H) as (f & r & Hk & _).
  unfold parameter_text. rewrite Hk. reflexivity.
Qed.

Lemma length_parameter_tags params : forall pos,
  List.length (parameter_tags pos params) = List.length params.
Proof. induction params as [|kv rest IH]; intros pos; cbn; [reflexivity|now rewrite IH]. Qed.

(** The scan of the parameters of a call finds one tag for each, in order. *)
Lemma find_all_loop_reads text error : forall params pre fuel tag_count tags,
  text = pre ++ parameters_text params ->
  (N.of_nat (length text) <= MAX_INPUT_SIZE)%N ->
  forallb plain_parameter params = true ->
  List.length params <= fuel ->
  tag_count + List.length params <= MAX_PARAMETER_COUNT ->
  find_all_loop fuel text "parameter" (length pre) tag_count tags error
  = ((tags ++ parameter_tags (length pre) params)%list, length text,
     tag_count + List.length params, error).
Proof.
  induction params as [|kv rest IH]; intros pre fuel tag_count tags Htext Hsize Hall Hfuel Hcap.
  - cbn [parameters_text] in Htext. rewrite append_nil_r in Htext. subst text.
    cbn [parameter_tags List.length]. rewrite app_nil_r, Nat.add_0_r.
    destruct fuel as [|fuel]; [reflexivity|]. cbn [find_all_loop].
    now rewrite Nat.ltb_irrefl.
  - cbn [forallb] in Hall. apply andb_prop in Hall. destruct Hall as [Hkv Hall].
    destruct (plain_parameter_facts _ Hkv) as (Hp & Hl & Hc).
    cbn [List.length] in Hfuel, Hcap.
    destruct fuel as [|fuel]; [lia|]. cbn [find_all_loop].
    assert (Hlen : length text
                   = length pre + length (parameter_text kv) + length (parameters_text rest)).
    { rewrite Htext. cbn [parameters_text]. rewrite !length_append. lia. }
    assert (Hpos : 0 < length (parameter_text kv)).
    { unfold parameter_text. cbn. lia. }
    replace (length pre <? length text) with true by (symmetry; apply Nat.ltb_lt; lia).
    replace (tag_count <? MAX_PARAMETER_COUNT) with true
      by (symmetry; apply Nat.ltb_lt; lia).
    cbn [andb].
    assert (Htag : find_xml_tag text "parameter" (length pre) error
                   = (Some (Tag.mk "parameter" (fst kv) (snd kv) (length pre)
                              (length pre + length (parameter_text kv))), error)).
    { rewrite (parameter_text_written _ Hp).
      assert (Htext' : text = pre ++ ("<" ++ "parameter" ++ opening_of (fst kv) ++ ">"
                                        ++ snd kv ++ "</" ++ "parameter" ++ ">")
                                  ++ parameters_text rest).
      { rewrite Htext. cbn [parameters_text]. now rewrite (parameter_text_written _ Hp). }
      rewrite Htext' at 1.
      apply (find_xml_tag_reads pre "parameter" (fst kv) (snd kv) (parameters_text rest) error).
      - now rewrite <- Htext'.
      - unfold MAX_TAG_NAME_LENGTH. cbn. lia.
      - reflexivity.
      - right. split; [exact Hp|]. unfold MAX_ATTRIBUTE_LENGTH. unfold MAX_TAG_NAME_LENGTH in Hl.
        lia.
      - exact Hc. }
    rewrite Htag. cbn [Tag.end_pos].
    replace (length pre + length (parameter_text kv))
      with (length (pre ++ parameter_text kv)) by apply length_append.
    rewrite (IH (pre ++ parameter_text kv) fuel (S tag_count));
      [|rewrite Htext; cbn [parameters_text]; now rewrite append_assoc
       |exact Hsize|exact Hall|lia|lia].
    cbn [parameter_tags List.length]. rewrite <- app_assoc. cbn [app].
    rewrite length_append.
    replace (S tag_count + List.length rest) with (tag_count + S (List.length rest)) by lia.
    reflexivity.
Qed.

Lemma find_all_xml_tags_reads params error :
  (N.of_nat (length (parameters_text params)) <= MAX_INPUT_SIZE)%N ->
  forallb plain_parameter params = true ->
  List.length params < MAX_PARAMETER_COUNT ->
  find_all_xml_tags (parameters_text params) "parameter" error
  = (parameter_tags 0 params, error).
Proof.
  intros Hsize Hall Hcount. unfold find_all_xml_tags.
  pose proof (find_all_loop_reads (parameters_text params) error params "" MAX_PARAMETER_COUNT
                0 [] eq_refl Hsize Hall ltac:(lia) ltac:(lia)) as G.
  cbn [app Nat.add length] in G. rewrite G.
  replace (MAX_PARAMETER_COUNT <=? List.length params) with false
    by (symmetry; apply Nat.leb_gt; exact Hcount).
  reflexivity.
Qed.

(** A plain name is left alone by [trim_whitespace]. *)
Lemma trim_whitespace_plain a : plain_attribute a = true -> trim_whitespace a = a.
Proof.
  intros H. destruct (plain_attribute_facts _ H) as (f & r & Ha & Hf & _ & Hl & _).
  assert (Hlt : length a - 1 < length a) by (subst a; cbn; lia).
  destruct (get_lt_some _ _ Hlt) as [l Hget].
  apply (trim_whitespace_fixed a f l).
  - now subst a.
  - destruct (Str.is_trim_char f) eqn:Ht; [|reflexivity].
    apply is_trim_char_space in Ht. congruence.
  - exact Hget.
  - destruct (Str.is_trim_char l) eqn:Ht; [|reflexivity].
    apply is_trim_char_space in Ht. rewrite (at_get _ _ _ Hget) in Hl. congruence.
Qed.

Section Reads.

Context {E : External}.

(** What the parser does with a tool call written in the plain form: the
    three scans read it back, the loop runs over the tags of its parameters,
    and the call ends on the serialisation of the arguments. *)
Lemma parse_qwen3_xml_tool_call_error_reads function_name params tools error p :
  plain_call function_name params tools = true ->
  parse_qwen3_xml_tool_call_error (tool_call_text function_name params) tools error p
  = let '(arguments, error') :=
      parameters_loop (parameter_tags 0 params) function_name
        (get_param_config function_name tools) 0 [] 0 no_error in
    match json_dump (JObject arguments) with
    | Ret args_json =>
        (Ret (true, error'),
         with_tool_calls (tool_calls_of p ++ [ToolCall.mk function_name args_json ""]) p)
    | Throw e =>
        (Ret (false,
              mkError JSON_SERIALIZATION_FAILED 0 function_name
                ("Failed to serialize arguments for function '" ++ function_name ++ "': "
                   ++ what e)),
         p)
    end.
Proof.
  unfold plain_call. intros H.
  apply andb_prop in H. destruct H as [H Hknown].
  apply andb_prop in H. destruct H as [H Htools].
  apply andb_prop in H. destruct H as [H Hsize].
  apply andb_prop in H. destruct H as [H Hcall].
  apply andb_prop in H. destruct H as [H Hfun].
  apply andb_prop in H. destruct H as [H Hcount].
  apply andb_prop in H. destruct H as [H Hall].
  apply andb_prop in H. destruct H as [Hplain Hlen].
  apply Nat.leb_le in Hlen, Htools. apply Nat.ltb_lt in Hcount. apply N.leb_le in Hsize.
  set (content := tool_call_text function_name params) in *.
  assert (Hc1 : content = "" ++ ("<" ++ "tool_call" ++ opening_of "" ++ ">"
                                   ++ function_text function_name params
                                   ++ "</" ++ "tool_call" ++ ">") ++ "").
  { unfold content, tool_call_text. cbn [append opening_of].
    now rewrite append_nil_r. }
  pose proof (find_xml_tag_reads "" "tool_call" "" (function_text function_name params) ""
                (Some no_error)) as H1.
  cbv zeta in H1. rewrite <- Hc1 in H1.
  specialize (H1 Hsize ltac:(unfold MAX_TAG_NAME_LENGTH; cbn; lia) eq_refl
                (or_introl eq_refl) Hcall).
  cbn [length Nat.add] in H1.
  destruct (plain_attribute_facts _ Hplain) as (f & r & Hname & _).
  assert (Hne : function_name <> "") by (rewrite Hname; discriminate).
  set (body := function_text function_name params) in *.
  assert (Hlen1 : length body <= length content).
  { unfold content, tool_call_text. fold body. cbn [append length].
    rewrite !length_append. lia. }
  assert (Hc2 : body = "" ++ ("<" ++ "function" ++ opening_of function_name ++ ">"
                                ++ parameters_text params ++ "</" ++ "function" ++ ">")
                           ++ "").
  { unfold body, function_text. rewrite Hname. cbn [append opening_of].
    now rewrite append_nil_r. }
  pose proof (find_xml_tag_reads "" "function" function_name (parameters_text params) ""
                (Some no_error)) as H2.
  cbv zeta in H2. rewrite <- Hc2 in H2.
  assert (Hattr : length function_name <= MAX_ATTRIBUTE_LENGTH).
  { unfold MAX_ATTRIBUTE_LENGTH. unfold MAX_TAG_NAME_LENGTH in Hlen. lia. }
  specialize (H2 ltac:(lia) ltac:(unfold MAX_TAG_NAME_LENGTH; cbn; lia) eq_refl
                (or_intror (conj Hplain Hattr)) Hfun).
  cbn [length Nat.add] in H2.
  assert (Hlen2 : length (parameters_text params) <= length body).
  { unfold body, function_text. cbn [append length]. rewrite length_append.
    cbn [length]. rewrite length_append. lia. }
  assert (H3 : find_all_xml_tags (parameters_text params) "parameter" (Some no_error)
               = (parameter_tags 0 params, Some no_error)).
  { apply find_all_xml_tags_reads; [lia|exact Hall|exact Hcount]. }
  unfold parse_qwen3_xml_tool_call_error. fold content.
  replace (MAX_INPUT_SIZE <? N.of_nat (length content))%N with false
    by (symmetry; apply N.ltb_ge; exact Hsize).
  replace (MAX_PARAMETER_COUNT <? List.length tools) with false
    by (symmetry; apply Nat.ltb_ge; exact Htools).
  unfold find_xml_tag_at. rewrite H1. cbn [deref Tag.content Tag.start_pos].
  unfold bind at 1. unfold add_content_before. cbn [Tag.start_pos].
  rewrite Nat.ltb_irrefl. cbn [andb]. unfold ret at 1. fold body. rewrite H2. cbn [deref Tag.attribute Tag.content Tag.start_pos].
  destruct (String.eqb_spec function_name ""); [contradiction|].
  rewrite (trim_whitespace_plain _ Hplain).
  destruct (String.eqb_spec function_name ""); [contradiction|].
  replace (MAX_TAG_NAME_LENGTH <? length function_name) with false
    by (symmetry; apply Nat.ltb_ge; exact Hlen).
  cbn [orb].
  assert (Hk : negb match tools with [] => true | _ => false end
               && negb (existsb (String.eqb function_name) (map Tool.name tools)) = false).
  { destruct tools; [reflexivity|]. cbn [negb andb]. now rewrite Hknown. }
  rewrite Hk.
  unfold find_all_xml_tags_at. rewrite H3. cbn [deref has_error no_error type].
  cbn [Nat.add].
  destruct (parameters_loop _ _ _ _ _ _ _) as [arguments error'].
  destruct (json_dump (JObject arguments)) as [args_json|e].
  - unfold bind. rewrite add_tool_call_nonempty by exact Hne. reflexivity.
  - reflexivity.
Qed.

End Reads.

(** ** trim_whitespace, stated on the text *)

Lemma find_first_not_of_trim lead s :
  only_trim_chars lead = true ->
  Str.find_first_not_of Str.is_trim_char (lead ++ s)
  = option_map (Nat.add (length lead)) (Str.find_first_not_of Str.is_trim_char s).
Proof.
  induction lead as [|c lead IH]; intros H.
  - cbn. destruct (Str.find_first_not_of Str.is_trim_char s); reflexivity.
  - cbn [only_trim_chars] in H. apply andb_prop in H. destruct H as [Hc H].
    cbn [append Str.find_first_not_of length]. rewrite Hc, (IH H).
    destruct (Str.find_first_not_of Str.is_trim_char s); reflexivity.
Qed.

Lemma find_first_not_of_only_trim s :
  only_trim_chars s = true -> Str.find_first_not_of Str.is_trim_char s = None.
Proof.
  induction s as [|c s IH]; intros H; [reflexivity|].
  cbn [only_trim_chars] in H. apply andb_prop in H. destruct H as [Hc H].
  cbn [Str.find_first_not_of]. now rewrite Hc, (IH H).
Qed.

Lemma find_last_not_of_only_trim s :
  only_trim_chars s = true -> Str.find_last_not_of Str.is_trim_char s = None.
Proof.
  induction s as [|c s IH]; intros H; [reflexivity|].
  cbn [only_trim_chars] in H. apply andb_prop in H. destruct H as [Hc H].
  cbn [Str.find_last_not_of]. now rewrite (IH H), Hc.
Qed.

Lemma find_last_not_of_append pred a b :
  Str.find_last_not_of pred (a ++ b)
  = match Str.find_last_not_of pred b with
    | Some i => Some (length a + i)
    | None => Str.find_last_not_of pred a
    end.
Proof.
  induction a as [|c a IH]; cbn [append Str.find_last_not_of length].
  - destruct (Str.find_last_not_of pred b); reflexivity.
  - rewrite IH. destruct (Str.find_last_not_of pred b); reflexivity.
Qed.

Lemma only_trim_chars_append a b :
  only_trim_chars (a ++ b) = only_trim_chars a && only_trim_chars b.
Proof. induction a as [|c a IH]; cbn; [reflexivity|]. now rewrite IH, andb_assoc. Qed.

(** Text between trimmed characters is what [trim_whitespace] returns. *)
Lemma trim_whitespace_core lead core trail :
  only_trim_chars lead = true ->
  only_trim_chars trail = true ->
  clean_ended core = true ->
  trim_whitespace (lead ++ core ++ trail) = core.
Proof.
  intros Hlead Htrail Hcore. unfold trim_whitespace.
  rewrite (find_first_not_of_trim _ _ Hlead).
  destruct core as [|first rest].
  - cbn [append]. now rewrite (find_first_not_of_only_trim _ Htrail).
  - cbn [clean_ended] in Hcore. apply andb_prop in Hcore. destruct Hcore as [Hf Hl].
    apply negb_true_iff in Hf, Hl.
    cbn [append Str.find_first_not_of]. rewrite Hf. cbn [option_map].
    change (String first (rest ++ trail)) with (String first rest ++ trail).
    rewrite !find_last_not_of_append, (find_last_not_of_only_trim _ Htrail).
    assert (Hlt : length (String first rest) - 1 < length (String first rest)) by (cbn; lia).
    destruct (get_lt_some _ _ Hlt) as [last Hget].
    rewrite (at_get _ _ _ Hget) in Hl.
    rewrite (find_last_not_of_last _ _ _ Hget Hl).
    replace (length lead + (length (String first rest) - 1) - (length lead + 0) + 1)
      with (length (String first rest)) by (cbn; lia).
    rewrite substring_append_offset. apply substring_append_exact.
Qed.

(** ** The parameter loop over the tags of a plain call *)

Lemma parameter_tags_app l1 : forall pos l2,
  parameter_tags pos (l1 ++ l2)
  = (parameter_tags pos l1
     ++ parameter_tags (pos + length (parameters_text l1)) l2)%list.
Proof.
  induction l1 as [|kv l1 IH]; intros pos l2; cbn [app parameter_tags parameters_text].
  - cbn. now rewrite Nat.add_0_r.
  - rewrite IH, length_append, Nat.add_assoc. reflexivity.
Qed.

Lemma lookup_set_member_same key v : forall members,
  Json.lookup key (Json.set_member key v members) = Some v.
Proof.
  induction members as [|[k w] members IH]; cbn.
  - now rewrite String.eqb_refl.
  - destruct (String.eqb k key) eqn:Hk; cbn; now rewrite Hk.
Qed.

Lemma lookup_set_member_other key key' v : forall members,
  key' <> key ->
  Json.lookup key (Json.set_member key' v members) = Json.lookup key members.
Proof.
  intros members Hne.
  assert (Hk : String.eqb key' key = false) by (now apply String.eqb_neq).
  induction members as [|[k w] members IH]; cbn.
  - now rewrite Hk.
  - destruct (String.eqb k key') eqn:Hk'; cbn.
    + apply String.eqb_eq in Hk'. subst k. now rewrite Hk.
    + now rewrite IH.
Qed.

Section Loop.

Context {E : External}.

(** One turn of the loop on the tag of a plain parameter. *)
Lemma parameters_loop_plain kv pos rest function_name param_config base arguments
    param_count error :
  plain_parameter kv = true ->
  param_count < MAX_PARAMETER_COUNT ->
  parameters_loop
    (Tag.mk "parameter" (fst kv) (snd kv) pos (pos + length (parameter_text kv)) :: rest)
    function_name param_config base arguments param_count error
  = match convert_parameter (snd kv) (fst kv) param_config function_name with
    | Ret v =>
        parameters_loop rest function_name param_config base
          (Json.set_member (fst kv) v arguments) (S param_count) error
    | Throw e =>
        parameters_loop rest function_name param_config base
          (Json.set_member (fst kv) (JString (trim_whitespace (snd kv))) arguments)
          (S param_count)
          (mkError PARAMETER_CONVERSION_FAILED (base + pos) (fst kv ++ "=" ++ snd kv)
             ("Failed to convert parameter '" ++ fst kv ++ "': " ++ what e))
    end.
Proof.
  intros Hkv Hcount.
  destruct (plain_parameter_facts _ Hkv) as (Hp & Hl & _).
  destruct (plain_attribute_facts _ Hp) as (f & r & Hk & _).
  assert (Hne : fst kv <> "") by (rewrite Hk; discriminate).
  cbn [parameters_loop Tag.attribute Tag.content Tag.start_pos].
  replace (MAX_PARAMETER_COUNT <=? param_count) with false
    by (symmetry; apply Nat.leb_gt; exact Hcount).
  destruct (String.eqb_spec (fst kv) ""); [contradiction|].
  rewrite (trim_whitespace_plain _ Hp).
  destruct (String.eqb_spec (fst kv) ""); [contradiction|].
  replace (MAX_TAG_NAME_LENGTH <? length (fst kv)) with false
    by (symmetry; apply Nat.ltb_ge; exact Hl).
  cbn [orb]. reflexivity.
Qed.

(** The loop over two runs of plain parameters is the loop over the second
    run, started where the loop over the first ends. *)
Lemma parameters_loop_app function_name param_config base : forall l1 pos tail arguments
    param_count error,
  forallb plain_parameter l1 = true ->
  param_count + List.length l1 <= MAX_PARAMETER_COUNT ->
  parameters_loop (parameter_tags pos l1 ++ tail) function_name param_config base
    arguments param_count error
  = let '(arguments1, error1) :=
      parameters_loop (parameter_tags pos l1) function_name param_config base
        arguments param_count error in
    parameters_loop tail function_name param_config base arguments1
      (param_count + List.length l1) error1.
Proof.
  induction l1 as [|kv l1 IH]; intros pos tail arguments param_count error Hall Hcap.
  - cbn. now rewrite Nat.add_0_r.
  - cbn [forallb] in Hall. apply andb_prop in Hall. destruct Hall as [Hkv Hall].
    cbn [List.length] in Hcap.
    cbn [parameter_tags app].
    rewrite !parameters_loop_plain by (exact Hkv || lia).
    cbn [List.length]. replace (param_count + S (List.length l1))
      with (S param_count + List.length l1) by lia.
    destruct (convert_parameter _ _ _ _); apply IH; (exact Hall || lia).
Qed.

(** A key that none of the parameters bears keeps its value. *)
Lemma parameters_loop_lookup key function_name param_config base : forall l pos arguments
    param_count error arguments' error',
  forallb plain_parameter l = true ->
  param_count + List.length l <= MAX_PARAMETER_COUNT ->
  ~ In key (map fst l) ->
  parameters_loop (parameter_tags pos l) function_name param_config base
    arguments param_count error = (arguments', error') ->
  Json.lookup key arguments' = Json.lookup key arguments.
Proof.
  induction l as [|kv l IH]; intros pos arguments param_count error arguments' error'
    Hall Hcap Hnot H.
  - cbn in H. now injection H as <- _.
  - cbn [forallb] in Hall. apply andb_prop in Hall. destruct Hall as [Hkv Hall].
    cbn [List.length] in Hcap. cbn [map In] in Hnot.
    cbn [parameter_tags] in H. rewrite parameters_loop_plain in H by (exact Hkv || lia).
    destruct (convert_parameter _ _ _ _); apply IH in H; try (exact Hall || lia || tauto);
      rewrite H; apply lookup_set_member_other; tauto.
Qed.

(** Once a conversion has failed the slot holds a conversion failure to the
    end of the loop. *)
Lemma parameters_loop_failed tags function_name param_config base arguments param_count
    error arguments' error' :
  type error = PARAMETER_CONVERSION_FAILED ->
  param_count + List.length tags <= MAX_PARAMETER_COUNT ->
  parameters_loop tags function_name param_config base arguments param_count error
  = (arguments', error') ->
  type error' = PARAMETER_CONVERSION_FAILED.
Proof.
  intros Ht Hcap H.
  destruct (parameters_loop_below_cap _ _ _ _ _ _ _ _ _ H Hcap) as [->|H']; assumption.
Qed.

End Loop.

(** Every text is some trimmed characters, a text without them at either
    end, and some trimmed characters. *)
Lemma trailing_decomposition s :
  exists body trail,
    s = body ++ trail /\ only_trim_chars trail = true /\
    (body = "" \/
     exists first rest,
       body = String first rest /\ get 0 s = Some first /\
       Str.is_trim_char (Str.at_ body (length body - 1)) = false).
Proof.
  induction s as [|c s IH].
  - exists "", "". auto.
  - destruct IH as (body & trail & Hs & Ht & Hb).
    destruct Hb as [->|(first & rest & Hbody & Hget & Hlast)].
    + cbn [append] in Hs. subst s.
      destruct (Str.is_trim_char c) eqn:Hc.
      * exists "", (String c trail). split; [reflexivity|]. split; [|now left].
        cbn [only_trim_chars]. now rewrite Hc.
      * exists (String c ""), trail. split; [reflexivity|]. split; [exact Ht|].
        right. exists c, "". split; [reflexivity|]. split; [reflexivity|exact Hc].
    + exists (String c body), trail. split; [now rewrite Hs|]. split; [exact Ht|].
      right. exists c, body. split; [reflexivity|]. split; [reflexivity|].
      rewrite Hbody in Hlast |- *. cbn [length] in Hlast |- *.
      rewrite Nat.sub_succ, Nat.sub_0_r in Hlast |- *.
      unfold Str.at_ in Hlast |- *. exact Hlast.
Qed.

Lemma trim_decomposition s :
  exists lead core trail,
    s = lead ++ core ++ trail /\
    only_trim_chars lead = true /\ only_trim_chars trail = true /\
    clean_ended core = true.
Proof.
  induction s as [|c s IH].
  - exists "", "", "". auto.
  - destruct (Str.is_trim_char c) eqn:Hc.
    + destruct IH as (lead & core & trail & Hs & Hl & Ht & Hcore).
      exists (String c lead), core, trail.
      split; [now rewrite Hs|]. split; [cbn; now rewrite Hc|auto].
    + destruct (trailing_decomposition (String c s))
        as (body & trail & Hs & Ht & [->|(first & rest & Hbody & Hget & Hlast)]).
      * cbn [append] in Hs. subst trail. cbn [only_trim_chars] in Ht.
        rewrite Hc in Ht. discriminate.
      * exists "", body, trail. split; [exact Hs|]. split; [reflexivity|].
        split; [exact Ht|].
        cbn in Hget. injection Hget as <-.
        rewrite Hbody in Hlast |- *. cbn [clean_ended]. now rewrite Hc, Hlast.
Qed.

(** ** The reference decoder reads back an object with one string member *)

Lemma skip_ws_nonws c r : Reference.is_ws c = false -> Reference.skip_ws (String c r) = String c r.
Proof. intros H. cbn [Reference.skip_ws]. now rewrite H. Qed.

Lemma parse_value_object1 fuel k s rest :
  Reference.utf8_valid k = true ->
  Reference.utf8_valid s = true ->
  Reference.parse_value (S (S fuel))
    (String "{" (String Str.dquote
       (Reference.escape k ++ String Str.dquote
          (String ":" (String Str.dquote (Reference.escape s ++ String Str.dquote
                         (String "}" rest)))))))
  = Some (JObject [(k, JString s)], rest).
Proof.
  intros Hk Hs.
  cbn [Reference.parse_value].
  rewrite !skip_ws_nonws by reflexivity.
  change (Reference.byte "{") with 123%N. cbv iota.
  change (Reference.byte Str.dquote) with 34%N. cbn [N.eqb Pos.eqb]. cbv iota.
  cbn [length]. rewrite !skip_ws_nonws by reflexivity. cbv iota.
  change (Reference.byte Str.dquote) with 34%N. cbn [N.eqb Pos.eqb]. cbv iota.
  rewrite (scan_string_escape _ _ _ (Nat.le_refl _) Hk).
  rewrite !skip_ws_nonws by reflexivity.
  change (Reference.byte ":") with 58%N. cbn [N.eqb Pos.eqb]. cbv iota.
  change (Reference.byte Str.dquote) with 34%N. cbv iota.
  rewrite (scan_string_escape _ _ _ (Nat.le_refl _) Hs).
  rewrite !skip_ws_nonws by reflexivity.
  change (Reference.byte "}") with 125%N. cbn [N.eqb Pos.eqb]. cbv iota.
  reflexivity.
Qed.

Lemma parse_dump_object1 k s text :
  Reference.dump (JObject [(k, JString s)]) = Ret text ->
  Reference.parse text = Ret (JObject [(k, JString s)]).
Proof.
  cbn [Reference.dump Reference.encode_members]. unfold Reference.encode_string.
  destruct (Reference.utf8_valid k) eqn:Hk; [|discriminate].
  destruct (Reference.utf8_valid s) eqn:Hs; [|discriminate].
  intros [= <-]. unfold Reference.parse, Str.dq.
  cbn [append]. rewrite !append_assoc. cbn [append]. rewrite !append_assoc.
  cbn [append length].
  rewrite (parse_value_object1 _ k s "" Hk Hs). reflexivity.
Qed.

(** ** String parameters and conversion failures, on a whole tool call *)

Section EndToEnd.

Context {E : External}.

Lemma plain_call_parameters function_name params tools :
  plain_call function_name params tools = true ->
  forallb plain_parameter params = true /\ List.length params < MAX_PARAMETER_COUNT.
Proof.
  unfold plain_call. intros H.
  repeat (apply andb_prop in H; destruct H as [H ?]).
  split; [assumption|now apply Nat.ltb_lt].
Qed.

Lemma plain_call_parameters_size function_name params tools :
  plain_call function_name params tools = true ->
  (N.of_nat (length (parameters_text params)) <= MAX_INPUT_SIZE)%N.
Proof.
  unfold plain_call. intros H.
  repeat (apply andb_prop in H; destruct H as [H ?]).
  match goal with H : (_ <=? MAX_INPUT_SIZE)%N = true |- _ => apply N.leb_le in H; revert H end.
  unfold tool_call_text, function_text. cbn [append length].
  rewrite !length_append. cbn [length]. rewrite !length_append. lia.
Qed.

(** The coercion of a value whose trimmed text is [core], for a parameter
    the schema declares a string. *)
Lemma string_parameter_coerced value key param_config function_name core text :
  trim_whitespace value = core ->
  core <> "null" ->
  Json.contains param_config key = true ->
  declared_type param_config key = Ret "string" ->
  json_dump (JString core) = Ret text ->
  json_parse text = Ret (JString core) ->
  convert_parameter value key param_config function_name = Ret (JString core).
Proof.
  intros Htrim Hnull Hc Ht Hdump Hparse.
  unfold convert_parameter, convert_qwen3_param_value. rewrite Htrim.
  destruct (String.eqb_spec core "null"); [contradiction|].
  rewrite Hc, Ht. cbn [one_of String.eqb Ascii.eqb Bool.eqb orb].
  unfold dump_string. now rewrite Hdump.
Qed.

(** The call with one string parameter, from the scan to the appended tool
    call. *)
Lemma string_parameter_call function_name key value core tools text args_json error p :
  plain_call function_name [(key, value)] tools = true ->
  trim_whitespace value = core ->
  core <> "null" ->
  Json.contains (get_param_config function_name tools) key = true ->
  declared_type (get_param_config function_name tools) key = Ret "string" ->
  json_dump (JString core) = Ret text ->
  json_parse text = Ret (JString core) ->
  json_dump (JObject [(key, JString core)]) = Ret args_json ->
  parse_qwen3_xml_tool_call_error (tool_call_text function_name [(key, value)]) tools error p
  = (Ret (true, no_error),
     with_tool_calls (tool_calls_of p ++ [ToolCall.mk function_name args_json ""]) p).
Proof.
  intros Hcall Htrim Hnull Hc Ht Hdump Hparse Hargs.
  destruct (plain_call_parameters _ _ _ Hcall) as [Hall Hcount].
  assert (Hkv : plain_parameter (key, value) = true).
  { cbn [forallb] in Hall. now rewrite andb_true_r in Hall. }
  rewrite (parse_qwen3_xml_tool_call_error_reads _ _ _ _ _ Hcall).
  cbn [parameter_tags].
  rewrite parameters_loop_plain by (exact Hkv || (unfold MAX_PARAMETER_COUNT; lia)).
  cbn [fst snd].
  rewrite (string_parameter_coerced _ _ _ _ _ _ Htrim Hnull Hc Ht Hdump Hparse).
  cbn [parameters_loop Json.set_member]. now rewrite Hargs.
Qed.



End EndToEnd.


(** With the reference library the arguments are read back as the object
    that maps KEY to T, for every KEY and T that are UTF-8. *)
Lemma string_parameter_read_back sc function_name KEY lead core trail tools error p :
  plain_call function_name [(KEY, lead ++ core ++ trail)] tools = true ->
  only_trim_chars lead = true ->
  only_trim_chars trail = true ->
  clean_ended core = true ->
  core <> "null" ->
  Json.contains (@get_param_config (Reference.external sc) function_name tools) KEY = true ->
  declared_type (@get_param_config (Reference.external sc) function_name tools) KEY
  = Ret "string" ->
  Reference.utf8_valid KEY = true ->
  Reference.utf8_valid core = true ->
  exists args_json,
    @parse_qwen3_xml_tool_call_error (Reference.external sc)
      (tool_call_text function_name [(KEY, lead ++ core ++ trail)]) tools error p
    = (Ret (true, no_error),
       with_tool_calls (tool_calls_of p ++ [ToolCall.mk function_name args_json ""]) p) /\
    Reference.parse args_json = Ret (JObject [(KEY, JString core)]).
Proof.
  intros Hcall Hlead Htrail Hcore Hnull Hc Ht Hk Hs.
  pose proof (trim_whitespace_core _ _ _ Hlead Htrail Hcore) as Htrim.
  destruct (Reference.dump (JString core)) as [text|e] eqn:Hdump.
  2:{ cbn [Reference.dump] in Hdump. unfold Reference.encode_string in Hdump.
      rewrite Hs in Hdump. discriminate. }
  destruct (Reference.dump (JObject [(KEY, JString core)])) as [args_json|e] eqn:Hargs.
  2:{ cbn [Reference.dump Reference.encode_members] in Hargs.
      unfold Reference.encode_string in Hargs. rewrite Hk, Hs in Hargs. discriminate. }
  exists args_json. split.
  - exact (@string_parameter_call (Reference.external sc) _ _ _ _ _ _ _ _ _ Hcall Htrim Hnull
             Hc Ht Hdump (parse_dump_string _ _ Hdump) Hargs).
  - exact (parse_dump_object1 _ _ _ Hargs).
Qed.

(** A value that holds a closing [parameter] tag is cut there by the tag
    scanner (line 538): the argument is the text before it. *)
Example closing_tag_in_value :
  closed_by "</parameter>" "a</parameter>b" = false /\
  @parse_qwen3_xml_tool_call_error (Reference.external [])
    (tool_call_text "add" [("q", "a</parameter>b")]) add_tools no_error (parser_on "" false)
  = (Ret (true, no_error),
     with_tool_calls
       [ToolCall.mk "add"
          ("{" ++ Str.dq ++ "q" ++ Str.dq ++ ":" ++ Str.dq ++ "a" ++ Str.dq ++ "}") ""]
       (parser_on "" false)).
Proof. split; vm_compute; reflexivity. Qed.


(** The other end of the same call: a raw value that is not UTF-8 cannot be
    serialised, and the call is refused. *)
Example conversion_failure_then_serialization_failure :
  @parse_qwen3_xml_tool_call_error (Reference.external [])
    (tool_call_text "f" [("q", invalid_utf8)]) [] no_error (parser_on "" false)
  = (Ret (false,
          mkError JSON_SERIALIZATION_FAILED 0 "f"
            "Failed to serialize arguments for function 'f': invalid UTF-8 byte"),
     parser_on "" false).
Proof. vm_compute. reflexivity. Qed.

(** ** The dumper on the members of an object *)

Lemma pop_mark_push key st : pop_back (mark_found (push_back key st)) = mark_found st.
Proof.
  destruct st as [path found]. unfold pop_back, mark_found, push_back. cbn.
  now rewrite removelast_last.
Qed.

Lemma distinct_keys_app l1 : forall l2,
  distinct_keys (l1 ++ l2) = true ->
  distinct_keys l1 = true /\ distinct_keys l2 = true /\
  Forall (fun kv => existsb (fun ow => String.eqb (fst ow) (fst kv)) l1 = false) l2.
Proof.
  induction l1 as [|[k v] l1 IH]; intros l2 H; cbn [app distinct_keys] in *.
  - split; [reflexivity|]. split; [exact H|]. rewrite Forall_forall. reflexivity.
  - apply andb_prop in H. destruct H as [Hk H]. apply negb_true_iff in Hk.
    rewrite existsb_app in Hk. apply orb_false_elim in Hk. destruct Hk as [Hk1 Hk2].
    destruct (IH _ H) as (H1 & H2 & H3).
    split; [now rewrite Hk1, H1|]. split; [exact H2|].
    rewrite Forall_forall in H3 |- *. intros [k' v'] Hin.
    specialize (H3 _ Hin). cbn [existsb fst] in H3 |- *.
    rewrite H3, orb_false_r.
    destruct (String.eqb_spec k k') as [->|]; [|reflexivity].
    assert (Hex : existsb (fun kv => String.eqb (fst kv) k') l2 = true).
    { apply existsb_exists. exists (k', v'). split; [exact Hin|apply String.eqb_refl]. }
    congruence.
Qed.

Section DumpedArguments.

Context {E : External}.
Variable args_paths content_paths : list json_path.
Variable parser_is_partial : bool.
Variable parser_healing_marker : string.
Variable partial : common_json.

Local Notation "'walk'" :=
  (remove_unsupported_healings_and_dump_args args_paths content_paths parser_is_partial
     parser_healing_marker partial) (only parsing).

(** A value without the healing marker, off the argument and content paths,
    passes through the dumper as it is. *)
Lemma walk_keeps_marker_free j : forall st,
  marker_free parser_healing_marker j = true ->
  well_keyed j = true ->
  clear_below args_paths (path st) ->
  clear_below content_paths (path st) ->
  walk j st = Ret (j, st).
Proof.
  induction j as [| b | z | l | s | items IH | members IH] using json_nested_ind;
    intros st Hfree Hkeys Ha Hc;
    rewrite walk_off_paths by (apply clear_below_here; assumption);
    try reflexivity.
  - rewrite <- (app_nil_r items) at 1. rewrite items_loop_kept; [reflexivity|].
    cbn [marker_free well_keyed] in Hfree, Hkeys.
    rewrite forallb_forall in Hfree, Hkeys. rewrite Forall_forall in IH |- *.
    intros v Hv. split; [now apply Hfree|]. apply IH; auto.
  - rewrite <- (app_nil_r members) at 1.
    cbn [marker_free well_keyed] in Hfree, Hkeys.
    apply andb_prop in Hkeys. destruct Hkeys as [Hd Hkeys].
    rewrite forallb_forall in Hfree, Hkeys. rewrite Forall_forall in IH.
    rewrite members_loop_kept; [reflexivity| |exact Hd|].
    + rewrite Forall_forall. intros [k v] Hkv. cbn [fst snd].
      specialize (Hfree _ Hkv). specialize (Hkeys _ Hkv). cbn in Hfree, Hkeys.
      apply andb_prop in Hfree. destruct Hfree as [Hk Hv]. apply negb_true_iff in Hk.
      split; [exact Hk|]. split; [exact Hv|].
      apply (IH _ Hkv); auto; cbn; now apply clear_below_push.
    + rewrite Forall_forall. intros kv _. reflexivity.
Qed.

Lemma passes_through_kept st members :
  Forall (passes_through parser_healing_marker args_paths content_paths (path st)) members ->
  Forall (fun kv =>
            contains_str (fst kv) parser_healing_marker = false /\
            marker_free parser_healing_marker (snd kv) = true /\
            walk (snd kv) (push_back (fst kv) st) = Ret (snd kv, push_back (fst kv) st))
    members.
Proof.
  intros H. rewrite Forall_forall in H |- *. intros kv Hin.
  destruct (H _ Hin) as (Hk & Hfree & Hkeys & Ha & Hc).
  split; [exact Hk|]. split; [exact Hfree|].
  apply walk_keeps_marker_free; assumption.
Qed.

(** One turn of the loop on a member that is not a string and whose path is
    an argument path: the member is handed to the walk, which serialises
    it. *)
Lemma members_loop_dumps key v ms obj st text :
  contains_str key parser_healing_marker = false ->
  (forall s, v <> JString s) ->
  is_arguments_path args_paths (path st ++ [key])%list = true ->
  json_dump v = Ret text ->
  members_loop content_paths parser_healing_marker partial walk ((key, v) :: ms) obj st
  = members_loop content_paths parser_healing_marker partial walk ms
      (Json.set_member key (JString (emitted_of parser_is_partial partial text)) obj)
      (match cut_of parser_is_partial partial text with
       | Some _ => mark_found st
       | None => st
       end).
Proof.
  intros Hk Hv Hpath Hdump.
  assert (Hw : walk v (push_back key st)
               = Ret (JString (emitted_of parser_is_partial partial text),
                      match cut_of parser_is_partial partial text with
                      | Some _ => mark_found (push_back key st)
                      | None => push_back key st
                      end)).
  { apply walk_at_arguments_path; [exact Hpath|exact Hdump]. }
  cbn [members_loop]. rewrite Hk.
  destruct v; try (rewrite Hw; destruct (cut_of _ _ _);
                   now rewrite ?pop_mark_push, ?pop_push).
  now destruct (Hv s).
Qed.

(** The walk of an object up to a member that is not a string and whose path
    is an argument path: the members before it are copied, the member is
    serialised, and the loop goes on with the members after it. *)
Lemma walk_dumps_member_then st before key v after text :
  is_arguments_path args_paths (path st) = false ->
  is_content_path content_paths (path st) = false ->
  is_arguments_path args_paths (path st ++ [key])%list = true ->
  (forall s, v <> JString s) ->
  contains_str key parser_healing_marker = false ->
  json_dump v = Ret text ->
  distinct_keys (before ++ [(key, v)]) = true ->
  Forall (passes_through parser_healing_marker args_paths content_paths (path st)) before ->
  walk (JObject (before ++ (key, v) :: after)) st
  = members_loop content_paths parser_healing_marker partial walk after
      (before ++ [(key, JString (emitted_of parser_is_partial partial text))])%list
      (match cut_of parser_is_partial partial text with
       | Some _ => mark_found st
       | None => st
       end).
Proof.
  intros Ha Hc Hpath Hv Hk Hdump Hd Hbefore.
  destruct (distinct_keys_app _ _ Hd) as (Hd1 & _ & Hfresh).
  inversion Hfresh as [|? ? Hkb _]; subst. cbn [fst] in Hkb.
  rewrite walk_off_paths by assumption.
  rewrite members_loop_kept;
    [|apply passes_through_kept; exact Hbefore|exact Hd1
     |rewrite Forall_forall; intros kv _; reflexivity].
  cbn [app]. rewrite (members_loop_dumps _ _ _ _ _ _ Hk Hv Hpath Hdump).
  now rewrite (set_member_fresh _ _ _ Hkb).
Qed.

(** The same when the members after it are copied too. *)
Lemma walk_dumps_member st before key v after text :
  is_arguments_path args_paths (path st) = false ->
  is_content_path content_paths (path st) = false ->
  is_arguments_path args_paths (path st ++ [key])%list = true ->
  (forall s, v <> JString s) ->
  contains_str key parser_healing_marker = false ->
  json_dump v = Ret text ->
  distinct_keys (before ++ (key, v) :: after) = true ->
  Forall (passes_through parser_healing_marker args_paths content_paths (path st)) before ->
  Forall (passes_through parser_healing_marker args_paths content_paths (path st)) after ->
  walk (JObject (before ++ (key, v) :: after)) st
  = Ret (JObject (before ++ (key, JString (emitted_of parser_is_partial partial text))
                    :: after),
         match cut_of parser_is_partial partial text with
         | Some _ => mark_found st
         | None => st
         end).
Proof.
  intros Ha Hc Hpath Hv Hk Hdump Hd Hbefore Hafter.
  destruct (distinct_keys_app _ _ Hd) as (Hd1 & Hd2 & Hfresh).
  cbn [distinct_keys] in Hd2. apply andb_prop in Hd2. destruct Hd2 as [Hkey Hd2].
  apply negb_true_iff in Hkey.
  inversion Hfresh as [|? ? Hkb Hfresh']; subst. cbn [fst] in Hkb.
  rewrite (walk_dumps_member_then st before key v after text); try assumption.
  2:{ clear - Hd1 Hkb. induction before as [|[k w] before IH]; [reflexivity|].
      cbn [app distinct_keys] in *. cbn [existsb fst] in Hkb.
      apply orb_false_elim in Hkb. destruct Hkb as [Hne Hkb].
      apply andb_prop in Hd1. destruct Hd1 as [Hk Hd1]. apply negb_true_iff in Hk.
      rewrite existsb_app, Hk, (IH Hd1 Hkb). cbn [existsb fst].
      now rewrite String.eqb_sym, Hne. }
  set (st' := match cut_of parser_is_partial partial text with
              | Some _ => mark_found st
              | None => st
              end).
  assert (Hst : path st' = path st) by (unfold st'; destruct (cut_of _ _ _); reflexivity).
  rewrite <- (app_nil_r after) at 1.
  rewrite members_loop_kept.
  - cbn [members_loop]. now rewrite <- app_assoc.
  - apply passes_through_kept. now rewrite Hst.
  - exact Hd2.
  - rewrite Forall_forall in Hfresh' |- *. intros kv Hin.
    rewrite existsb_app, (Hfresh' _ Hin). cbn [existsb fst orb].
    rewrite orb_false_r.
    destruct (String.eqb_spec key (fst kv)) as [Heq|]; [|reflexivity].
    assert (Hex : existsb (fun ow => String.eqb (fst ow) key) after = true).
    { apply existsb_exists. exists kv. split; [exact Hin|]. rewrite Heq. apply String.eqb_refl. }
    congruence.
Qed.


End DumpedArguments.

